(** * SingleVariantSet: a two-variant bucketing rule

    A shallow embedding of
    [baseplate/lib/experiments/variant_sets/single_variant_set.py]
    together with the properties of its constructor, of [__contains__]
    and of [choose_variant].

    The Python code computes with dynamically typed values: the entries of
    a variant dict are [None], an [int], a [float] or a [str].  Floats are
    IEEE 754 binary64 numbers and are modelled by [spec_float] with the
    operations of [SpecFloat] at precision 53 and maximal exponent 1024;
    ints are unbounded and are modelled by [Z]. *)

From Stdlib Require Import ZArith Lia Bool String List.
From Stdlib Require Import SpecFloat.
From stdpp Require Import gmap strings.

Local Open Scope Z_scope.

(** ** Exceptions and results *)

Inductive exn :=
| ValueError (msg : string)
| KeyError (key : string)
| TypeError
| OverflowError
| IndexError.

Inductive result (A : Type) :=
| Ok (a : A)
| Raise (e : exn).

Arguments Ok {A} a.
Arguments Raise {A} e.

Definition bind {A B} (m : result A) (k : A -> result B) : result B :=
  match m with
  | Ok a => k a
  | Raise e => Raise e
  end.

Notation "'let*' x ':=' m 'in' k" := (bind m (fun x => k))
  (at level 10, x name, m at level 100, k at level 200).

Definition returns {A} (m : result A) : Prop := exists a, m = Ok a.

Definition raises_ValueError {A} (m : result A) : Prop :=
  exists msg, m = Raise (ValueError msg).

(** ** Binary64 floats *)

Module Float.

Definition prec : Z := 53.
Definition emax : Z := 1024.

Definition add : spec_float -> spec_float -> spec_float := SFadd prec emax.
Definition mul : spec_float -> spec_float -> spec_float := SFmul prec emax.
Definition div : spec_float -> spec_float -> spec_float := SFdiv prec emax.
Definition ltb : spec_float -> spec_float -> bool := SFltb.
Definition leb : spec_float -> spec_float -> bool := SFleb.

(** [float(n)] for an int [n]: the nearest float, ties to even;
    [OverflowError] when [n] is too large. *)
Definition of_int (n : Z) : result spec_float :=
  match binary_normalize prec emax n 0 false with
  | S754_infinity _ => Raise OverflowError
  | f => Ok f
  end.

(** [int(x)] for a float [x]: truncation toward zero. *)
Definition to_int (x : spec_float) : result Z :=
  match x with
  | S754_nan => Raise (ValueError "cannot convert float NaN to integer")
  | S754_infinity _ => Raise OverflowError
  | S754_zero _ => Ok 0
  | S754_finite s m e =>
      let a := if 0 <=? e then Z.pos m * 2 ^ e else Z.pos m / 2 ^ (- e) in
      Ok (if s then - a else a)
  end.

(** The largest integer not above [x], the [floor] of the specification. *)
Definition floor (x : spec_float) : result Z :=
  match x with
  | S754_nan => Raise (ValueError "cannot convert float NaN to integer")
  | S754_infinity _ => Raise OverflowError
  | S754_zero _ => Ok 0
  | S754_finite s m e =>
      if 0 <=? e then Ok (if s then - (Z.pos m * 2 ^ e) else Z.pos m * 2 ^ e)
      else Ok (if s then - ((Z.pos m + 2 ^ (- e) - 1) / 2 ^ (- e))
               else Z.pos m / 2 ^ (- e))
  end.

(** Truncation toward zero as a quotient of integers: the numerator and
    the denominator of the value [(-1)^s * m * 2^e]. *)
Definition trunc (x : spec_float) : result Z :=
  match x with
  | S754_nan => Raise (ValueError "cannot convert float NaN to integer")
  | S754_infinity _ => Raise OverflowError
  | S754_zero _ => Ok 0
  | S754_finite s m e =>
      Ok (Z.quot ((if s then Z.neg m else Z.pos m) * 2 ^ Z.max e 0)
                 (2 ^ Z.max (- e) 0))
  end.

Definition is_finite (x : spec_float) : bool :=
  match x with
  | S754_zero _ | S754_finite _ _ _ => true
  | _ => false
  end.

(** Exact comparison of an int with a float, as Python performs it. *)
Definition compare_int (z : Z) (x : spec_float) : option comparison :=
  match x with
  | S754_nan => None
  | S754_infinity s => Some (if s then Gt else Lt)
  | S754_zero _ => Some (z ?= 0)
  | S754_finite s m e =>
      let v := if s then Z.neg m else Z.pos m in
      Some (if 0 <=? e then z ?= v * 2 ^ e else z * 2 ^ (- e) ?= v)
  end.

(** [int(x * n)] for a float [x] and an int [n] *)
Definition mul_int (x : spec_float) (n : Z) : result Z :=
  let* fn := of_int n in to_int (mul x fn).

(** The floats Python computes with: canonical mantissa and exponent in
    range. *)
Definition valid (x : spec_float) : bool := valid_binary prec emax x.

(** Zero (of either sign) or a positive finite float. *)
Definition nonneg (x : spec_float) : bool :=
  match x with
  | S754_zero _ | S754_finite false _ _ => true
  | _ => false
  end.

(** The mantissa of [x] at the scale [2^-c], and its exponent. *)
Definition scaled (x : spec_float) (c : Z) : Z :=
  match x with
  | S754_finite _ m e => Z.pos m * 2 ^ (e + c)
  | _ => 0
  end.

Definition expo (x : spec_float) : Z :=
  match x with
  | S754_finite _ _ e => e
  | _ => 0
  end.

(** The literals of the source and of the specification's examples. *)
Definition zero : spec_float := S754_zero false.
Definition one : spec_float := S754_finite false 4503599627370496 (-52).
Definition half : spec_float := S754_finite false 4503599627370496 (-53).
Definition quarter : spec_float := S754_finite false 4503599627370496 (-54).
Definition three_quarters : spec_float := S754_finite false 6755399441055744 (-53).
(** [0.4] and [0.3] are not binary fractions: the literal denotes the
    nearest float, [0x1.999999999999ap-2] and [0x1.3333333333333p-2]. *)
Definition f0_4 : spec_float := S754_finite false 7205759403792794 (-54).
Definition f0_3 : spec_float := S754_finite false 5404319552844595 (-54).
Definition eighth : spec_float := S754_finite false 4503599627370496 (-55).
(** [0.6], the nearest float [0x1.3333333333333p-1]. *)
Definition f0_6 : spec_float := S754_finite false 5404319552844595 (-53).
(** [-0.5] and [float("nan")]. *)
Definition minus_half : spec_float := S754_finite true 4503599627370496 (-53).
Definition nan : spec_float := S754_nan.

End Float.

(** ** Python values *)

Inductive pyval :=
| VNone
| VInt (z : Z)
| VFloat (x : spec_float)
| VStr (s : string).

(** The one builtin left abstract: [int(s)] for a [str] [s], Python's
    parser of integer literals.  It is only reached with a [str] size,
    which the constructor never lets through. *)
Class Builtins := { int_of_str : string -> result Z }.

Fixpoint str_repeat (s : string) (n : nat) : string :=
  match n with
  | O => EmptyString
  | S n' => String.append s (str_repeat s n')
  end.

(** [a + b] *)
Definition py_add (a b : pyval) : result pyval :=
  match a, b with
  | VInt x, VInt y => Ok (VInt (x + y))
  | VInt x, VFloat y => let* fx := Float.of_int x in Ok (VFloat (Float.add fx y))
  | VFloat x, VInt y => let* fy := Float.of_int y in Ok (VFloat (Float.add x fy))
  | VFloat x, VFloat y => Ok (VFloat (Float.add x y))
  | VStr x, VStr y => Ok (VStr (String.append x y))
  | _, _ => Raise TypeError
  end.

(** [a < c] and [a > c] for a float constant [c] *)
Definition py_lt_float (a : pyval) (c : spec_float) : result bool :=
  match a with
  | VInt z => Ok (match Float.compare_int z c with Some Lt => true | _ => false end)
  | VFloat x => Ok (Float.ltb x c)
  | _ => Raise TypeError
  end.

Definition py_gt_float (a : pyval) (c : spec_float) : result bool :=
  match a with
  | VInt z => Ok (match Float.compare_int z c with Some Gt => true | _ => false end)
  | VFloat x => Ok (Float.ltb c x)
  | _ => Raise TypeError
  end.

(** [a * n] for an int [n] *)
Definition py_mul_int (a : pyval) (n : Z) : result pyval :=
  match a with
  | VInt z => Ok (VInt (z * n))
  | VFloat x => let* fn := Float.of_int n in Ok (VFloat (Float.mul x fn))
  | VStr s => Ok (VStr (str_repeat s (Z.to_nat n)))
  | VNone => Raise TypeError
  end.

(** [int(a)] *)
Definition py_int `{Builtins} (a : pyval) : result Z :=
  match a with
  | VInt z => Ok z
  | VFloat x => Float.to_int x
  | VStr s => int_of_str s
  | VNone => Raise TypeError
  end.

(** [a or b] for two tests: [b] is evaluated only when [a] is false. *)
Definition py_or (a b : result bool) : result bool :=
  let* x := a in if x then Ok true else b.

(** [a == item] for a [str] [item] *)
Definition py_eq_str (a : pyval) (item : string) : bool :=
  match a with
  | VStr s => String.eqb s item
  | _ => false
  end.

(** [a is None] *)
Definition is_None (a : pyval) : bool :=
  match a with
  | VNone => true
  | _ => false
  end.

(** ** Dicts and lists *)

Abbreviation dict := (gmap string pyval).

(** [d.get(k)] *)
Definition dict_get (d : dict) (k : string) : pyval :=
  match d !! k with
  | Some v => v
  | None => VNone
  end.

(** [d[k]] *)
Definition dict_getitem (d : dict) (k : string) : result pyval :=
  match d !! k with
  | Some v => Ok v
  | None => Raise (KeyError k)
  end.

(** [l[i]] where [l] may be [None] *)
Definition list_getitem (l : option (list dict)) (i : nat) : result dict :=
  match l with
  | None => Raise TypeError
  | Some l =>
      match l !! i with
      | Some d => Ok d
      | None => Raise IndexError
      end
  end.

(** ** The class *)

Module SingleVariantSet.

Record t := { variants : option (list dict); num_buckets : Z }.

Definition default_num_buckets : Z := 1000.

Definition _validate_variants (self : t) : result unit :=
  match variants self with
  | None => Raise (ValueError "No variants provided")
  | Some l =>
      if negb (Nat.eqb (List.length l) 2) then
        Raise (ValueError
          "Single Variant experiments expect only one variant and one control.")
      else
        let* missing :=
          py_or (let* v0 := list_getitem (variants self) 0 in
                 Ok (is_None (dict_get v0 "size")))
                (let* v1 := list_getitem (variants self) 1 in
                 Ok (is_None (dict_get v1 "size"))) in
        if missing then
          (* the message goes on with the repr of the variants *)
          Raise (ValueError "Variant size not provided: ")
        else
          let* v0 := list_getitem (variants self) 0 in
          let* s0 := dict_getitem v0 "size" in
          let* v1 := list_getitem (variants self) 1 in
          let* s1 := dict_getitem v1 "size" in
          let* total_size := py_add s0 s1 in
          let* outside :=
            py_or (py_lt_float total_size Float.zero)
                  (py_gt_float total_size Float.one) in
          if outside then
            Raise (ValueError "Sum of all variants must be between 0 and 1.")
          else Ok tt
  end.

Definition __init__ (variants : option (list dict)) (num_buckets : Z) : result t :=
  let self := {| variants := variants; num_buckets := num_buckets |} in
  let* _ := _validate_variants self in
  Ok self.

Definition __contains__ (self : t) (item : string) : result bool :=
  let* found :=
    py_or (let* v0 := list_getitem (variants self) 0 in
           Ok (py_eq_str (dict_get v0 "name") item))
          (let* v1 := list_getitem (variants self) 1 in
           Ok (py_eq_str (dict_get v1 "name") item)) in
  if found then Ok true else Ok false.

Section ChooseVariant.
Context `{Builtins}.

(** [int(self.variants[i]["size"] * self.num_buckets)] *)
Definition width (self : t) (i : nat) : result Z :=
  let* v := list_getitem (variants self) i in
  let* size := dict_getitem v "size" in
  let* prod := py_mul_int size (num_buckets self) in
  py_int prod.

Definition choose_variant (self : t) (bucket : Z) : result pyval :=
  let* w0 := width self 0 in
  if bucket <? w0 then
    let* v0 := list_getitem (variants self) 0 in
    dict_getitem v0 "name"
  else
    let* w1 := width self 1 in
    if bucket >=? num_buckets self - w1 then
      let* v1 := list_getitem (variants self) 1 in
      dict_getitem v1 "name"
    else Ok VNone.
End ChooseVariant.

End SingleVariantSet.

Import SingleVariantSet.

(** ** The vocabulary of the specification

    An outcome is a dict with a [name] and a proportion, its [size]; the
    bucket count is [num_buckets]. *)

Definition name (o : dict) : result pyval := dict_getitem o "name".

Definition proportion (o : dict) : result pyval := dict_getitem o "size".

(** [floor], and truncation toward zero, of a number. *)
Definition py_floor (a : pyval) : result Z :=
  match a with
  | VInt z => Ok z
  | VFloat x => Float.floor x
  | _ => Raise TypeError
  end.

Definition py_trunc (a : pyval) : result Z :=
  match a with
  | VInt z => Ok z
  | VFloat x => Float.trunc x
  | _ => Raise TypeError
  end.

(** The four steps of [chooseOutcome] in the specification, for a given
    rounding of the two products to widths. *)
Definition rule (round : pyval -> result Z) (outcomes : list dict)
    (bucketCount bucketIndex : Z) : result pyval :=
  match outcomes with
  | [o0; o1] =>
      let* p0 := proportion o0 in
      let* x0 := py_mul_int p0 bucketCount in
      let* lowWidth := round x0 in
      if bucketIndex <? lowWidth then name o0
      else
        let* p1 := proportion o1 in
        let* x1 := py_mul_int p1 bucketCount in
        let* highWidth := round x1 in
        if bucketIndex >=? bucketCount - highWidth then name o1
        else Ok VNone
  | _ => Raise IndexError
  end.

(** The rule as the specification words it, with [floor]. *)
Definition spec_chooseOutcome : list dict -> Z -> Z -> result pyval :=
  rule py_floor.

(** The rule with truncation toward zero in the place of [floor]. *)
Definition trunc_chooseOutcome : list dict -> Z -> Z -> result pyval :=
  rule py_trunc.

(** The width the specification gives an outcome: [floor(proportion * bucketCount)]. *)
Definition spec_width (o : dict) (bucketCount : Z) : result Z :=
  let* p := proportion o in
  let* x := py_mul_int p bucketCount in
  py_floor x.

(** [0 <= total <= 1], the range the specification requires of the sum. *)
Definition within_unit (total : pyval) : bool :=
  match total with
  | VInt z => (0 <=? z) && (z <=? 1)
  | VFloat x => Float.leb Float.zero x && Float.leb x Float.one
  | _ => false
  end.

(** The invariants of the specification on the outcomes: exactly two
    outcomes, each with a proportion, the sum of the two within [0, 1]. *)
Definition outcomes_valid (v : option (list dict)) : bool :=
  match v with
  | Some [d0; d1] =>
      match d0 !! "size", d1 !! "size" with
      | Some s0, Some s1 =>
          negb (is_None s0) && negb (is_None s1) &&
          match py_add s0 s1 with
          | Ok total => within_unit total
          | Raise _ => false
          end
      | _, _ => false
      end
  | _ => false
  end.

(** All the invariants of the specification: those of the outcomes, and a
    positive bucket count. *)
Definition fully_valid (vp : SingleVariantSet.t) : bool :=
  outcomes_valid (SingleVariantSet.variants vp) &&
  (0 <? SingleVariantSet.num_buckets vp).

(** The sizes of the data model: each is [None] or a number, and the sum
    of two numbers is a number, not NaN. *)
Definition number_or_None (a : pyval) : Prop :=
  match a with
  | VNone | VInt _ | VFloat _ => True
  | VStr _ => False
  end.

Definition typed_sizes (v : option (list dict)) : Prop :=
  forall d0 d1 s0 s1,
    v = Some [d0; d1] -> d0 !! "size" = Some s0 -> d1 !! "size" = Some s1 ->
    number_or_None s0 /\ number_or_None s1 /\
    (s0 <> VNone -> s1 <> VNone ->
     exists total, py_add s0 s1 = Ok total /\ total <> VFloat S754_nan).

(** The test of the constructor on the sum: [total < 0.0 or total > 1.0]. *)
Definition out_of_range (total : pyval) : Prop :=
  py_lt_float total Float.zero = Ok true \/
  (py_lt_float total Float.zero = Ok false /\ py_gt_float total Float.one = Ok true).

(** The four kinds of configuration error. *)
Definition config_error (v : option (list dict)) : Prop :=
  v = None \/
  (exists l, v = Some l /\ List.length l <> 2%nat) \/
  (exists d0 d1, v = Some [d0; d1] /\
     (dict_get d0 "size" = VNone \/ dict_get d1 "size" = VNone)) \/
  (exists d0 d1 s0 s1 total, v = Some [d0; d1] /\
     d0 !! "size" = Some s0 /\ s0 <> VNone /\
     d1 !! "size" = Some s1 /\ s1 <> VNone /\
     py_add s0 s1 = Ok total /\ out_of_range total).

(** What the constructor checks of the variants, as a proposition. *)
Definition accepted (v : option (list dict)) : Prop :=
  exists d0 d1 s0 s1 total,
    v = Some [d0; d1] /\
    d0 !! "size" = Some s0 /\ s0 <> VNone /\
    d1 !! "size" = Some s1 /\ s1 <> VNone /\
    py_add s0 s1 = Ok total /\
    py_lt_float total Float.zero = Ok false /\
    py_gt_float total Float.one = Ok false.

Definition is_number (a : pyval) : Prop :=
  match a with
  | VInt _ | VFloat _ => True
  | _ => False
  end.

(** The product [size * n] is a finite number, so that [int] accepts it. *)
Definition finite_product (size : pyval) (n : Z) : Prop :=
  match size with
  | VInt _ => True
  | VFloat x =>
      exists fn, Float.of_int n = Ok fn /\ Float.is_finite (Float.mul x fn) = true
  | _ => False
  end.

(** A size that is zero: [0], [0.0] or [-0.0]. *)
Definition is_zero_size (size : pyval) : Prop :=
  match size with
  | VInt 0 => True
  | VFloat (S754_zero _) => True
  | _ => False
  end.

(** A size that is not negative. *)
Definition nonneg_size (size : pyval) : Prop :=
  match size with
  | VInt z => 0 <= z
  | VFloat x => Float.nonneg x = true
  | _ => False
  end.

(** A size that is a valid float and not negative. *)
Definition nonneg_float (size : pyval) : Prop :=
  match size with
  | VFloat x => Float.valid x = true /\ Float.nonneg x = true
  | _ => False
  end.

(** The outcome [(name, size)] of the specification is the dict
    [{"name": name, "size": size}]. *)
Definition variant (name : string) (size : pyval) : dict :=
  {[ "name" := VStr name; "size" := size ]}.

(** [choose_variant] with its two tests in the other order. *)
Definition choose_variant_high_first `{Builtins} (self : SingleVariantSet.t)
    (bucket : Z) : result pyval :=
  let* w1 := SingleVariantSet.width self 1 in
  if bucket >=? SingleVariantSet.num_buckets self - w1 then
    let* v1 := list_getitem (SingleVariantSet.variants self) 1 in
    dict_getitem v1 "name"
  else
    let* w0 := SingleVariantSet.width self 0 in
    if bucket <? w0 then
      let* v0 := list_getitem (SingleVariantSet.variants self) 0 in
      dict_getitem v0 "name"
    else Ok VNone.

(** An instance of the abstract builtin for the closed examples below,
    none of which applies [int] to a [str]. *)
Definition no_int_of_str : Builtins :=
  {| int_of_str := fun _ => Raise (ValueError "invalid literal for int() with base 10") |}.

(** ** Rounding *)

(** Rounding to the nearest integer of [m / 2^n], ties to even. *)
Definition rne (m n : Z) : Z :=
  if n <=? 0 then m * 2 ^ (- n)
  else
    let q := m / 2 ^ n in
    match 2 * (m mod 2 ^ n) ?= 2 ^ n with
    | Lt => q
    | Eq => if Z.even q then q else q + 1
    | Gt => q + 1
    end.

(** Truncation of [m * 2^k]. *)
Definition ztrunc (m k : Z) : Z :=
  if 0 <=? k then m * 2 ^ k else m / 2 ^ (- k).

Definition loc_of (r n : Z) : location :=
  if r =? 0 then loc_Exact else loc_Inexact (2 * r ?= 2 ^ n).


Abbreviation fexp64 := (fexp 53 1024).


(** What [binary_round_aux] returns for the exact value [m * 2^e]: the
    mantissa [a] rounded at the exponent [k], renormalised when the
    rounding carried into a further bit. *)
Definition rounds_to (r : spec_float) (s : bool) (a k : Z) : Prop :=
  (a = 0 /\ r = S754_zero s) \/
  (exists p e2,
     r = (if e2 <=? 971 then S754_finite s p e2 else S754_infinity s) /\
     ((Z.pos p = a /\ e2 = k /\ a < 2 ^ 53) \/
      (a = 2 ^ 53 /\ Z.pos p = 2 ^ 52 /\ e2 = k + 1))).

Definition round_exp (m e : Z) : Z := Z.max (fexp64 (Zdigits2 m + e)) e.


(** The exponent of the format at the magnitude of [M * 2^E], and the
    integer that [int] returns for the float nearest to [M * 2^E]. *)
Definition fmt_exp (M E : Z) : Z := fexp64 (Zdigits2 M + E).

Definition fwidth (M E : Z) : Z :=
  ztrunc (rne M (fmt_exp M E - E)) (fmt_exp M E).


(** The order of two values [M * 2^E] and [M' * 2^E']. *)
Definition le_val (M E M' E' : Z) : Prop :=
  M * 2 ^ (E - Z.min E E') <= M' * 2 ^ (E' - Z.min E E').


(** ** Counting the buckets of an outcome *)

(** Whether an answer of [choose_variant] is the name [n], and whether it
    is [None]. *)
Definition is_name (r : result pyval) (n : string) : bool :=
  match r with
  | Ok (VStr s) => String.eqb s n
  | _ => false
  end.

Definition is_unassigned (r : result pyval) : bool :=
  match r with
  | Ok VNone => true
  | _ => false
  end.

(** The number of indices [b] of the range [0 <= b < n] that pass a test. *)
Definition count_buckets (test : Z -> bool) (n : Z) : Z :=
  Z.of_nat (List.length (List.filter test (seqZ 0 n))).

(** The float nearest to [k / 1000]: what a literal in thousandths, such
    as [0.057], and the division [k / 1000] of two ints denote. *)
Definition thousandths (k : Z) : spec_float :=
  Float.div (binary_normalize Float.prec Float.emax k 0 false)
            (binary_normalize Float.prec Float.emax 1000 0 false).

(** Whether the exact product [x * n] of a float and an int is a whole
    number. *)
Definition whole_product (x : spec_float) (n : Z) : bool :=
  match x with
  | S754_zero _ => true
  | S754_finite _ m e =>
      if 0 <=? e then true else (Z.pos m * n) mod 2 ^ (- e) =? 0
  | _ => false
  end.

(** ** The sum of two sizes and the sizes in thousandths *)

(** Whether the exact sum of two float sizes is at most [1 + 2^-53], the
    largest sum that rounds to [1.0]; the sum is taken at a scale at which
    both sizes are integers. *)
Definition sum_rounds_within (p0 p1 : spec_float) : bool :=
  let c := Z.max 0 (- Z.min (Float.expo p0) (Float.expo p1)) in
  (Float.scaled p0 c + Float.scaled p1 c) * 2 ^ 53 <=? (2 ^ 53 + 1) * 2 ^ c.

(** What evaluation checks of the size [thousandths k]: it is a valid
    non-negative float, an integer at the scale [2^-62], with 1000 buckets
    its width is [k], it is at most [thousandths (k + 1)], and its exact
    sum with [thousandths (1000 - k)] is at most [1 + 2^-53]. *)
Definition thousandths_ok (k : Z) : bool :=
  let x := thousandths k in
  Float.valid x && Float.nonneg x && (0 <=? Float.expo x + 62) &&
  match Float.mul_int x 1000 with
  | Ok w => w =? k
  | Raise _ => false
  end &&
  (Float.scaled x 62 <=? Float.scaled (thousandths (k + 1)) 62) &&
  ((Float.scaled x 62 + Float.scaled (thousandths (1000 - k)) 62) * 2 ^ 53
     <=? (2 ^ 53 + 1) * 2 ^ 62).

(** * Properties *)

(** ** The constructor *)

Lemma is_None_false a : is_None a = false <-> a <> VNone.
Proof. destruct a; simpl; split; congruence. Qed.

Lemma dict_get_not_None d k :
  is_None (dict_get d k) = false <-> exists a, d !! k = Some a /\ a <> VNone.
Proof.
  unfold dict_get. destruct (d !! k) as [a|] eqn:E; simpl.
  - rewrite is_None_false. split.
    + intros Ha. exists a. auto.
    + intros (b & Hb & Hn). congruence.
  - split; [discriminate | intros (b & Hb & _); discriminate].
Qed.

Lemma validate_Ok_iff self :
  _validate_variants self = Ok tt <-> accepted (variants self).
Proof.
  unfold _validate_variants, accepted. destruct (variants self) as [l|] eqn:Hv.
  2:{ split; [discriminate | intros (?&?&?&?&?&?&_); discriminate]. }
  destruct l as [|d0 [|d1 [|d2 l]]]; simpl;
    try (split; [discriminate | intros (?&?&?&?&?&?&_); discriminate]).
  destruct (is_None (dict_get d0 "size")) eqn:E0; simpl.
  { split; [discriminate|]. intros (?&?&s0&?&?&[= <- <-]&H0&N0&_).
    assert (is_None (dict_get d0 "size") = false) as F
      by (apply dict_get_not_None; eauto). congruence. }
  destruct (is_None (dict_get d1 "size")) eqn:E1; simpl.
  { split; [discriminate|]. intros (?&?&?&s1&?&[= <- <-]&_&_&H1&N1&_).
    assert (is_None (dict_get d1 "size") = false) as F
      by (apply dict_get_not_None; eauto). congruence. }
  apply dict_get_not_None in E0 as (s0 & H0 & N0).
  apply dict_get_not_None in E1 as (s1 & H1 & N1).
  unfold dict_getitem. rewrite H0, H1. simpl.
  split.
  - intros Hrun. exists d0, d1, s0, s1.
    destruct (py_add s0 s1) as [total|] eqn:Ha; simpl in Hrun; [|discriminate].
    exists total.
    destruct (py_lt_float total Float.zero) as [[|]|] eqn:Hl; simpl in Hrun;
      try discriminate.
    destruct (py_gt_float total Float.one) as [[|]|] eqn:Hg; simpl in Hrun;
      try discriminate.
    repeat split; auto.
  - intros (?&?&?&?&total&[= <- <-]&?&_&?&_&Ha&Hl&Hg). simplify_eq.
    rewrite Ha. simpl. rewrite Hl. simpl. rewrite Hg. reflexivity.
Qed.

Lemma init_Ok_iff v N vp :
  __init__ v N = Ok vp <->
  vp = {| variants := v; num_buckets := N |} /\ accepted v.
Proof.
  unfold __init__.
  pose proof (validate_Ok_iff {| variants := v; num_buckets := N |}) as Hv.
  simpl in Hv. destruct (_validate_variants _) as [[]|e]; simpl.
  - split.
    + intros [= <-]. split; [reflexivity | apply Hv; reflexivity].
    + intros [-> _]. reflexivity.
  - split; [discriminate|]. intros [_ Ha]. apply Hv in Ha. discriminate.
Qed.

(** The sizes of an accepted configuration are numbers. *)
Lemma py_add_number s0 s1 total c b :
  py_add s0 s1 = Ok total -> py_lt_float total c = Ok b ->
  is_number s0 /\ is_number s1 /\ is_number total.
Proof.
  destruct s0 as [|x0|x0|x0], s1 as [|x1|x1|x1]; simpl; try discriminate;
    try (destruct (Float.of_int _); simpl; try discriminate);
    intros [= <-]; simpl; try discriminate; auto.
Qed.

(** ** Floats *)


Lemma digits2_pos_log2 p : Z.pos (digits2_pos p) = Z.log2 (Z.pos p) + 1.
Proof.
  induction p as [p IH|p IH|]; simpl digits2_pos; rewrite ?Pos2Z.inj_succ, ?IH.
  - change (Z.pos p~1) with (2 * Z.pos p + 1). rewrite Z.log2_succ_double by lia. lia.
  - change (Z.pos p~0) with (2 * Z.pos p). rewrite Z.log2_double by lia. lia.
  - reflexivity.
Qed.

Lemma digits2_bounds p :
  2 ^ (Z.pos (digits2_pos p) - 1) <= Z.pos p < 2 ^ Z.pos (digits2_pos p).
Proof.
  rewrite digits2_pos_log2.
  replace (Z.log2 (Z.pos p) + 1 - 1) with (Z.log2 (Z.pos p)) by lia.
  replace (Z.log2 (Z.pos p) + 1) with (Z.succ (Z.log2 (Z.pos p))) by lia.
  apply Z.log2_spec. lia.
Qed.

Lemma iter_pos_nat {A} (f : A -> A) p x :
  SpecFloat.iter_pos f p x = Nat.iter (Pos.to_nat p) f x.
Proof.
  revert x. induction p as [p IH|p IH|]; intros x; simpl SpecFloat.iter_pos.
  - rewrite !IH, Pos2Nat.inj_xI.
    replace (S (2 * Pos.to_nat p))%nat with (Pos.to_nat p + (Pos.to_nat p + 1))%nat by lia.
    rewrite !Nat.iter_add. reflexivity.
  - rewrite !IH, Pos2Nat.inj_xO.
    replace (2 * Pos.to_nat p)%nat with (Pos.to_nat p + Pos.to_nat p)%nat by lia.
    rewrite Nat.iter_add. reflexivity.
  - reflexivity.
Qed.

Lemma shr_1_spec q r s :
  0 <= q ->
  shr_1 {| shr_m := q; shr_r := r; shr_s := s |} =
  {| shr_m := q / 2; shr_r := Z.odd q; shr_s := r || s |}.
Proof.
  intros Hq. destruct q as [|p|p]; [reflexivity| |lia].
  destruct p as [p|p|]; unfold shr_1.
  - f_equal. change (Z.pos p~1) with (2 * Z.pos p + 1).
    rewrite Z.mul_comm, Z.div_add_l by lia. reflexivity.
  - f_equal. change (Z.pos p~0) with (2 * Z.pos p).
    rewrite Z.mul_comm, Z.div_mul by lia. reflexivity.
  - reflexivity.
Qed.

Lemma loc_of_record_bits m r s :
  loc_of_shr_record {| shr_m := m; shr_r := r; shr_s := s |} =
  match r, s with
  | false, false => loc_Exact
  | false, true => loc_Inexact Lt
  | true, false => loc_Inexact Eq
  | true, true => loc_Inexact Gt
  end.
Proof. reflexivity. Qed.

(** After [n] one-bit shifts the record holds the quotient by [2^n] and the
    place of the remainder with respect to the midpoint. *)
Lemma shr_iter_spec m n :
  0 <= m ->
  let rec := Nat.iter n shr_1 {| shr_m := m; shr_r := false; shr_s := false |} in
  shr_m rec = m / 2 ^ Z.of_nat n /\
  loc_of_shr_record rec = loc_of (m mod 2 ^ Z.of_nat n) (Z.of_nat n).
Proof.
  intros Hm. induction n as [|n IH].
  - simpl. rewrite Z.div_1_r, Z.mod_1_r. split; reflexivity.
  - cbn zeta in *. rewrite Nat.iter_succ.
    destruct (Nat.iter n shr_1 _) as [q r s] eqn:E. simpl in IH.
    destruct IH as [Hq Hl].
    assert (0 < 2 ^ Z.of_nat n) as Hp by (apply Z.pow_pos_nonneg; lia).
    assert (0 <= q) as Hq0 by (subst q; apply Z.div_pos; lia).
    rewrite shr_1_spec by assumption. simpl shr_m.
    rewrite Nat2Z.inj_succ, Z.pow_succ_r by lia.
    set (P := 2 ^ Z.of_nat n) in *.
    assert (m = P * q + m mod P) as Hdiv by (subst q; apply Z.div_mod; lia).
    assert (0 <= m mod P < P) as Hr by (apply Z.mod_pos_bound; lia).
    assert (q = 2 * (q / 2) + q mod 2) as Hq2 by (apply Z.div_mod; lia).
    assert (0 <= q mod 2 < 2) as Hb by (apply Z.mod_pos_bound; lia).
    assert (m / (2 * P) = q / 2) as Hquot.
    { subst q. rewrite (Z.mul_comm 2 P), Z.div_div by lia. reflexivity. }
    assert (m mod (2 * P) = P * (q mod 2) + m mod P) as Hrem.
    { symmetry. apply Z.mod_unique_pos with (q := q / 2); nia. }
    split; [symmetry; exact Hquot|].
    rewrite loc_of_record_bits, Hrem.
    assert (r || s = negb (m mod P =? 0)) as Hs.
    { unfold loc_of in Hl. destruct (m mod P =? 0); destruct r, s; simpl in *;
        congruence. }
    rewrite Hs. pose proof (Zmod_odd q) as Hodd.
    unfold loc_of. rewrite Z.pow_succ_r by lia. fold P. destruct (Z.odd q).
    + rewrite Hodd. destruct (Z.eqb_spec (m mod P) 0) as [E0|E0]; simpl.
      * rewrite E0. destruct (Z.eqb_spec (P * 1 + 0) 0); [lia|].
        replace (2 * (P * 1 + 0)) with (2 * P) by lia. rewrite Z.compare_refl.
        reflexivity.
      * destruct (Z.eqb_spec (P * 1 + m mod P) 0); [lia|].
        assert (2 * (P * 1 + m mod P) > 2 * P) as G by lia.
        rewrite G. reflexivity.
    + rewrite Hodd. destruct (Z.eqb_spec (m mod P) 0) as [E0|E0]; simpl.
      * rewrite E0. destruct (Z.eqb_spec (P * 0 + 0) 0); [|lia]. reflexivity.
      * destruct (Z.eqb_spec (P * 0 + m mod P) 0); [lia|].
        assert (2 * (P * 0 + m mod P) < 2 * P) as G by lia.
        rewrite G. reflexivity.
Qed.

Lemma fexp64_eq t : fexp64 t = Z.max (t - 53) (-1074).
Proof. reflexivity. Qed.

Lemma Zdigits2_nonneg m : 0 <= Zdigits2 m.
Proof. destruct m; simpl; lia. Qed.

Lemma Zdigits2_bounds m :
  0 < m -> 2 ^ (Zdigits2 m - 1) <= m < 2 ^ Zdigits2 m.
Proof. destruct m as [|p|p]; try lia. intros _. apply digits2_bounds. Qed.

Lemma Zdigits2_le m d : 0 <= d -> 0 <= m < 2 ^ d -> Zdigits2 m <= d.
Proof.
  intros Hd [H0 Hm]. destruct (Z.eq_dec m 0) as [->|Hn]; [simpl; lia|].
  pose proof (Zdigits2_bounds m ltac:(lia)) as [Hlo _].
  destruct (Z_le_gt_dec (Zdigits2 m) d) as [|Hgt]; [assumption|exfalso].
  assert (2 ^ d <= 2 ^ (Zdigits2 m - 1)) by (apply Z.pow_le_mono_r; lia).
  lia.
Qed.

Lemma Zdigits2_ge m d : 0 <= d -> 2 ^ d <= m -> d < Zdigits2 m.
Proof.
  intros Hd Hm. assert (0 < 2 ^ d) by (apply Z.pow_pos_nonneg; lia).
  pose proof (Zdigits2_bounds m ltac:(lia)) as [_ Hhi].
  destruct (Z_lt_le_dec d (Zdigits2 m)) as [|Hle]; [assumption|exfalso].
  assert (2 ^ Zdigits2 m <= 2 ^ d)
    by (apply Z.pow_le_mono_r; [lia | assumption]).
  lia.
Qed.

Lemma round_shr m n :
  0 < n ->
  round_nearest_even (m / 2 ^ n) (loc_of (m mod 2 ^ n) n) = rne m n.
Proof.
  intros Hn. unfold rne, loc_of.
  destruct (Z.leb_spec n 0); [lia|].
  destruct (Z.eqb_spec (m mod 2 ^ n) 0) as [E|E]; simpl.
  - rewrite E. assert (0 < 2 ^ n) by (apply Z.pow_pos_nonneg; lia).
    assert (2 * 0 < 2 ^ n) as L by lia. rewrite L. reflexivity.
  - destruct (2 * (m mod 2 ^ n) ?= 2 ^ n); reflexivity.
Qed.

Lemma shr_fexp_stage1 m e :
  0 <= m ->
  let kk := Z.max (fexp64 (Zdigits2 m + e)) e in
  exists rec,
    shr_fexp 53 1024 m e loc_Exact = (rec, kk) /\
    round_nearest_even (shr_m rec) (loc_of_shr_record rec) = rne m (kk - e).
Proof.
  intros Hm kk. unfold shr_fexp, shr. fold fexp64.
  set (k := fexp64 (Zdigits2 m + e)) in *.
  destruct (k - e) as [|p|p] eqn:En.
  - exists {| shr_m := m; shr_r := false; shr_s := false |}.
    assert (kk = e) as -> by lia. split; [reflexivity|].
    unfold rne. replace (e - e) with 0 by lia. simpl. lia.
  - exists (SpecFloat.iter_pos shr_1 p {| shr_m := m; shr_r := false; shr_s := false |}).
    assert (kk = k) as -> by lia. split.
    + simpl. f_equal. lia.
    + rewrite iter_pos_nat.
      pose proof (shr_iter_spec m (Pos.to_nat p) Hm) as [Hq Hl].
      rewrite positive_nat_Z in Hq, Hl. rewrite Hq, Hl, En.
      apply round_shr. lia.
  - exists {| shr_m := m; shr_r := false; shr_s := false |}.
    assert (kk = e) as -> by lia. split; [reflexivity|].
    unfold rne. replace (e - e) with 0 by lia. simpl. lia.
Qed.

Lemma shr_fexp_stage2 a kk :
  0 <= a ->
  fexp64 (Zdigits2 a + kk) <= kk \/ (a = 2 ^ 53 /\ -1074 <= kk) ->
  exists a2 e2,
    shr_fexp 53 1024 a kk loc_Exact =
      ({| shr_m := a2; shr_r := false; shr_s := false |}, e2) /\
    ((a2 = a /\ e2 = kk /\ a <> 2 ^ 53) \/
     (a = 2 ^ 53 /\ a2 = 2 ^ 52 /\ e2 = kk + 1)).
Proof.
  intros Ha [Hk|[-> Hkk]].
  - exists a, kk. unfold shr_fexp, shr. fold fexp64.
    assert (a <> 2 ^ 53) as Hne.
    { intros ->. rewrite fexp64_eq in Hk.
      change (Zdigits2 (2 ^ 53)) with 54 in Hk. lia. }
    destruct (fexp64 (Zdigits2 a + kk) - kk) as [|p|p] eqn:En; try lia;
      (split; [reflexivity | left; auto]).
  - exists (2 ^ 52), (kk + 1). unfold shr_fexp, shr. fold fexp64.
    rewrite fexp64_eq. change (Zdigits2 (2 ^ 53)) with 54.
    replace (Z.max (54 + kk - 53) (-1074) - kk) with 1 by lia.
    split; [reflexivity | right; auto].
Qed.

(** *** Rounding to nearest, ties to even *)

Lemma pow2_pos n : 0 <= n -> 0 < 2 ^ n.
Proof. intros. apply Z.pow_pos_nonneg; lia. Qed.

Lemma rne_exact_shift m n : n <= 0 -> rne m n = m * 2 ^ (- n).
Proof. intros Hn. unfold rne. destruct (Z.leb_spec n 0); [reflexivity|lia]. Qed.

Lemma rne_cases m n :
  0 < n ->
  let q := m / 2 ^ n in
  let r := m mod 2 ^ n in
  m = 2 ^ n * q + r /\ 0 <= r < 2 ^ n /\
  ((rne m n = q /\ 2 * r <= 2 ^ n) \/ (rne m n = q + 1 /\ 2 ^ n <= 2 * r)).
Proof.
  intros Hn q r. pose proof (pow2_pos n ltac:(lia)) as HP.
  split; [apply Z.div_mod; lia|]. split; [apply Z.mod_pos_bound; lia|].
  unfold rne. destruct (Z.leb_spec n 0); [lia|]. fold q r.
  destruct (Z.compare_spec (2 * r) (2 ^ n)); [destruct (Z.even q)| |]; lia.
Qed.

Lemma rne_near m n :
  0 < n -> 2 * Z.abs (rne m n * 2 ^ n - m) <= 2 ^ n.
Proof.
  intros Hn. pose proof (rne_cases m n Hn) as (Hm & Hr & Hc). cbn zeta in *.
  destruct Hc as [[-> ?]|[-> ?]]; nia.
Qed.

Lemma rne_multiple c n : 0 <= n -> rne (c * 2 ^ n) n = c.
Proof.
  intros Hn. destruct (Z.eq_dec n 0) as [->|Hn0].
  - rewrite rne_exact_shift by lia. simpl. lia.
  - pose proof (pow2_pos n ltac:(lia)) as HP.
    pose proof (rne_cases (c * 2 ^ n) n ltac:(lia)) as (Hm & Hr & Hc).
    cbn zeta in *. rewrite Z.mod_mul in * by lia. rewrite Z.div_mul in * by lia.
    destruct Hc as [[-> ?]|[? ?]]; lia.
Qed.

Lemma rne_mono m m' n : m <= m' -> rne m n <= rne m' n.
Proof.
  intros Hle. destruct (Z_le_gt_dec n 0) as [Hn|Hn].
  - rewrite !rne_exact_shift by assumption.
    apply Z.mul_le_mono_nonneg_r; [|assumption].
    apply Z.pow_nonneg; lia.
  - pose proof (pow2_pos n ltac:(lia)) as HP.
    pose proof (rne_cases m n ltac:(lia)) as (Hm & Hr & Hc).
    pose proof (rne_cases m' n ltac:(lia)) as (Hm' & Hr' & Hc').
    cbn zeta in *.
    assert (m / 2 ^ n <= m' / 2 ^ n) as Hq by (apply Z.div_le_mono; lia).
    destruct (Z.eq_dec (m / 2 ^ n) (m' / 2 ^ n)) as [E|E].
    + unfold rne. destruct (Z.leb_spec n 0); [lia|]. rewrite <- E.
      destruct (Z.compare_spec (2 * (m mod 2 ^ n)) (2 ^ n));
        destruct (Z.compare_spec (2 * (m' mod 2 ^ n)) (2 ^ n));
        destruct (Z.even (m / 2 ^ n)); nia.
    + destruct Hc as [[-> ?]|[-> ?]]; destruct Hc' as [[-> ?]|[-> ?]]; lia.
Qed.

Lemma rne_scale m n j : 0 <= j -> rne (m * 2 ^ j) (n + j) = rne m n.
Proof.
  intros Hj. pose proof (pow2_pos j Hj) as HJ.
  destruct (Z_le_gt_dec n 0) as [Hn|Hn].
  - rewrite (rne_exact_shift m n) by assumption.
    destruct (Z_le_gt_dec (n + j) 0) as [Hnj|Hnj].
    + rewrite rne_exact_shift by assumption.
      replace (- n) with (j + - (n + j)) by lia.
      rewrite Z.pow_add_r by lia. lia.
    + replace (m * 2 ^ j) with (m * 2 ^ (- n) * 2 ^ (n + j)).
      * apply rne_multiple. lia.
      * rewrite <- Z.mul_assoc, <- Z.pow_add_r by lia. do 2 f_equal. lia.
  - pose proof (pow2_pos n ltac:(lia)) as HP.
    assert ((m * 2 ^ j) / 2 ^ (n + j) = m / 2 ^ n) as Hdiv.
    { rewrite Z.pow_add_r by lia. apply Z.div_mul_cancel_r; lia. }
    assert ((m * 2 ^ j) mod 2 ^ (n + j) = (m mod 2 ^ n) * 2 ^ j) as Hmod.
    { rewrite Z.pow_add_r by lia. apply Zmult_mod_distr_r. }
    unfold rne. destruct (Z.leb_spec n 0); [lia|].
    destruct (Z.leb_spec (n + j) 0); [lia|].
    rewrite Hdiv, Hmod.
    replace (2 * (m mod 2 ^ n * 2 ^ j)) with (2 * (m mod 2 ^ n) * 2 ^ j) by lia.
    rewrite (Z.pow_add_r 2 n j) by lia.
    rewrite <- Zmult_compare_compat_r by lia. reflexivity.
Qed.

Lemma rne_le_multiple m c n : 0 <= n -> m <= c * 2 ^ n -> rne m n <= c.
Proof.
  intros Hn Hm. rewrite <- (rne_multiple c n Hn). apply rne_mono. assumption.
Qed.

Lemma rne_ge_multiple m c n : 0 <= n -> c * 2 ^ n <= m -> c <= rne m n.
Proof.
  intros Hn Hm. rewrite <- (rne_multiple c n Hn). apply rne_mono. assumption.
Qed.

Lemma rne_nonneg m n : 0 <= m -> 0 <= rne m n.
Proof.
  intros Hm. destruct (Z_le_gt_dec n 0) as [Hn|Hn].
  - rewrite rne_exact_shift by assumption.
    apply Z.mul_nonneg_nonneg; [assumption | apply Z.pow_nonneg; lia].
  - apply (rne_ge_multiple m 0 n); lia.
Qed.

(** *** The rounding step of the float operations *)

Lemma round_exp_ge m e : -1074 <= round_exp m e /\ e <= round_exp m e.
Proof. unfold round_exp. rewrite fexp64_eq. lia. Qed.

Lemma rne_round_le m e :
  0 < m ->
  let k := round_exp m e in
  0 <= rne m (k - e) <= 2 ^ 53 /\
  (fexp64 (Zdigits2 m + e) < e -> rne m (k - e) = m /\ m < 2 ^ 52).
Proof.
  intros Hm k. pose proof (Zdigits2_bounds m Hm) as [Hlo Hhi].
  pose proof (Zdigits2_nonneg m) as Hd.
  assert (0 < Zdigits2 m) as Hd1.
  { destruct m; simpl in *; lia. }
  subst k. unfold round_exp. rewrite fexp64_eq.
  destruct (Z_lt_le_dec (Z.max (Zdigits2 m + e - 53) (-1074)) e) as [Hlt|Hge].
  - rewrite Z.max_r by lia. replace (e - e) with 0 by lia.
    rewrite rne_exact_shift by lia. simpl. rewrite Z.mul_1_r.
    assert (m < 2 ^ 52) as Hm52.
    { apply Z.lt_le_trans with (1 := Hhi). apply Z.pow_le_mono_r; lia. }
    split; [lia|]. intros _. split; [reflexivity | assumption].
  - rewrite Z.max_l by lia. set (k := Z.max (Zdigits2 m + e - 53) (-1074)) in *.
    split; [|lia]. split; [apply rne_nonneg; lia|].
    destruct (Z_le_gt_dec 0 (Zdigits2 m + e - k)) as [Ht|Ht].
    + apply Z.le_trans with (2 ^ (Zdigits2 m + e - k)).
      * apply rne_le_multiple; [lia|]. rewrite <- Z.pow_add_r by lia.
        replace (Zdigits2 m + e - k + (k - e)) with (Zdigits2 m) by lia. lia.
      * apply Z.pow_le_mono_r; lia.
    + apply Z.le_trans with 1; [|lia].
      apply rne_le_multiple; [lia|]. rewrite Z.mul_1_l.
      apply Z.lt_le_incl, Z.lt_le_trans with (1 := Hhi).
      apply Z.pow_le_mono_r; lia.
Qed.

Lemma round_aux_spec s (m : positive) e :
  rounds_to (binary_round_aux 53 1024 s (Z.pos m) e loc_Exact) s
    (rne (Z.pos m) (round_exp (Z.pos m) e - e)) (round_exp (Z.pos m) e).
Proof.
  pose proof (rne_round_le (Z.pos m) e ltac:(lia)) as [Ha Hsmall].
  pose proof (round_exp_ge (Z.pos m) e) as [Hk He].
  cbn zeta in *.
  destruct (shr_fexp_stage1 (Z.pos m) e ltac:(lia)) as (rec & Hs1 & Hr1).
  cbn zeta in *. fold (round_exp (Z.pos m) e) in *.
  set (k := round_exp (Z.pos m) e) in *.
  set (a := rne (Z.pos m) (k - e)) in *.
  assert (fexp64 (Zdigits2 a + k) <= k \/ a = 2 ^ 53 /\ -1074 <= k) as Hcond.
  { destruct (Z_lt_le_dec (fexp64 (Zdigits2 (Z.pos m) + e)) e) as [Hlt|Hge].
    - left. destruct (Hsmall Hlt) as [Hm _]. rewrite Hm.
      subst k. unfold round_exp. rewrite Z.max_r by lia. lia.
    - destruct (Z.eq_dec a (2 ^ 53)) as [E|E]; [right; split; [exact E|lia]|left].
      pose proof (Zdigits2_le a 53 ltac:(lia) ltac:(lia)).
      rewrite fexp64_eq. lia. }
  destruct (shr_fexp_stage2 a k ltac:(lia) Hcond) as (a2 & e2 & Hs2 & Hrep).
  unfold binary_round_aux. rewrite Hs1, Hr1. fold a. rewrite Hs2. simpl shr_m.
  destruct Hrep as [(-> & -> & Hne)|(Ea & -> & ->)].
  - destruct a as [|p|p] eqn:Ea; [left; auto| |lia].
    right. exists p, k. split; [reflexivity|]. left. repeat split. lia.
  - right. exists (4503599627370496%positive), (k + 1).
    split; [reflexivity|]. right. auto.
Qed.

(** *** Truncation *)

Lemma ztrunc_as_div a k c :
  c <= k -> c <= 0 -> ztrunc a k = (a * 2 ^ (k - c)) / 2 ^ (- c).
Proof.
  intros Hk Hc. pose proof (pow2_pos (- c) ltac:(lia)) as HP.
  unfold ztrunc. destruct (Z.leb_spec 0 k).
  - replace (k - c) with (k + - c) by lia. rewrite Z.pow_add_r by lia.
    rewrite Z.mul_assoc, Z.div_mul by lia. reflexivity.
  - replace (- c) with (- k + (k - c)) by lia. rewrite Z.pow_add_r by lia.
    pose proof (pow2_pos (- k) ltac:(lia)). pose proof (pow2_pos (k - c) ltac:(lia)).
    rewrite Z.div_mul_cancel_r by lia. reflexivity.
Qed.

Lemma ztrunc_mono a k a' k' :
  a * 2 ^ (k - Z.min k k') <= a' * 2 ^ (k' - Z.min k k') ->
  ztrunc a k <= ztrunc a' k'.
Proof.
  intros Hle. set (c := Z.min (Z.min k k') 0).
  rewrite (ztrunc_as_div a k c), (ztrunc_as_div a' k' c) by lia.
  apply Z.div_le_mono; [apply pow2_pos; lia|].
  replace (k - c) with (k - Z.min k k' + (Z.min k k' - c)) by lia.
  replace (k' - c) with (k' - Z.min k k' + (Z.min k k' - c)) by lia.
  rewrite !Z.pow_add_r, !Z.mul_assoc by lia.
  apply Z.mul_le_mono_nonneg_r; [apply Z.pow_nonneg; lia | assumption].
Qed.

Lemma ztrunc_nonneg a k : 0 <= a -> 0 <= ztrunc a k.
Proof.
  intros Ha. unfold ztrunc. destruct (Z.leb_spec 0 k).
  - apply Z.mul_nonneg_nonneg; [assumption | apply Z.pow_nonneg; lia].
  - apply Z.div_pos; [assumption | apply pow2_pos; lia].
Qed.

(** [ztrunc a k] is the largest integer below [a * 2^k]. *)
Lemma ztrunc_le a k c :
  c <= k -> c <= 0 -> ztrunc a k * 2 ^ (- c) <= a * 2 ^ (k - c).
Proof.
  intros Hk Hc. rewrite (ztrunc_as_div a k c) by assumption.
  rewrite Z.mul_comm. apply Z.mul_div_le. apply pow2_pos. lia.
Qed.

(** *** The value a float operation returns *)

Lemma round_exp_fmt M E : round_exp M E = Z.max (fmt_exp M E) E.
Proof. reflexivity. Qed.

Lemma ztrunc_round_exp M E :
  ztrunc (rne M (round_exp M E - E)) (round_exp M E) = fwidth M E.
Proof.
  unfold fwidth. rewrite round_exp_fmt.
  destruct (Z_le_gt_dec E (fmt_exp M E)) as [Hle|Hgt].
  - rewrite Z.max_l by lia. reflexivity.
  - rewrite Z.max_r by lia. replace (E - E) with 0 by lia.
    rewrite !rne_exact_shift by lia. simpl. rewrite Z.mul_1_r.
    pose proof (round_exp_ge M E) as [Hk _]. rewrite round_exp_fmt in Hk.
    set (k := fmt_exp M E) in *.
    set (c := Z.min k 0).
    rewrite (ztrunc_as_div M E c), (ztrunc_as_div (M * 2 ^ (- (k - E))) k c) by lia.
    f_equal. rewrite <- Z.mul_assoc, <- Z.pow_add_r by lia. do 2 f_equal. lia.
Qed.

Lemma rounds_to_int r a k :
  rounds_to r false a k -> k <= 970 -> Float.to_int r = Ok (ztrunc a k).
Proof.
  intros [[-> ->]|(p & e2 & -> & Hrep)] Hk.
  - simpl. unfold ztrunc. destruct (0 <=? k); reflexivity.
  - destruct (Z.leb_spec e2 971) as [_|Hof]; [|lia].
    unfold Float.to_int, ztrunc.
    destruct Hrep as [(-> & -> & _)|(-> & -> & ->)]; [reflexivity|].
    destruct (Z.leb_spec 0 (k + 1)), (Z.leb_spec 0 k); f_equal.
    + rewrite Z.pow_add_r by lia. lia.
    + assert (k = -1) as -> by lia. reflexivity.
    + lia.
    + replace (- k) with (1 + - (k + 1)) by lia. rewrite Z.pow_add_r by lia.
      pose proof (pow2_pos (- (k + 1)) ltac:(lia)).
      change (2 ^ 53) with (2 ^ 1 * 2 ^ 52).
      rewrite Z.div_mul_cancel_l; lia.
Qed.

(** *** Magnitude of the rounded mantissa *)

Lemma fmt_exp_eq M E : fmt_exp M E = Z.max (Zdigits2 M + E - 53) (-1074).
Proof. reflexivity. Qed.

Lemma fmt_man_upper M E :
  0 < M ->
  rne M (fmt_exp M E - E) <= 2 ^ Z.max 0 (Zdigits2 M + E - fmt_exp M E).
Proof.
  intros HM. pose proof (Zdigits2_bounds M HM) as [Hlo Hhi].
  assert (0 < Zdigits2 M) as Hd by (destruct M; simpl in *; lia).
  set (k := fmt_exp M E). set (t := Zdigits2 M + E).
  destruct (Z_le_gt_dec E k) as [Hle|Hgt].
  - apply rne_le_multiple; [lia|]. rewrite <- Z.pow_add_r by lia.
    apply Z.lt_le_incl, Z.lt_le_trans with (1 := Hhi).
    apply Z.pow_le_mono_r; lia.
  - rewrite rne_exact_shift by lia.
    apply Z.lt_le_incl.
    apply Z.lt_le_trans with (2 ^ Zdigits2 M * 2 ^ (- (k - E))).
    + apply Z.mul_lt_mono_pos_r; [apply pow2_pos; lia | assumption].
    + rewrite <- Z.pow_add_r by lia. apply Z.pow_le_mono_r; lia.
Qed.

Lemma fmt_man_lower M E :
  0 < M -> -1074 <= Zdigits2 M + E - 53 ->
  2 ^ 52 <= rne M (fmt_exp M E - E).
Proof.
  intros HM Hn. pose proof (Zdigits2_bounds M HM) as [Hlo Hhi].
  assert (0 < Zdigits2 M) as Hd by (destruct M; simpl in *; lia).
  assert (fmt_exp M E = Zdigits2 M + E - 53) as Hk by (rewrite fmt_exp_eq; lia).
  rewrite Hk. destruct (Z_le_gt_dec E (Zdigits2 M + E - 53)) as [Hle|Hgt].
  - apply rne_ge_multiple; [lia|]. rewrite <- Z.pow_add_r by lia.
    replace (52 + (Zdigits2 M + E - 53 - E)) with (Zdigits2 M - 1) by lia.
    assumption.
  - rewrite rne_exact_shift by lia.
    apply Z.le_trans with (2 ^ (Zdigits2 M - 1) * 2 ^ (- (Zdigits2 M + E - 53 - E))).
    + rewrite <- Z.pow_add_r by lia. apply Z.pow_le_mono_r; lia.
    + apply Z.mul_le_mono_nonneg_r; [apply Z.pow_nonneg; lia | assumption].
Qed.

Lemma le_val_digits M E M' E' :
  0 < M -> 0 < M' -> le_val M E M' E' ->
  Zdigits2 M + E <= Zdigits2 M' + E'.
Proof.
  intros HM HM' Hle. unfold le_val in Hle.
  pose proof (Zdigits2_bounds M HM) as [Hlo _].
  pose proof (Zdigits2_bounds M' HM') as [_ Hhi'].
  assert (0 < Zdigits2 M) as Hd by (destruct M; simpl in *; lia).
  assert (0 < Zdigits2 M') as Hd' by (destruct M'; simpl in *; lia).
  set (c := Z.min E E') in *.
  destruct (Z_le_gt_dec (Zdigits2 M + E) (Zdigits2 M' + E')) as [|Hgt];
    [assumption|exfalso].
  assert (2 ^ (Zdigits2 M - 1) * 2 ^ (E - c) <= M * 2 ^ (E - c)) as H1.
  { apply Z.mul_le_mono_nonneg_r; [apply Z.pow_nonneg; lia | assumption]. }
  assert (M' * 2 ^ (E' - c) < 2 ^ Zdigits2 M' * 2 ^ (E' - c)) as H2.
  { apply Z.mul_lt_mono_pos_r; [apply pow2_pos; lia | assumption]. }
  rewrite <- Z.pow_add_r in H1, H2 by lia.
  assert (2 ^ (Zdigits2 M' + (E' - c)) <= 2 ^ (Zdigits2 M - 1 + (E - c))) as H3
    by (apply Z.pow_le_mono_r; lia).
  lia.
Qed.

(** The integer part of the nearest float grows with the value. *)
Lemma fwidth_mono M E M' E' :
  0 < M -> 0 < M' -> le_val M E M' E' -> fwidth M E <= fwidth M' E'.
Proof.
  intros HM HM' Hle. pose proof (le_val_digits M E M' E' HM HM' Hle) as Ht.
  unfold fwidth.
  pose proof (fmt_exp_eq M E) as Hk. pose proof (fmt_exp_eq M' E') as Hk'.
  set (k := fmt_exp M E) in *. set (k' := fmt_exp M' E') in *.
  assert (k <= k') as Hkk by lia.
  destruct (Z.eq_dec k k') as [<-|Hne].
  - apply ztrunc_mono. rewrite Z.min_id, Z.sub_diag. simpl. rewrite !Z.mul_1_r.
    set (c := Z.min E E') in *. unfold le_val in Hle. fold c in Hle.
    rewrite <- (rne_scale M (k - E) (E - c)) by lia.
    rewrite <- (rne_scale M' (k - E') (E' - c)) by lia.
    replace (k - E + (E - c)) with (k - c) by lia.
    replace (k - E' + (E' - c)) with (k - c) by lia.
    apply rne_mono. assumption.
  - apply ztrunc_mono. rewrite Z.min_l by lia. rewrite Z.sub_diag. simpl.
    rewrite Z.mul_1_r.
    pose proof (fmt_man_upper M E HM) as Hup. fold k in Hup.
    pose proof (fmt_man_lower M' E' HM' ltac:(lia)) as Hlo. fold k' in Hlo.
    apply Z.le_trans with (1 := Hup).
    apply Z.le_trans with (2 ^ 52 * 2 ^ (k' - k)).
    + rewrite <- Z.pow_add_r by lia. apply Z.pow_le_mono_r; lia.
    + apply Z.mul_le_mono_nonneg_r; [apply Z.pow_nonneg; lia | assumption].
Qed.

Lemma fwidth_nonneg M E : 0 <= M -> 0 <= fwidth M E.
Proof. intros. apply ztrunc_nonneg, rne_nonneg. assumption. Qed.

(** The integer part of the nearest float is within a relative error of
    [2^-53] of the value. *)
Lemma fwidth_upper M E :
  0 < M -> E <= 0 ->
  fwidth M E * 2 ^ (- E) * 2 ^ 53 <= M * (2 ^ 53 + 1).
Proof.
  intros HM HE. pose proof (Zdigits2_bounds M HM) as [Hlo Hhi].
  assert (0 < Zdigits2 M) as Hd by (destruct M; simpl in *; lia).
  pose proof (fwidth_nonneg M E ltac:(lia)) as Hw0.
  pose proof (pow2_pos (- E) ltac:(lia)) as HPE.
  unfold fwidth in *. pose proof (fmt_exp_eq M E) as Hk.
  set (k := fmt_exp M E) in *. set (a := rne M (k - E)) in *.
  destruct (Z_le_gt_dec k E) as [Hle|Hgt].
  - (* no bit is lost *)
    pose proof (ztrunc_le a k k ltac:(lia) ltac:(lia)) as Hz.
    rewrite Z.sub_diag in Hz. simpl in Hz. rewrite Z.mul_1_r in Hz.
    subst a. rewrite rne_exact_shift in Hz |- * by lia.
    replace (- (k - E)) with (E - k) in * by lia.
    replace (- k) with (- E + (E - k)) in Hz by lia.
    rewrite Z.pow_add_r in Hz by lia.
    pose proof (pow2_pos (E - k) ltac:(lia)) as HP. nia.
  - pose proof (ztrunc_le a k E ltac:(lia) HE) as Hz.
    destruct (Z_le_gt_dec (-1074) (Zdigits2 M + E - 53)) as [Hn|Hs].
    + (* normal range *)
      pose proof (rne_near M (k - E) ltac:(lia)) as Hnear. fold a in Hnear.
      assert (2 ^ 52 * 2 ^ (k - E) <= M) as Hbig.
      { rewrite <- Z.pow_add_r by lia.
        replace (52 + (k - E)) with (Zdigits2 M - 1) by lia. assumption. }
      pose proof (pow2_pos (k - E) ltac:(lia)) as HP. lia.
    + (* below the normal range the integer part is zero *)
      pose proof (fmt_man_upper M E HM) as Hup. fold k a in Hup.
      assert (ztrunc a k = 0) as ->; [|lia].
      unfold ztrunc. destruct (Z.leb_spec 0 k); [lia|].
      apply Z.div_small. split; [apply rne_nonneg; lia|].
      apply Z.le_lt_trans with (1 := Hup). apply Z.pow_lt_mono_r; lia.
Qed.

(** *** The operations on finite floats *)

Lemma pos_iter_xO m d : Z.pos (Pos.iter xO m d) = Z.pos m * 2 ^ Z.pos d.
Proof.
  induction d as [|d IH] using Pos.peano_ind.
  - simpl. lia.
  - rewrite Pos.iter_succ, Pos2Z.inj_xO, IH, Pos2Z.inj_succ, Z.pow_succ_r by lia.
    lia.
Qed.

Lemma shl_align_spec m e k :
  exists mz,
    shl_align m e k = (mz, Z.min k e) /\ Z.pos mz = Z.pos m * 2 ^ (e - Z.min k e).
Proof.
  unfold shl_align. destruct (k - e) as [|d|d] eqn:Ed.
  - exists m. rewrite Z.min_r by lia. rewrite Z.sub_diag. split; [reflexivity|lia].
  - exists m. rewrite Z.min_r by lia. rewrite Z.sub_diag. split; [reflexivity|lia].
  - exists (Pos.iter xO m d). rewrite Z.min_l by lia. split; [reflexivity|].
    rewrite pos_iter_xO. do 2 f_equal. lia.
Qed.

Lemma Zdigits2_mul_pow2 m j :
  0 < m -> 0 <= j -> Zdigits2 (m * 2 ^ j) = Zdigits2 m + j.
Proof.
  intros Hm Hj. pose proof (pow2_pos j Hj) as HP.
  assert (0 < m * 2 ^ j) as Hmj by lia.
  destruct m as [|p|p]; try lia. destruct (Z.pos p * 2 ^ j) as [|q|q] eqn:E; try lia.
  simpl Zdigits2. rewrite !digits2_pos_log2, <- E, Z.log2_mul_pow2 by lia. lia.
Qed.

Lemma mul_rounds s1 m1 e1 s2 m2 e2 :
  let M := Z.pos m1 * Z.pos m2 in
  let E := e1 + e2 in
  rounds_to (Float.mul (S754_finite s1 m1 e1) (S754_finite s2 m2 e2)) (xorb s1 s2)
    (rne M (round_exp M E - E)) (round_exp M E).
Proof. apply round_aux_spec. Qed.

(** [binary_round] first aligns the mantissa, so that its result is in
    canonical form. *)
Lemma binary_round_rounds s (m : positive) e :
  rounds_to (binary_round 53 1024 s m e) s
    (rne (Z.pos m) (fmt_exp (Z.pos m) e - e)) (fmt_exp (Z.pos m) e).
Proof.
  unfold binary_round. fold fexp64.
  change (fexp64 (Z.pos (digits2_pos m) + e)) with (fmt_exp (Z.pos m) e).
  set (k := fmt_exp (Z.pos m) e).
  destruct (shl_align_spec m e k) as (mz & -> & Hmz).
  pose proof (round_aux_spec s mz (Z.min k e)) as Hr.
  assert (round_exp (Z.pos mz) (Z.min k e) = k) as Hk.
  { unfold round_exp. rewrite Hmz, Zdigits2_mul_pow2 by lia.
    replace (Zdigits2 (Z.pos m) + (e - Z.min k e) + Z.min k e)
      with (Zdigits2 (Z.pos m) + e) by lia.
    fold (fmt_exp (Z.pos m) e). fold k. lia. }
  rewrite Hk in Hr.
  replace (rne (Z.pos mz) (k - Z.min k e)) with (rne (Z.pos m) (k - e)) in Hr;
    [exact Hr|].
  rewrite Hmz. rewrite <- (rne_scale (Z.pos m) (k - e) (e - Z.min k e)) by lia.
  f_equal. lia.
Qed.

(** The float of a positive int below [2^53] is exact. *)
Lemma of_int_small N :
  0 < N < 2 ^ 53 ->
  exists mN eN,
    Float.of_int N = Ok (S754_finite false mN eN) /\
    eN <= 0 /\ Z.pos mN = N * 2 ^ (- eN) /\ Z.pos mN < 2 ^ 53.
Proof.
  intros [H0 HN]. destruct N as [|n|n]; try lia.
  unfold Float.of_int, binary_normalize, Float.prec, Float.emax.
  pose proof (binary_round_rounds false n 0) as Hr.
  pose proof (Zdigits2_le (Z.pos n) 53 ltac:(lia) ltac:(lia)) as Hd.
  pose proof (Zdigits2_bounds (Z.pos n) H0) as [Hlo Hhi].
  assert (0 < Zdigits2 (Z.pos n)) as Hd0 by (simpl; lia).
  assert (fmt_exp (Z.pos n) 0 = Zdigits2 (Z.pos n) - 53) as Hk
    by (rewrite fmt_exp_eq; lia).
  rewrite Hk in Hr. remember (Zdigits2 (Z.pos n) - 53) as k eqn:Ek.
  rewrite rne_exact_shift in Hr by lia. rewrite Z.sub_0_r in Hr.
  assert (2 ^ 52 <= Z.pos n * 2 ^ (- k) < 2 ^ 53) as Ha.
  { pose proof (pow2_pos (- k) ltac:(lia)) as HP.
    assert (2 ^ 52 = 2 ^ (Zdigits2 (Z.pos n) - 1) * 2 ^ (- k)) as ->
      by (rewrite <- Z.pow_add_r by lia; f_equal; lia).
    assert (2 ^ 53 = 2 ^ Zdigits2 (Z.pos n) * 2 ^ (- k)) as ->
      by (rewrite <- Z.pow_add_r by lia; f_equal; lia).
    nia. }
  destruct Hr as [[Hz _]|(p & e2 & Hr & Hrep)]; [lia|].
  destruct Hrep as [(Hp & -> & _)|(Hbig & _)]; [|lia].
  exists p, k. rewrite Hr.
  destruct (Z.leb_spec k 971); [|lia].
  repeat split; try lia.
Qed.


(** *** Valid floats and their order *)

Lemma valid_finite s m e :
  Float.valid (S754_finite s m e) = true ->
  Z.pos m < 2 ^ 53 /\ -1074 <= e <= 971 /\ (-1074 < e -> 2 ^ 52 <= Z.pos m).
Proof.
  unfold Float.valid, valid_binary, bounded, canonical_mantissa.
  intros [Hc He]%andb_true_iff. apply Z.eqb_eq in Hc. apply Z.leb_le in He.
  change (fexp Float.prec Float.emax) with fexp64 in Hc. rewrite fexp64_eq in Hc.
  pose proof (digits2_bounds m) as [Hlo Hhi].
  assert (0 < Z.pos (digits2_pos m)) as Hd by lia.
  change (Float.emax - Float.prec) with 971 in He.
  split; [|split; [lia|]].
  - apply Z.lt_le_trans with (1 := Hhi). apply Z.pow_le_mono_r; lia.
  - intros Hn. apply Z.le_trans with (2 := Hlo). apply Z.pow_le_mono_r; lia.
Qed.

Lemma ltb_one_finite p e :
  Float.ltb Float.one (S754_finite false p e) = false ->
  e < -52 \/ (e = -52 /\ Z.pos p <= 2 ^ 52).
Proof.
  unfold Float.ltb, SFltb, Float.one, SFcompare.
  destruct (Z.compare_spec (-52) e) as [<-|Hlt|Hgt].
  - rewrite Pos.compare_cont_spec. unfold Pos.switch_Eq.
    rewrite Pos2Z.inj_compare.
    change (Z.pos 4503599627370496) with (2 ^ 52).
    destruct (Z.compare_spec (2 ^ 52) (Z.pos p)) as [E|Hlt|Hgt].
    + intros _. right. split; [reflexivity|]. lia.
    + intros H; discriminate H.
    + intros _. right. split; [reflexivity|]. lia.
  - intros H; discriminate H.
  - intros _. left. lia.
Qed.

Lemma ltb_finite_le_val m e m' e' :
  Float.valid (S754_finite false m e) = true ->
  Float.valid (S754_finite false m' e') = true ->
  Float.ltb (S754_finite false m e) (S754_finite false m' e') = true ->
  le_val (Z.pos m) e (Z.pos m') e'.
Proof.
  intros (Hm & He & _)%valid_finite (_ & He' & Hn)%valid_finite.
  unfold Float.ltb, SFltb, SFcompare, le_val.
  destruct (Z.compare_spec e e') as [<-|Hlt|Hgt]; try discriminate.
  - rewrite Pos.compare_cont_spec. simpl.
    destruct (Pos.compare_spec m m'); try discriminate. intros _.
    rewrite Z.min_id, Z.sub_diag. lia.
  - intros _. rewrite Z.min_l by lia. rewrite Z.sub_diag, Z.mul_1_r.
    specialize (Hn ltac:(lia)).
    assert (2 ^ 1 <= 2 ^ (e' - e)) by (apply Z.pow_le_mono_r; lia).
    change (2 ^ 53) with (2 ^ 52 * 2 ^ 1) in Hm. nia.
Qed.

(** *** A sum that is not above one *)

Lemma round_le_one r S ez :
  0 < S ->
  rounds_to r false (rne S (fmt_exp S ez - ez)) (fmt_exp S ez) ->
  Float.ltb Float.one r = false ->
  ez <= 0 /\ S * 2 ^ 53 <= (2 ^ 53 + 1) * 2 ^ (- ez).
Proof.
  intros HS Hr Hlt. pose proof (fmt_exp_eq S ez) as Hk.
  pose proof (Zdigits2_bounds S HS) as [Hlo Hhi].
  assert (0 < Zdigits2 S) as Hd by (destruct S; simpl in *; lia).
  set (k := fmt_exp S ez) in *. set (a := rne S (k - ez)) in *.
  assert (ez < k -> 2 * S <= 2 * (a * 2 ^ (k - ez)) + 2 ^ (k - ez)) as Hnear.
  { intros Hn. pose proof (rne_near S (k - ez) ltac:(lia)) as H. fold a in H. lia. }
  assert (k <= ez -> a = S * 2 ^ (ez - k)) as Hexact.
  { intros Hn. subst a. rewrite rne_exact_shift by lia. do 2 f_equal. lia. }
  assert (k <= -52 -> a <= 2 ^ (- k) ->
          ez <= 0 /\ S * 2 ^ 53 <= (2 ^ 53 + 1) * 2 ^ (- ez)) as Hfin.
  { intros Hk52 Ha. destruct (Z_le_gt_dec k ez) as [Hle|Hgt].
    - specialize (Hexact Hle). pose proof (pow2_pos (ez - k) ltac:(lia)) as HP.
      assert (ez <= 0) as Hez.
      { destruct (Z_le_gt_dec ez 0) as [|Hpos]; [assumption|exfalso].
        assert (2 ^ (- k) < 2 ^ (ez - k)) by (apply Z.pow_lt_mono_r; lia). nia. }
      split; [assumption|].
      replace (- k) with (- ez + (ez - k)) in Ha by lia.
      rewrite Z.pow_add_r in Ha by lia.
      pose proof (pow2_pos (- ez) ltac:(lia)). nia.
    - specialize (Hnear ltac:(lia)). split; [lia|].
      pose proof (pow2_pos (k - ez) ltac:(lia)) as HP.
      assert (a * 2 ^ (k - ez) <= 2 ^ (- ez)) as Ha'.
      { replace (- ez) with (- k + (k - ez)) by lia. rewrite Z.pow_add_r by lia.
        apply Z.mul_le_mono_nonneg_r; lia. }
      assert (2 ^ (k - ez) * 2 ^ 52 <= 2 ^ (- ez)) as Hu.
      { rewrite <- Z.pow_add_r by lia. apply Z.pow_le_mono_r; lia. }
      lia. }
  destruct Hr as [[Ha Hr]|(p & e2 & -> & Hrep)].
  - (* the sum rounds to zero: it is below the smallest float *)
    destruct (Z_le_gt_dec (-1074) (Zdigits2 S + ez - 53)) as [Hn|Hs].
    + pose proof (fmt_man_lower S ez HS Hn) as H52. fold k a in H52. lia.
    + apply Hfin; [lia|]. rewrite Ha. apply Z.pow_nonneg. lia.
  - destruct (Z.leb_spec e2 971); [|discriminate Hlt].
    apply ltb_one_finite in Hlt.
    destruct Hrep as [(Hp & -> & Ha)|(Ha & Hp & ->)].
    + apply Hfin; [lia|]. rewrite <- Hp.
      destruct Hlt as [Hlt|[-> Hlt]]; [|exact Hlt].
      apply Z.le_trans with (2 ^ 53); [lia|]. apply Z.pow_le_mono_r; lia.
    + apply Hfin; [lia|]. rewrite Ha. apply Z.pow_le_mono_r; lia.
Qed.

Lemma add_le_one m0 e0 m1 e1 :
  Float.ltb Float.one
    (Float.add (S754_finite false m0 e0) (S754_finite false m1 e1)) = false ->
  let ez := Z.min e0 e1 in
  ez <= 0 /\
  (Z.pos m0 * 2 ^ (e0 - ez) + Z.pos m1 * 2 ^ (e1 - ez)) * 2 ^ 53
    <= (2 ^ 53 + 1) * 2 ^ (- ez).
Proof.
  intros Hlt ez. unfold Float.add, SFadd in Hlt. fold ez in Hlt.
  destruct (shl_align_spec m0 e0 ez) as (z0 & Ez0 & Hz0).
  destruct (shl_align_spec m1 e1 ez) as (z1 & Ez1 & Hz1).
  rewrite Ez0, Ez1 in Hlt. simpl fst in Hlt. simpl cond_Zopp in Hlt.
  rewrite (Z.min_l ez e0) in Hz0 by lia. rewrite (Z.min_l ez e1) in Hz1 by lia.
  rewrite <- Hz0, <- Hz1.
  change (Z.pos z0 + Z.pos z1) with (Z.pos (z0 + z1)) in *.
  apply (round_le_one (binary_round 53 1024 false (z0 + z1) ez)
           (Z.pos (z0 + z1)) ez ltac:(lia)); [|exact Hlt].
  apply binary_round_rounds.
Qed.


(** *** The width of a float size *)

Lemma Zdigits2_mul_le a b :
  0 < a -> 0 < b -> Zdigits2 (a * b) <= Zdigits2 a + Zdigits2 b.
Proof.
  intros Ha Hb. pose proof (Zdigits2_bounds a Ha) as [_ Ha2].
  pose proof (Zdigits2_bounds b Hb) as [_ Hb2].
  pose proof (Zdigits2_nonneg a). pose proof (Zdigits2_nonneg b).
  apply Zdigits2_le; [lia|]. rewrite Z.pow_add_r by lia. nia.
Qed.

Lemma mul_width m e mN eN :
  Z.pos m < 2 ^ 53 -> Z.pos mN < 2 ^ 53 -> e + eN <= 0 ->
  Float.to_int (Float.mul (S754_finite false m e) (S754_finite false mN eN)) =
  Ok (fwidth (Z.pos m * Z.pos mN) (e + eN)).
Proof.
  intros Hm HmN HE. rewrite <- ztrunc_round_exp.
  apply rounds_to_int; [apply (mul_rounds false m e false mN eN)|].
  unfold round_exp. rewrite fexp64_eq.
  pose proof (Zdigits2_mul_le (Z.pos m) (Z.pos mN) ltac:(lia) ltac:(lia)).
  pose proof (Zdigits2_le (Z.pos m) 53 ltac:(lia) ltac:(lia)).
  pose proof (Zdigits2_le (Z.pos mN) 53 ltac:(lia) ltac:(lia)).
  lia.
Qed.

Lemma le_val_mul m e m' e' mN eN :
  0 < mN -> le_val m e m' e' -> le_val (m * mN) (e + eN) (m' * mN) (e' + eN).
Proof.
  unfold le_val. intros HN Hle.
  replace (Z.min (e + eN) (e' + eN)) with (Z.min e e' + eN) by lia.
  replace (e + eN - (Z.min e e' + eN)) with (e - Z.min e e') by lia.
  replace (e' + eN - (Z.min e e' + eN)) with (e' - Z.min e e') by lia.
  nia.
Qed.


Lemma of_int_shape N fN :
  Float.of_int N = Ok fN ->
  (exists s, fN = S754_zero s) \/ (exists s m e, fN = S754_finite s m e).
Proof.
  unfold Float.of_int, binary_normalize, Float.prec, Float.emax.
  destruct N as [|n|n].
  - intros [= <-]. left. eauto.
  - destruct (binary_round_rounds false n 0) as [[_ ->]|(p & e2 & -> & _)].
    + intros [= <-]. left. eauto.
    + destruct (e2 <=? 971); [|discriminate]. intros [= <-]. right. eauto.
  - destruct (binary_round_rounds true n 0) as [[_ ->]|(p & e2 & -> & _)].
    + intros [= <-]. left. eauto.
    + destruct (e2 <=? 971); [|discriminate]. intros [= <-]. right. eauto.
Qed.

Lemma mul_int_zero s N fN :
  Float.of_int N = Ok fN -> Float.mul_int (S754_zero s) N = Ok 0.
Proof.
  intros HN. unfold Float.mul_int. rewrite HN. simpl.
  destruct (of_int_shape N fN HN) as [(s' & ->)|(s' & m & e & ->)]; reflexivity.
Qed.

Lemma small_expo s m e c :
  Float.valid (S754_finite s m e) = true ->
  0 <= c -> 0 <= e + c ->
  Float.scaled (S754_finite s m e) c <= 2 * 2 ^ c -> e <= 0.
Proof.
  intros (_ & He & Hn)%valid_finite Hc Hec Hs. simpl in Hs.
  destruct (Z_le_gt_dec e 0) as [|Hpos]; [assumption|exfalso].
  specialize (Hn ltac:(lia)).
  assert (2 ^ 52 * 2 ^ (e + c) <= Z.pos m * 2 ^ (e + c)) as H1.
  { apply Z.mul_le_mono_nonneg_r; [apply Z.pow_nonneg; lia | assumption]. }
  rewrite <- Z.pow_add_r in H1 by lia.
  assert (2 ^ (c + 2) <= 2 ^ (52 + (e + c))) as H2
    by (apply Z.pow_le_mono_r; lia).
  rewrite (Z.pow_add_r 2 c 2) in H2 by lia. change (2 ^ 2) with 4 in H2.
  pose proof (pow2_pos c Hc). lia.
Qed.

(** The integer part of the product of a small float and a small int. *)
Lemma mul_int_bound x N c :
  Float.valid x = true -> Float.nonneg x = true ->
  0 < N < 2 ^ 53 -> 0 <= c -> 0 <= Float.expo x + c ->
  Float.scaled x c <= 2 * 2 ^ c ->
  exists w, Float.mul_int x N = Ok w /\ 0 <= w /\
            w * 2 ^ c * 2 ^ 53 <= Float.scaled x c * N * (2 ^ 53 + 1).
Proof.
  intros Hv Hn HN Hc Hec Hs.
  destruct (of_int_small N HN) as (mN & eN & HfN & HeN & HmN & HmN53).
  destruct x as [s|s| |[|] m e]; try discriminate.
  - exists 0. rewrite (mul_int_zero s N _ HfN). split; [reflexivity|].
    simpl Float.scaled. lia.
  - pose proof (small_expo false m e c Hv Hc Hec Hs) as He.
    pose proof Hv as (Hm & _ & _)%valid_finite.
    exists (fwidth (Z.pos m * Z.pos mN) (e + eN)).
    unfold Float.mul_int. rewrite HfN. cbv beta iota delta [bind].
    rewrite mul_width by lia. split; [reflexivity|].
    pose proof (fwidth_nonneg (Z.pos m * Z.pos mN) (e + eN) ltac:(lia)) as Hw.
    split; [assumption|].
    pose proof (fwidth_upper (Z.pos m * Z.pos mN) (e + eN) ltac:(lia) ltac:(lia)) as Hu.
    set (w := fwidth (Z.pos m * Z.pos mN) (e + eN)) in *.
    simpl Float.scaled. simpl Float.expo in Hec.
    replace (- (e + eN)) with (- e + - eN) in Hu by lia.
    rewrite Z.pow_add_r, HmN in Hu by lia.
    pose proof (pow2_pos (- eN) ltac:(lia)) as HPN.
    pose proof (pow2_pos (- e) ltac:(lia)) as HPe.
    pose proof (pow2_pos (e + c) ltac:(lia)) as HPc.
    assert (w * 2 ^ (- e) * 2 ^ 53 <= Z.pos m * N * (2 ^ 53 + 1)) as Hu' by nia.
    replace c with (- e + (e + c)) at 1 by lia. rewrite Z.pow_add_r by lia.
    nia.
Qed.

(** A sum of two valid non-negative floats that the constructor accepts
    is at most [1 + 2^-53]. *)
Lemma sum_scaled p0 p1 :
  Float.valid p0 = true -> Float.valid p1 = true ->
  Float.nonneg p0 = true -> Float.nonneg p1 = true ->
  Float.ltb Float.one (Float.add p0 p1) = false ->
  exists c, 0 <= c /\ 0 <= Float.expo p0 + c /\ 0 <= Float.expo p1 + c /\
    (Float.scaled p0 c + Float.scaled p1 c) * 2 ^ 53 <= (2 ^ 53 + 1) * 2 ^ c.
Proof.
  intros Hv0 Hv1 Hn0 Hn1 Hlt.
  destruct p0 as [s0|s0| |[|] m0 e0]; try discriminate;
    destruct p1 as [s1|s1| |[|] m1 e1]; try discriminate.
  - exists 0. simpl. lia.
  - assert (Float.add (S754_zero s0) (S754_finite false m1 e1)
            = S754_finite false m1 e1) as E by reflexivity.
    rewrite E in Hlt. apply ltb_one_finite in Hlt.
    pose proof Hv1 as (Hm & _ & _)%valid_finite.
    exists (- e1). simpl. rewrite Z.add_opp_diag_r. simpl.
    assert (2 ^ 53 <= 2 ^ (- e1) * 2) as H2.
    { destruct Hlt as [Hlt|[-> _]]; [|reflexivity].
      change 2 with (2 ^ 1) at 3. rewrite <- Z.pow_add_r by lia.
      apply Z.pow_le_mono_r; lia. }
    assert (Z.pos m1 <= 2 ^ (- e1)) as H3.
    { destruct Hlt as [Hlt|[-> Hlt]]; [|exact Hlt].
      apply Z.le_trans with (2 ^ 53); [lia|]. apply Z.pow_le_mono_r; lia. }
    lia.
  - assert (Float.add (S754_finite false m0 e0) (S754_zero s1)
            = S754_finite false m0 e0) as E by reflexivity.
    rewrite E in Hlt. apply ltb_one_finite in Hlt.
    pose proof Hv0 as (Hm & _ & _)%valid_finite.
    exists (- e0). simpl. rewrite Z.add_opp_diag_r. simpl.
    assert (Z.pos m0 <= 2 ^ (- e0)) as H3.
    { destruct Hlt as [Hlt|[-> Hlt]]; [|exact Hlt].
      apply Z.le_trans with (2 ^ 53); [lia|]. apply Z.pow_le_mono_r; lia. }
    lia.
  - apply add_le_one in Hlt. cbn zeta in Hlt. destruct Hlt as [Hez Hsum].
    exists (- Z.min e0 e1). simpl.
    replace (e0 + - Z.min e0 e1) with (e0 - Z.min e0 e1) by lia.
    replace (e1 + - Z.min e0 e1) with (e1 - Z.min e0 e1) by lia.
    repeat split; try lia.
Qed.

(** Two sizes that the constructor accepts take disjoint parts of the
    bucket range, as long as the bucket count stays below [2^52]. *)
Lemma mul_int_disjoint p0 p1 N :
  Float.valid p0 = true -> Float.valid p1 = true ->
  Float.nonneg p0 = true -> Float.nonneg p1 = true ->
  Float.ltb Float.one (Float.add p0 p1) = false ->
  1 <= N < 2 ^ 52 ->
  exists w0 w1,
    Float.mul_int p0 N = Ok w0 /\ Float.mul_int p1 N = Ok w1 /\
    0 <= w0 /\ 0 <= w1 /\ w0 + w1 <= N.
Proof.
  intros Hv0 Hv1 Hn0 Hn1 Hlt HN.
  destruct (sum_scaled p0 p1 Hv0 Hv1 Hn0 Hn1 Hlt) as (c & Hc & He0 & He1 & Hsum).
  pose proof (pow2_pos c Hc) as HP.
  assert (0 <= Float.scaled p0 c) as Hs0.
  { destruct p0; simpl; try lia.
    all: apply Z.mul_nonneg_nonneg; [lia | apply Z.pow_nonneg; lia]. }
  assert (0 <= Float.scaled p1 c) as Hs1.
  { destruct p1; simpl; try lia.
    all: apply Z.mul_nonneg_nonneg; [lia | apply Z.pow_nonneg; lia]. }
  destruct (mul_int_bound p0 N c Hv0 Hn0 ltac:(lia) Hc He0 ltac:(lia))
    as (w0 & Hw0 & Hw0n & Hb0).
  destruct (mul_int_bound p1 N c Hv1 Hn1 ltac:(lia) Hc He1 ltac:(lia))
    as (w1 & Hw1 & Hw1n & Hb1).
  exists w0, w1. repeat split; try assumption.
  set (s0 := Float.scaled p0 c) in *. set (s1 := Float.scaled p1 c) in *.
  assert ((w0 + w1) * 2 ^ c * (2 ^ 53 * 2 ^ 53)
          <= (2 ^ 53 + 1) * (2 ^ 53 + 1) * N * 2 ^ c) as Hall by nia.
  assert ((w0 + w1) * (2 ^ 53 * 2 ^ 53) <= (2 ^ 53 + 1) * (2 ^ 53 + 1) * N) as Hfin
    by nia.
  lia.
Qed.

(** A larger size never gets a smaller part. *)
Lemma mul_int_mono x x' N :
  Float.valid x = true -> Float.valid x' = true ->
  Float.nonneg x = true -> Float.nonneg x' = true ->
  Float.ltb x x' = true -> Float.expo x' <= 0 ->
  0 < N < 2 ^ 53 ->
  exists w w',
    Float.mul_int x N = Ok w /\ Float.mul_int x' N = Ok w' /\ 0 <= w <= w'.
Proof.
  intros Hv Hv' Hn Hn' Hlt He' HN.
  destruct (of_int_small N HN) as (mN & eN & HfN & HeN & HmN & HmN53).
  destruct x as [s|s| |[|] m e]; try discriminate;
    destruct x' as [s'|s'| |[|] m' e']; try discriminate; simpl in He'.
  - pose proof Hv' as (Hm' & _ & _)%valid_finite.
    exists 0, (fwidth (Z.pos m' * Z.pos mN) (e' + eN)).
    rewrite (mul_int_zero s N _ HfN). unfold Float.mul_int. rewrite HfN.
    cbv beta iota delta [bind]. rewrite mul_width by lia.
    pose proof (fwidth_nonneg (Z.pos m' * Z.pos mN) (e' + eN) ltac:(lia)).
    repeat split; lia.
  - pose proof Hv as (Hm & _ & _)%valid_finite.
    pose proof Hv' as (Hm' & _ & _)%valid_finite.
    pose proof (ltb_finite_le_val m e m' e' Hv Hv' Hlt) as Hle.
    assert (e <= e') as Hee.
    { revert Hlt. unfold Float.ltb, SFltb, SFcompare.
      destruct (Z.compare_spec e e'); try discriminate; lia. }
    exists (fwidth (Z.pos m * Z.pos mN) (e + eN)),
           (fwidth (Z.pos m' * Z.pos mN) (e' + eN)).
    unfold Float.mul_int. rewrite HfN. cbv beta iota delta [bind].
    rewrite !mul_width by lia. repeat split.
    + apply fwidth_nonneg. lia.
    + apply fwidth_mono; [lia | lia |]. apply le_val_mul; [lia | assumption].
Qed.

(** ** Rounding up to an integer *)

Lemma rne_unique_near c m n :
  0 < n -> 2 * Z.abs (m - c * 2 ^ n) < 2 ^ n -> rne m n = c.
Proof.
  intros Hn Hc. pose proof (rne_near m n Hn) as Ha.
  pose proof (pow2_pos n ltac:(lia)) as HP.
  set (a := rne m n) in *. remember (2 ^ n) as P. clear HeqP. nia.
Qed.

(** The float nearest to [K * (1 - 2^-54)] is the integer [K]. *)
Lemma fwidth_below_int K :
  0 < K <= 2 ^ 52 -> fwidth (K * (2 ^ 54 - 1)) (-54) = K.
Proof.
  intros HK. pose proof (Zdigits2_bounds K ltac:(lia)) as [Hlo Hhi].
  assert (0 < Zdigits2 K) as Hd by (destruct K; simpl in *; lia).
  remember (Zdigits2 K - 1) as j eqn:Ej.
  replace (Zdigits2 K) with (j + 1) in Hhi by lia.
  assert (0 <= j) as Hj by lia.
  assert (j <= 52) as Hj52.
  { destruct (Z_le_gt_dec j 52) as [|Hgt]; [assumption|exfalso].
    assert (2 ^ 53 <= 2 ^ j) by (apply Z.pow_le_mono_r; lia). lia. }
  pose proof (pow2_pos j Hj) as HPj.
  assert (2 ^ (j + 1) = 2 * 2 ^ j) as E1 by (rewrite Z.pow_add_r by lia; lia).
  unfold fwidth. rewrite fmt_exp_eq.
  destruct (Z.eq_dec K (2 ^ j)) as [->|Hne].
  - (* a power of two: the tie goes to the even mantissa *)
    rewrite (Z.mul_comm (2 ^ j)).
    rewrite Zdigits2_mul_pow2 by lia.
    change (Zdigits2 (2 ^ 54 - 1)) with 54.
    rewrite Z.max_l by lia.
    replace (54 + j + -54 - 53 - -54) with (1 + j) by lia.
    rewrite rne_scale by lia.
    change (rne (2 ^ 54 - 1) 1) with (2 ^ 53).
    replace (54 + j + -54 - 53) with (j - 53) by lia.
    unfold ztrunc. destruct (Z.leb_spec 0 (j - 53)); [lia|].
    replace 53 with (j + (53 - j)) at 1 by lia. rewrite Z.pow_add_r by lia.
    replace (- (j - 53)) with (53 - j) by lia.
    apply Z.div_mul. pose proof (pow2_pos (53 - j) ltac:(lia)). lia.
  - assert (Zdigits2 (K * (2 ^ 54 - 1)) = j + 55) as Hdig.
    { apply Z.le_antisymm.
      - apply Zdigits2_le; [lia|]. split; [lia|].
        replace (j + 55) with (j + 1 + 54) by lia. rewrite Z.pow_add_r by lia. nia.
      - assert (j + 54 < Zdigits2 (K * (2 ^ 54 - 1))); [|lia].
        apply Zdigits2_ge; [lia|]. rewrite Z.pow_add_r by lia.
        assert (2 ^ j + 1 <= K) by lia.
        assert (K < 2 ^ 54).
        { apply Z.lt_le_trans with (1 := Hhi). apply Z.pow_le_mono_r; lia. }
        nia. }
    rewrite Hdig. rewrite Z.max_l by lia.
    replace (j + 55 + -54 - 53 - -54) with (j + 2) by lia.
    replace (j + 55 + -54 - 53) with (j - 52) by lia.
    pose proof (pow2_pos (52 - j) ltac:(lia)) as HP52.
    assert (2 ^ 54 = 2 ^ (52 - j) * 2 ^ (j + 2)) as E54.
    { rewrite <- Z.pow_add_r by lia. f_equal. lia. }
    rewrite (rne_unique_near (K * 2 ^ (52 - j))); [| lia |].
    + unfold ztrunc. destruct (Z.leb_spec 0 (j - 52)).
      * assert (j = 52) as -> by lia. simpl. lia.
      * replace (- (j - 52)) with (52 - j) by lia. apply Z.div_mul. lia.
    + replace (K * (2 ^ 54 - 1) - K * 2 ^ (52 - j) * 2 ^ (j + 2)) with (- K).
      * rewrite Z.abs_opp, Z.abs_eq by lia.
        replace (j + 2) with (1 + (j + 1)) by lia. rewrite Z.pow_add_r by lia.
        change (2 ^ 1) with 2. lia.
      * rewrite <- Z.mul_assoc, <- E54. ring.
Qed.

(** A value of at least [K * (1 - 2^-54)] is rounded to at least [K]. *)
Lemma fwidth_reaches K M E :
  0 < K <= 2 ^ 52 -> 0 < M -> E <= 0 ->
  K * (2 ^ 54 - 1) * 2 ^ (- E) <= M * 2 ^ 54 ->
  K <= fwidth M E.
Proof.
  intros HK HM HE Hb. rewrite <- (fwidth_below_int K HK) at 1.
  apply fwidth_mono; [lia | assumption |].
  unfold le_val. set (c := Z.min (-54) E).
  pose proof (pow2_pos (- E) ltac:(lia)) as HPE.
  pose proof (pow2_pos (- c) ltac:(lia)) as HPc.
  apply (Z.mul_le_mono_pos_r _ _ (2 ^ 54 * 2 ^ (- E))); [lia|].
  assert (2 ^ (-54 - c) * (2 ^ 54 * 2 ^ (- E)) = 2 ^ (- E) * 2 ^ (- c)) as E1.
  { rewrite Z.mul_assoc, <- Z.pow_add_r by lia.
    replace (-54 - c + 54) with (- c) by lia. lia. }
  assert (2 ^ (E - c) * (2 ^ 54 * 2 ^ (- E)) = 2 ^ 54 * 2 ^ (- c)) as E2.
  { replace (- c) with (E - c + - E) by lia. rewrite Z.pow_add_r by lia. ring. }
  rewrite <- !Z.mul_assoc, E1, E2. nia.
Qed.

Lemma mul_int_reaches x N c K w :
  Float.valid x = true -> Float.nonneg x = true ->
  0 < N < 2 ^ 53 -> 0 <= c -> 0 <= Float.expo x + c ->
  Float.scaled x c <= 2 * 2 ^ c ->
  Float.mul_int x N = Ok w ->
  0 < K <= 2 ^ 52 ->
  K * (2 ^ 54 - 1) * 2 ^ c <= Float.scaled x c * N * 2 ^ 54 ->
  K <= w.
Proof.
  intros Hv Hn HN Hc Hec Hs Hw HK Hb.
  destruct (of_int_small N HN) as (mN & eN & HfN & HeN & HmN & HmN53).
  pose proof (pow2_pos c Hc) as HPc0.
  destruct x as [s|s| |[|] m e]; try discriminate.
  - simpl Float.scaled in Hb. nia.
  - pose proof (small_expo false m e c Hv Hc Hec Hs) as He.
    pose proof Hv as (Hm & _ & _)%valid_finite.
    revert Hw. unfold Float.mul_int. rewrite HfN. cbv beta iota delta [bind].
    rewrite mul_width by lia. intros [= <-].
    simpl Float.scaled in Hb. simpl Float.expo in Hec.
    pose proof (pow2_pos (- eN) ltac:(lia)) as HPN.
    pose proof (pow2_pos (- e) ltac:(lia)) as HPe.
    pose proof (pow2_pos (e + c) ltac:(lia)) as HPc.
    assert (2 ^ c = 2 ^ (- e) * 2 ^ (e + c)) as Ec.
    { rewrite <- Z.pow_add_r by lia. f_equal. lia. }
    rewrite Ec in Hb.
    assert (K * (2 ^ 54 - 1) * 2 ^ (- e) <= Z.pos m * N * 2 ^ 54) as Hb'.
    { apply (Z.mul_le_mono_pos_r _ _ (2 ^ (e + c))); [assumption|].
      replace (K * (2 ^ 54 - 1) * 2 ^ (- e) * 2 ^ (e + c))
        with (K * (2 ^ 54 - 1) * (2 ^ (- e) * 2 ^ (e + c))) by ring.
      replace (Z.pos m * N * 2 ^ 54 * 2 ^ (e + c))
        with (Z.pos m * 2 ^ (e + c) * N * 2 ^ 54) by ring.
      exact Hb. }
    apply fwidth_reaches; [assumption | lia | lia |].
    replace (- (e + eN)) with (- e + - eN) by lia. rewrite Z.pow_add_r by lia.
    rewrite HmN.
    replace (K * (2 ^ 54 - 1) * (2 ^ (- e) * 2 ^ (- eN)))
      with (K * (2 ^ 54 - 1) * 2 ^ (- e) * 2 ^ (- eN)) by ring.
    replace (Z.pos m * (N * 2 ^ (- eN)) * 2 ^ 54)
      with (Z.pos m * N * 2 ^ 54 * 2 ^ (- eN)) by ring.
    apply Z.mul_le_mono_nonneg_r; lia.
Qed.

(** ** A sum that rounds to [1.0] *)

Lemma round_eq_one r S ez :
  0 < S ->
  rounds_to r false (rne S (fmt_exp S ez - ez)) (fmt_exp S ez) ->
  r = Float.one ->
  ez <= 0 /\ (2 ^ 54 - 1) * 2 ^ (- ez) <= S * 2 ^ 54.
Proof.
  intros HS Hr ->.
  destruct (round_le_one Float.one S ez HS Hr eq_refl) as [Hez _].
  split; [exact Hez|].
  pose proof (fmt_exp_eq S ez) as Hk.
  pose proof (Zdigits2_bounds S HS) as [Hlo Hhi].
  pose proof (pow2_pos (- ez) ltac:(lia)) as HPz.
  set (k := fmt_exp S ez) in *. set (a := rne S (k - ez)) in *.
  destruct Hr as [[_ Hz]|(p & e2 & Hone & Hrep)]; [discriminate Hz|].
  destruct (Z.leb_spec e2 971); [|discriminate Hone].
  injection Hone as Hp He2.
  assert (Z.pos p = 2 ^ 52) as Hp' by (rewrite <- Hp; reflexivity).
  destruct Hrep as [(Ha & Hk2 & _)|(Ha & _ & Hk2)].
  - (* the sum lies in the binade of [1.0] *)
    assert (Zdigits2 S - 1 = - ez) as Ed by lia.
    rewrite Ed in Hlo. lia.
  - assert (k = -53) as Hk53 by lia.
    destruct (Z_le_gt_dec (k - ez) 0) as [Hn|Hn].
    + assert (a = S * 2 ^ (- (k - ez))) as Ha'
        by (subst a; apply rne_exact_shift; assumption).
      assert (Zdigits2 S = - ez) as Ed by lia. rewrite Ed in Hhi.
      pose proof (pow2_pos (- (k - ez)) ltac:(lia)) as HP.
      assert (2 ^ (- ez) * 2 ^ (- (k - ez)) = 2 ^ 53) as E.
      { rewrite <- Z.pow_add_r by lia. f_equal. lia. }
      nia.
    + pose proof (rne_near S (k - ez) ltac:(lia)) as Hnear. fold a in Hnear.
      rewrite Ha in Hnear.
      pose proof (pow2_pos (k - ez) ltac:(lia)) as HP.
      assert (2 ^ 53 * 2 ^ (k - ez) = 2 ^ (- ez)) as E.
      { rewrite <- Z.pow_add_r by lia. f_equal. lia. }
      lia.
Qed.

Lemma add_eq_one m0 e0 m1 e1 :
  Float.add (S754_finite false m0 e0) (S754_finite false m1 e1) = Float.one ->
  let ez := Z.min e0 e1 in
  ez <= 0 /\
  (2 ^ 54 - 1) * 2 ^ (- ez)
    <= (Z.pos m0 * 2 ^ (e0 - ez) + Z.pos m1 * 2 ^ (e1 - ez)) * 2 ^ 54.
Proof.
  intros Hone ez. unfold Float.add, SFadd in Hone. fold ez in Hone.
  destruct (shl_align_spec m0 e0 ez) as (z0 & Ez0 & Hz0).
  destruct (shl_align_spec m1 e1 ez) as (z1 & Ez1 & Hz1).
  rewrite Ez0, Ez1 in Hone. simpl fst in Hone. simpl cond_Zopp in Hone.
  rewrite (Z.min_l ez e0) in Hz0 by lia. rewrite (Z.min_l ez e1) in Hz1 by lia.
  rewrite <- Hz0, <- Hz1.
  change (Z.pos z0 + Z.pos z1) with (Z.pos (z0 + z1)) in *.
  apply (round_eq_one (binary_round 53 1024 false (z0 + z1) ez)
           (Z.pos (z0 + z1)) ez ltac:(lia)); [|exact Hone].
  apply binary_round_rounds.
Qed.

(** Two non-negative floats whose sum is the float [1.0] have an exact
    sum of at least [1 - 2^-54]. *)
Lemma sum_one_scaled p0 p1 c :
  Float.nonneg p0 = true -> Float.nonneg p1 = true ->
  Float.add p0 p1 = Float.one ->
  0 <= c -> 0 <= Float.expo p0 + c -> 0 <= Float.expo p1 + c ->
  (2 ^ 54 - 1) * 2 ^ c <= (Float.scaled p0 c + Float.scaled p1 c) * 2 ^ 54.
Proof.
  intros Hn0 Hn1 Hone Hc He0 He1. pose proof (pow2_pos c Hc) as HPc.
  destruct p0 as [s0|s0| |[|] m0 e0]; try discriminate;
    destruct p1 as [s1|s1| |[|] m1 e1]; try discriminate.
  - destruct s0, s1; discriminate.
  - injection Hone as -> ->. simpl in *.
    replace (2 ^ c) with (2 ^ 52 * 2 ^ (-52 + c)) at 1.
    + pose proof (pow2_pos (-52 + c) ltac:(lia)). lia.
    + rewrite <- Z.pow_add_r by lia. f_equal. lia.
  - injection Hone as -> ->. simpl in *.
    replace (2 ^ c) with (2 ^ 52 * 2 ^ (-52 + c)) at 1.
    + pose proof (pow2_pos (-52 + c) ltac:(lia)). lia.
    + rewrite <- Z.pow_add_r by lia. f_equal. lia.
  - apply add_eq_one in Hone. cbn zeta in Hone. destruct Hone as [Hez Hsum].
    simpl in *. set (ez := Z.min e0 e1) in *.
    pose proof (pow2_pos (c + ez) ltac:(lia)) as HP.
    assert (2 ^ c = 2 ^ (- ez) * 2 ^ (c + ez)) as ->.
    { rewrite <- Z.pow_add_r by lia. f_equal. lia. }
    assert (2 ^ (e0 + c) = 2 ^ (e0 - ez) * 2 ^ (c + ez)) as ->.
    { rewrite <- Z.pow_add_r by lia. f_equal. lia. }
    assert (2 ^ (e1 + c) = 2 ^ (e1 - ez) * 2 ^ (c + ez)) as ->.
    { rewrite <- Z.pow_add_r by lia. f_equal. lia. }
    nia.
Qed.

(** The width of a size whose exact product with the bucket count is a
    whole number is at least that product. *)
Lemma whole_product_width x N c w :
  Float.valid x = true -> Float.nonneg x = true ->
  0 < N < 2 ^ 52 -> 0 <= c -> 0 <= Float.expo x + c ->
  Float.scaled x c * 2 ^ 53 <= (2 ^ 53 + 1) * 2 ^ c ->
  Float.mul_int x N = Ok w ->
  whole_product x N = true ->
  Float.scaled x c * N <= w * 2 ^ c.
Proof.
  intros Hv Hn HN Hc Hec Hs Hw Hwhole. pose proof (pow2_pos c Hc) as HPc0.
  destruct x as [s|s| |[|] m e]; try discriminate.
  - simpl Float.scaled. destruct (of_int_small N ltac:(lia)) as (mN & eN & HfN & _).
    rewrite (mul_int_zero s N _ HfN) in Hw. injection Hw as <-. lia.
  - assert (Float.scaled (S754_finite false m e) c <= 2 * 2 ^ c) as Hs2 by lia.
    pose proof (small_expo false m e c Hv Hc Hec Hs2) as He.
    simpl Float.scaled in *. simpl Float.expo in Hec.
    pose proof (pow2_pos (- e) ltac:(lia)) as HPe.
    pose proof (pow2_pos (e + c) ltac:(lia)) as HPc.
    assert (2 ^ c = 2 ^ (- e) * 2 ^ (e + c)) as Ec.
    { rewrite <- Z.pow_add_r by lia. f_equal. lia. }
    assert (exists K, Z.pos m * N = K * 2 ^ (- e)) as (K & HK).
    { simpl in Hwhole. destruct (Z.leb_spec 0 e).
      - exists (Z.pos m * N). assert (e = 0) as -> by lia. simpl. lia.
      - apply Z.eqb_eq in Hwhole. exists (Z.pos m * N / 2 ^ (- e)).
        pose proof (Z.div_mod (Z.pos m * N) (2 ^ (- e)) ltac:(lia)). lia. }
    assert (Z.pos m * 2 ^ 53 <= (2 ^ 53 + 1) * 2 ^ (- e)) as Hm.
    { apply (Z.mul_le_mono_pos_r _ _ (2 ^ (e + c))); [assumption|].
      rewrite Ec in Hs. lia. }
    assert (0 < K) by nia.
    assert (K <= 2 ^ 52) as HK52.
    { assert (K * 2 ^ 53 * 2 ^ (- e) <= (2 ^ 53 + 1) * N * 2 ^ (- e)) as H1 by nia.
      assert (K * 2 ^ 53 <= (2 ^ 53 + 1) * N) as H2.
      { apply (Z.mul_le_mono_pos_r _ _ (2 ^ (- e))); assumption. }
      lia. }
    assert (Z.pos m * 2 ^ (e + c) * N = K * 2 ^ c) as Eprod.
    { rewrite Ec. replace (Z.pos m * 2 ^ (e + c) * N)
        with (Z.pos m * N * 2 ^ (e + c)) by ring. rewrite HK. ring. }
    rewrite Eprod. apply Z.mul_le_mono_nonneg_r; [lia|].
    apply (mul_int_reaches (S754_finite false m e) N c K w Hv Hn ltac:(lia) Hc
             Hec Hs2 Hw ltac:(lia)).
    simpl Float.scaled. rewrite Eprod. lia.
Qed.

(** ** [int] and the two roundings *)

Lemma to_int_trunc x : Float.to_int x = Float.trunc x.
Proof.
  destruct x as [s|s| |s m e]; try reflexivity.
  unfold Float.to_int, Float.trunc. f_equal.
  destruct (Z.leb_spec 0 e) as [He|He].
  - rewrite Z.max_l, Z.max_r by lia. simpl (2 ^ 0). rewrite Z.quot_1_r.
    destruct s; [|reflexivity]. rewrite <- Pos2Z.opp_pos. lia.
  - rewrite Z.max_r, Z.max_l by lia. simpl (2 ^ 0). rewrite Z.mul_1_r.
    pose proof (pow2_pos (- e) ltac:(lia)) as HP.
    destruct s.
    + rewrite <- Pos2Z.opp_pos, Z.quot_opp_l by lia.
      rewrite Z.quot_div_nonneg by lia. reflexivity.
    + rewrite Z.quot_div_nonneg by lia. reflexivity.
Qed.

Lemma floor_to_int x :
  (forall m e, x <> S754_finite true m e) -> Float.floor x = Float.to_int x.
Proof.
  intros Hs. destruct x as [s|s| |[|] m e]; try reflexivity.
  - exfalso. apply (Hs m e). reflexivity.
  - unfold Float.floor, Float.to_int. destruct (0 <=? e); reflexivity.
Qed.

Lemma of_int_nonneg N fN :
  0 <= N -> Float.of_int N = Ok fN -> forall m e, fN <> S754_finite true m e.
Proof.
  unfold Float.of_int, binary_normalize, Float.prec, Float.emax.
  intros HN. destruct N as [|n|n]; [| |lia].
  - intros [= <-]. discriminate.
  - destruct (binary_round_rounds false n 0) as [[_ ->]|(p & e2 & -> & _)].
    + intros [= <-]. discriminate.
    + destruct (e2 <=? 971); [|discriminate]. intros [= <-]. discriminate.
Qed.

Lemma mul_of_int_nonneg x N fN :
  Float.nonneg x = true -> 0 <= N -> Float.of_int N = Ok fN ->
  forall m e, Float.mul x fN <> S754_finite true m e.
Proof.
  intros Hx HN HfN.
  pose proof (of_int_nonneg N fN HN HfN) as Hsign.
  destruct (of_int_shape N fN HfN) as [(s' & ->)|(s' & m' & e' & ->)];
    destruct x as [s|s| |[|] m e]; try discriminate; try (intros; discriminate).
  destruct s'; [exfalso; apply (Hsign m' e'); reflexivity|].
  destruct (mul_rounds false m e false m' e') as [[_ ->]|(p & e2 & -> & _)].
  - intros; discriminate.
  - simpl xorb. destruct (e2 <=? 971); intros; discriminate.
Qed.

(** ** [choose_variant] *)

Section Claims.
Context `{Builtins}.

Lemma py_int_trunc a : is_number a -> py_int a = py_trunc a.
Proof. destruct a; simpl; try tauto. intros _. apply to_int_trunc. Qed.

Lemma py_mul_int_number size N x :
  is_number size -> py_mul_int size N = Ok x -> is_number x.
Proof.
  destruct size; simpl; try tauto.
  - intros _ [= <-]. exact I.
  - intros _. destruct (Float.of_int N); simpl; [|discriminate].
    intros [= <-]. exact I.
Qed.

Lemma accepted_numbers d0 d1 :
  accepted (Some [d0; d1]) ->
  exists s0 s1, d0 !! "size" = Some s0 /\ d1 !! "size" = Some s1 /\
                is_number s0 /\ is_number s1.
Proof.
  intros (e0 & e1 & s0 & s1 & total & [= <- <-] & H0 & _ & H1 & _ & Ha & Hl & _).
  exists s0, s1. destruct (py_add_number s0 s1 total _ _ Ha Hl) as (? & ? & _).
  auto.
Qed.

(** [choose_variant] is the rule of the specification with [int] for the
    rounding. *)
Lemma choose_variant_rule d0 d1 N b :
  choose_variant {| variants := Some [d0; d1]; num_buckets := N |} b =
  rule py_int [d0; d1] N b.
Proof.
  unfold choose_variant, width, rule, proportion, name. simpl.
  destruct (dict_getitem d0 "size") as [s0|]; simpl; [|reflexivity].
  destruct (py_mul_int s0 N) as [x0|]; simpl; [|reflexivity].
  destruct (py_int x0) as [w0|]; simpl; [|reflexivity].
  destruct (b <? w0); [reflexivity|].
  destruct (dict_getitem d1 "size") as [s1|]; simpl; [|reflexivity].
  destruct (py_mul_int s1 N) as [x1|]; simpl; [|reflexivity].
  destruct (py_int x1) as [w1|]; reflexivity.
Qed.

Lemma rule_ext (round round' : pyval -> result Z) d0 d1 s0 s1 N b :
  d0 !! "size" = Some s0 -> d1 !! "size" = Some s1 ->
  (forall x, py_mul_int s0 N = Ok x -> round x = round' x) ->
  (forall x, py_mul_int s1 N = Ok x -> round x = round' x) ->
  rule round [d0; d1] N b = rule round' [d0; d1] N b.
Proof.
  intros H0 H1 E0 E1. unfold rule, proportion, dict_getitem. rewrite H0, H1.
  simpl. destruct (py_mul_int s0 N) as [x0|]; simpl; [|reflexivity].
  rewrite (E0 x0 eq_refl). destruct (round' x0) as [w0|]; simpl; [|reflexivity].
  destruct (b <? w0); [reflexivity|].
  destruct (py_mul_int s1 N) as [x1|]; simpl; [|reflexivity].
  rewrite (E1 x1 eq_refl). reflexivity.
Qed.

Lemma py_floor_int size N x :
  nonneg_size size -> 0 <= N -> py_mul_int size N = Ok x ->
  py_floor x = py_int x.
Proof.
  destruct size as [|z|y|]; simpl; try tauto.
  - intros _ _ [= <-]. reflexivity.
  - intros Hy HN. destruct (Float.of_int N) as [fN|] eqn:HfN; simpl; [|discriminate].
    intros [= <-]. simpl. apply floor_to_int.
    apply (mul_of_int_nonneg y N fN Hy HN HfN).
Qed.

(** C1 (as amended): on every constructed partition and for every integer
    index, [choose_variant] follows the four steps of the rule with the
    widths [int(proportion * bucketCount)], where [int] truncates toward
    zero; when the proportions and the bucket count are not negative, that
    is the [floor] of the specification. *)
Theorem choose_variant_truncates v N vp d0 d1 b :
  __init__ v N = Ok vp -> v = Some [d0; d1] ->
  choose_variant vp b = trunc_chooseOutcome [d0; d1] N b /\
  (forall s0 s1,
     d0 !! "size" = Some s0 -> d1 !! "size" = Some s1 ->
     nonneg_size s0 -> nonneg_size s1 -> 0 <= N ->
     choose_variant vp b = spec_chooseOutcome [d0; d1] N b).
Proof.
  intros Hinit ->. apply init_Ok_iff in Hinit as [-> Hacc].
  destruct (accepted_numbers d0 d1 Hacc) as (s0 & s1 & H0 & H1 & Hn0 & Hn1).
  rewrite choose_variant_rule. split.
  - unfold trunc_chooseOutcome. apply (rule_ext _ _ d0 d1 s0 s1); try assumption.
    + intros x Hx. apply py_int_trunc. exact (py_mul_int_number s0 N x Hn0 Hx).
    + intros x Hx. apply py_int_trunc. exact (py_mul_int_number s1 N x Hn1 Hx).
  - intros t0 t1 Ht0 Ht1 Hp0 Hp1 HN. rewrite H0 in Ht0. rewrite H1 in Ht1.
    injection Ht0 as <-. injection Ht1 as <-.
    unfold spec_chooseOutcome. apply (rule_ext _ _ d0 d1 s0 s1); try assumption.
    + intros x Hx. symmetry. exact (py_floor_int s0 N x Hp0 HN Hx).
    + intros x Hx. symmetry. exact (py_floor_int s1 N x Hp1 HN Hx).
Qed.

(** Once the two widths are known, the answer is read off the index. *)
Lemma choose_by_widths d0 d1 N w0 w1 b :
  let vp := {| variants := Some [d0; d1]; num_buckets := N |} in
  width vp 0 = Ok w0 -> width vp 1 = Ok w1 ->
  choose_variant vp b =
    if b <? w0 then name d0
    else if b >=? N - w1 then name d1 else Ok VNone.
Proof.
  intros vp Hw0 Hw1. unfold choose_variant. rewrite Hw0. simpl.
  destruct (b <? w0); [reflexivity|]. rewrite Hw1. reflexivity.
Qed.

(** The answers of a partition with two names and two widths. *)
Lemma choose_named d0 d1 N n0 n1 w0 w1 b :
  let vp := {| variants := Some [d0; d1]; num_buckets := N |} in
  d0 !! "name" = Some n0 -> d1 !! "name" = Some n1 ->
  width vp 0 = Ok w0 -> width vp 1 = Ok w1 ->
  choose_variant vp b =
    if b <? w0 then Ok n0 else if b >=? N - w1 then Ok n1 else Ok VNone.
Proof.
  intros vp Hn0 Hn1 Hw0 Hw1. unfold vp.
  rewrite (choose_by_widths d0 d1 N w0 w1 b Hw0 Hw1).
  unfold name, dict_getitem. rewrite Hn0, Hn1. reflexivity.
Qed.

Lemma name_variant n size : name (variant n size) = Ok (VStr n).
Proof. reflexivity. Qed.

(** C2: with outcomes [(A, 0.4), (B, 0.3)] and 1000 buckets the widths are
    400 and 300, so that the indices 0 and 399 give A, 400 and 699 give
    no assignment, and 700 and 999 give B. *)
Theorem boundary_example :
  exists vp,
    __init__ (Some [variant "A" (VFloat Float.f0_4);
                    variant "B" (VFloat Float.f0_3)]) 1000 = Ok vp /\
    choose_variant vp 0 = Ok (VStr "A") /\
    choose_variant vp 399 = Ok (VStr "A") /\
    choose_variant vp 400 = Ok VNone /\
    choose_variant vp 699 = Ok VNone /\
    choose_variant vp 700 = Ok (VStr "B") /\
    choose_variant vp 999 = Ok (VStr "B").
Proof.
  eexists. split; [vm_compute; reflexivity|].
  assert (forall b,
    choose_variant
      {| variants := Some [variant "A" (VFloat Float.f0_4);
                           variant "B" (VFloat Float.f0_3)];
         num_buckets := 1000 |} b =
    if b <? 400 then Ok (VStr "A")
    else if b >=? 1000 - 300 then Ok (VStr "B") else Ok VNone) as Hrule.
  { intros b.
    rewrite (choose_by_widths _ _ 1000 400 300) by (vm_compute; reflexivity).
    reflexivity. }
  rewrite !Hrule. repeat split.
Qed.

(** ** [__contains__] *)

Lemma py_eq_str_true d s :
  py_eq_str (dict_get d "name") s = true <-> d !! "name" = Some (VStr s).
Proof.
  unfold dict_get. destruct (d !! "name") as [[| | |t]|]; simpl;
    try (split; [discriminate | intros [=]]).
  rewrite String.eqb_eq. split; [intros -> | intros [= ->]]; reflexivity.
Qed.

Lemma contains_eq d0 d1 N s :
  __contains__ {| variants := Some [d0; d1]; num_buckets := N |} s =
  Ok (py_eq_str (dict_get d0 "name") s || py_eq_str (dict_get d1 "name") s).
Proof.
  unfold __contains__. simpl.
  destruct (py_eq_str (dict_get d0 "name") s); [reflexivity|].
  destruct (py_eq_str (dict_get d1 "name") s); reflexivity.
Qed.

(** C9: on a constructed partition, [__contains__] answers [True] exactly
    for the strings that are the name of one of the two outcomes; the
    answer is a function of the two names only, whatever the sizes are,
    and the call returns a value without changing anything. *)
Theorem contains_iff_name v N vp d0 d1 s :
  __init__ v N = Ok vp -> v = Some [d0; d1] ->
  exists r,
    __contains__ vp s = Ok r /\
    (r = true <->
       d0 !! "name" = Some (VStr s) \/ d1 !! "name" = Some (VStr s)) /\
    (forall v' N' vp' e0 e1,
       __init__ v' N' = Ok vp' -> v' = Some [e0; e1] ->
       e0 !! "name" = d0 !! "name" -> e1 !! "name" = d1 !! "name" ->
       __contains__ vp' s = Ok r).
Proof.
  intros Hinit ->. apply init_Ok_iff in Hinit as [-> _].
  eexists. split; [apply contains_eq|]. split.
  - rewrite orb_true_iff, !py_eq_str_true. reflexivity.
  - intros v' N' vp' e0 e1 Hinit' -> E0 E1.
    apply init_Ok_iff in Hinit' as [-> _]. rewrite contains_eq.
    unfold dict_get. rewrite E0, E1. reflexivity.
Qed.

(** ** The constructor and the bucket count *)

(** C4 (as amended): the constructor does not look at the bucket count;
    whether it accepts depends on the variants only, and the partition it
    returns keeps the variants and the bucket count it was given, be the
    count positive, zero or negative. *)
Theorem init_ignores_num_buckets v N N' vp :
  __init__ v N = Ok vp ->
  variants vp = v /\ num_buckets vp = N /\
  __init__ v N' = Ok {| variants := v; num_buckets := N' |}.
Proof.
  intros Hinit. apply init_Ok_iff in Hinit as [-> Hacc].
  repeat split. apply init_Ok_iff. split; [reflexivity | assumption].
Qed.

(** ** The errors of the constructor *)

Lemma py_add_raises a b e :
  py_add a b = Raise e -> e = TypeError \/ e = OverflowError.
Proof.
  unfold Float.of_int.
  destruct a as [|x|x|x], b as [|y|y|y]; simpl; try (intros [= <-]; auto);
    unfold Float.of_int; destruct (binary_normalize _ _ _ _ _); simpl;
    intros [= <-]; auto.
Qed.

Lemma py_lt_float_raises a c e : py_lt_float a c = Raise e -> e = TypeError.
Proof. destruct a; simpl; intros [= <-]; reflexivity. Qed.

Lemma py_gt_float_raises a c e : py_gt_float a c = Raise e -> e = TypeError.
Proof. destruct a; simpl; intros [= <-]; reflexivity. Qed.

Lemma is_None_true a : is_None a = true <-> a = VNone.
Proof. destruct a; simpl; split; congruence. Qed.

Lemma number_compares total c :
  is_number total ->
  exists b b', py_lt_float total c = Ok b /\ py_gt_float total c = Ok b'.
Proof. destruct total; simpl; try tauto; eauto. Qed.

Lemma config_error_raises v N :
  config_error v -> raises_ValueError (__init__ v N).
Proof.
  unfold raises_ValueError, __init__, _validate_variants. simpl.
  intros [->|[(l & -> & Hl)|[(d0 & d1 & -> & Hs)|Hsum]]].
  - eauto.
  - destruct l as [|e0 [|e1 [|e2 l]]]; simpl in *; try lia; eauto.
  - unfold py_or. simpl. rewrite <- !is_None_true in Hs.
    destruct (is_None (dict_get d0 "size")); simpl; [eauto|].
    destruct Hs as [Hs|Hs]; [discriminate|]. rewrite Hs. simpl. eauto.
  - destruct Hsum as (d0 & d1 & s0 & s1 & total & -> & H0 & N0 & H1 & N1 & Ha & Ho).
    unfold py_or. simpl.
    assert (is_None (dict_get d0 "size") = false) as ->
      by (apply dict_get_not_None; eauto).
    assert (is_None (dict_get d1 "size") = false) as ->
      by (apply dict_get_not_None; eauto).
    simpl. unfold dict_getitem. rewrite H0, H1. simpl. rewrite Ha. simpl.
    destruct Ho as [Hl|[Hl Hg]]; rewrite Hl; simpl; [eauto|].
    rewrite Hg. simpl. eauto.
Qed.

Lemma raises_config_error v N :
  raises_ValueError (__init__ v N) -> config_error v.
Proof.
  unfold raises_ValueError, __init__, _validate_variants, config_error. simpl.
  intros (msg & Hr).
  destruct v as [l|]; [|auto].
  destruct (Nat.eq_dec (List.length l) 2%nat) as [Hlen|Hlen];
    [|right; left; eauto].
  destruct l as [|d0 [|d1 [|d2 l]]]; try discriminate.
  unfold py_or in Hr. simpl in Hr.
  destruct (is_None (dict_get d0 "size")) eqn:E0.
  { right; right; left. exists d0, d1. apply is_None_true in E0. auto. }
  destruct (is_None (dict_get d1 "size")) eqn:E1.
  { right; right; left. exists d0, d1. apply is_None_true in E1. auto. }
  simpl in Hr.
  apply dict_get_not_None in E0 as (s0 & H0 & N0).
  apply dict_get_not_None in E1 as (s1 & H1 & N1).
  unfold dict_getitem in Hr. rewrite H0, H1 in Hr. simpl in Hr.
  right; right; right. exists d0, d1, s0, s1.
  destruct (py_add s0 s1) as [total|e] eqn:Ha; simpl in Hr.
  2:{ injection Hr as ->. apply py_add_raises in Ha as [?|?]; discriminate. }
  exists total. unfold out_of_range.
  destruct (py_lt_float total Float.zero) as [[|]|e] eqn:Hl; simpl in Hr.
  - repeat split; auto.
  - destruct (py_gt_float total Float.one) as [[|]|e] eqn:Hg; simpl in Hr.
    + repeat split; auto.
    + discriminate.
    + injection Hr as ->. apply py_gt_float_raises in Hg. discriminate.
  - injection Hr as ->. apply py_lt_float_raises in Hl. discriminate.
Qed.

(** What the constructor does, case by case: it raises [ValueError]
    exactly in the four cases: no list, a list that has not two variants,
    a variant without a size, or a sum [s] of the sizes with [s < 0.0] or
    [s > 1.0].  When the sizes are numbers whose sum can be formed, every
    other configuration is accepted. *)
Lemma init_error_iff v N :
  (raises_ValueError (__init__ v N) <-> config_error v) /\
  (~ config_error v ->
   (forall d0 d1 s0 s1,
      v = Some [d0; d1] -> d0 !! "size" = Some s0 -> d1 !! "size" = Some s1 ->
      is_number s0 /\ is_number s1 /\ returns (py_add s0 s1)) ->
   __init__ v N = Ok {| variants := v; num_buckets := N |}) /\
  (forall vp, __init__ v N = Ok vp ->
     vp = {| variants := v; num_buckets := N |} /\ accepted v).
Proof.
  split; [split; [apply raises_config_error | apply config_error_raises]|].
  split; [|intros vp; apply init_Ok_iff].
  intros Hno Hnum. apply init_Ok_iff. split; [reflexivity|].
  unfold config_error in Hno.
  destruct v as [l|]; [|tauto].
  destruct l as [|d0 [|d1 [|d2 l]]];
    try (exfalso; apply Hno; right; left; eexists; split;
         [reflexivity | simpl; lia]).
  destruct (d0 !! "size") as [s0|] eqn:H0.
  2:{ exfalso. apply Hno. right; right; left. exists d0, d1.
      unfold dict_get. rewrite H0. auto. }
  destruct (d1 !! "size") as [s1|] eqn:H1.
  2:{ exfalso. apply Hno. right; right; left. exists d0, d1.
      unfold dict_get. rewrite H1. auto. }
  destruct (Hnum d0 d1 s0 s1 eq_refl H0 H1) as (Hn0 & Hn1 & total & Ha).
  assert (is_number total) as Hnt.
  { destruct s0, s1; simpl in *; try tauto;
      try (destruct (Float.of_int _); simpl in Ha; [|discriminate]);
      injection Ha as <-; exact I. }
  destruct (number_compares total Float.zero Hnt) as (b & _ & Hl & _).
  destruct (number_compares total Float.one Hnt) as (_ & b' & _ & Hg).
  exists d0, d1, s0, s1, total.
  assert (s0 <> VNone) by (destruct s0; simpl in Hn0; congruence).
  assert (s1 <> VNone) by (destruct s1; simpl in Hn1; congruence).
  assert (b = false) as ->.
  { destruct b; [|reflexivity]. exfalso. apply Hno. right; right; right.
    exists d0, d1, s0, s1, total. unfold out_of_range. repeat split; auto. }
  assert (b' = false) as ->.
  { destruct b'; [|reflexivity]. exfalso. apply Hno. right; right; right.
    exists d0, d1, s0, s1, total. unfold out_of_range. repeat split; auto. }
  repeat split; auto.
Qed.

(** ** The sum within [0, 1] *)

Lemma leb_zero_ltb x :
  x <> S754_nan -> Float.leb Float.zero x = negb (Float.ltb x Float.zero).
Proof. destruct x as [s|s| |s m e]; try congruence; destruct s; reflexivity. Qed.

Lemma leb_one_ltb x :
  x <> S754_nan -> Float.leb x Float.one = negb (Float.ltb Float.one x).
Proof.
  destruct x as [s|s| |s m e]; try congruence; intros _;
    try (destruct s; reflexivity).
  destruct s; [reflexivity|].
  unfold Float.leb, Float.ltb, SFleb, SFltb, Float.one, SFcompare.
  rewrite (Z.compare_antisym e (-52)).
  destruct (e ?= -52); try reflexivity. unfold CompOpp.
  rewrite !Pos.compare_cont_spec. unfold Pos.switch_Eq.
  rewrite (Pos.compare_antisym m 4503599627370496).
  destruct (m ?= 4503599627370496)%positive; reflexivity.
Qed.

(** For a sum that is a number and not NaN, the two comparisons of the
    constructor decide whether it is within [0, 1]. *)
Lemma compare_unit total :
  is_number total -> total <> VFloat S754_nan ->
  exists b b',
    py_lt_float total Float.zero = Ok b /\
    py_gt_float total Float.one = Ok b' /\
    within_unit total = negb b && negb b'.
Proof.
  destruct total as [|z|x|]; simpl; try tauto; intros _ Hnan.
  - do 2 eexists. split; [reflexivity|]. split; [reflexivity|].
    unfold Float.compare_int, Float.zero, Float.one. cbv beta iota zeta.
    change (0 <=? -52) with false. cbv iota.
    change (2 ^ (- (-52))) with (2 ^ 52).
    change 4503599627370496 with (2 ^ 52).
    destruct (Z.leb_spec 0 z); destruct (Z.leb_spec z 1);
      destruct (Z.compare_spec z 0);
      destruct (Z.compare_spec (z * 2 ^ 52) (2 ^ 52)); simpl; try reflexivity; lia.
  - do 2 eexists. split; [reflexivity|]. split; [reflexivity|].
    rewrite leb_zero_ltb, leb_one_ltb by congruence. reflexivity.
Qed.

Lemma within_unit_number total : within_unit total = true -> is_number total.
Proof. destruct total; simpl; try discriminate; auto. Qed.

Lemma accepted_outcomes_valid v :
  typed_sizes v -> accepted v -> outcomes_valid v = true.
Proof.
  intros Ht (d0 & d1 & s0 & s1 & total & -> & H0 & N0 & H1 & N1 & Ha & Hl & Hg).
  destruct (Ht d0 d1 s0 s1 eq_refl H0 H1) as (_ & _ & Hsum).
  destruct (Hsum N0 N1) as (t & Ha' & Hnan). rewrite Ha in Ha'.
  injection Ha' as <-.
  destruct (py_add_number s0 s1 total _ _ Ha Hl) as (_ & _ & Hnum).
  destruct (compare_unit total Hnum Hnan) as (b & b' & Hl' & Hg' & Hw).
  rewrite Hl in Hl'. rewrite Hg in Hg'. injection Hl' as <-. injection Hg' as <-.
  unfold outcomes_valid. rewrite H0, H1, Ha, Hw.
  apply is_None_false in N0. apply is_None_false in N1. rewrite N0, N1.
  reflexivity.
Qed.

Lemma outcomes_valid_accepted v : outcomes_valid v = true -> accepted v.
Proof.
  unfold outcomes_valid, accepted.
  destruct v as [[|d0 [|d1 [|d2 l]]]|]; try discriminate.
  destruct (d0 !! "size") as [s0|] eqn:H0; [|discriminate].
  destruct (d1 !! "size") as [s1|] eqn:H1; [|discriminate].
  destruct (is_None s0) eqn:N0; [discriminate|].
  destruct (is_None s1) eqn:N1; [discriminate|].
  destruct (py_add s0 s1) as [total|] eqn:Ha; [|discriminate]. simpl.
  intros Hw. exists d0, d1, s0, s1, total.
  apply is_None_false in N0. apply is_None_false in N1.
  pose proof (within_unit_number total Hw) as Hnum.
  assert (total <> VFloat S754_nan) as Hnan.
  { intros ->. discriminate Hw. }
  destruct (compare_unit total Hnum Hnan) as (b & b' & Hl & Hg & Hw').
  rewrite Hw in Hw'. symmetry in Hw'. apply andb_true_iff in Hw' as [Hb Hb'].
  apply negb_true_iff in Hb, Hb'. subst b b'. repeat split; auto.
Qed.

Lemma py_add_is_number s0 s1 total :
  is_number s0 -> is_number s1 -> py_add s0 s1 = Ok total -> is_number total.
Proof.
  destruct s0, s1; simpl; try tauto; intros _ _;
    try (destruct (Float.of_int _); simpl; [|discriminate]);
    intros [= <-]; exact I.
Qed.

Lemma typed_invalid_config_error v :
  typed_sizes v -> outcomes_valid v = false -> config_error v.
Proof.
  intros Ht Hv. unfold config_error.
  destruct v as [l|]; [|auto].
  destruct l as [|d0 [|d1 [|d2 l]]];
    try (right; left; eexists; split; [reflexivity | simpl; lia]).
  unfold outcomes_valid in Hv.
  destruct (d0 !! "size") as [s0|] eqn:H0.
  2:{ right; right; left. exists d0, d1. unfold dict_get. rewrite H0. auto. }
  destruct (d1 !! "size") as [s1|] eqn:H1.
  2:{ right; right; left. exists d0, d1. unfold dict_get. rewrite H1. auto. }
  destruct (Ht d0 d1 s0 s1 eq_refl H0 H1) as (T0 & T1 & Hsum).
  destruct (is_None s0) eqn:N0.
  { right; right; left. exists d0, d1. unfold dict_get. rewrite H0.
    apply is_None_true in N0. auto. }
  destruct (is_None s1) eqn:N1.
  { right; right; left. exists d0, d1. unfold dict_get. rewrite H1.
    apply is_None_true in N1. auto. }
  apply is_None_false in N0. apply is_None_false in N1.
  destruct (Hsum N0 N1) as (total & Ha & Hnan). rewrite Ha in Hv. simpl in Hv.
  assert (is_number total) as Hnum.
  { apply (py_add_is_number s0 s1 total); [| |exact Ha].
    - destruct s0; simpl in *; congruence || tauto.
    - destruct s1; simpl in *; congruence || tauto. }
  destruct (compare_unit total Hnum Hnan) as (b & b' & Hl & Hg & Hw).
  right; right; right. exists d0, d1, s0, s1, total. unfold out_of_range.
  rewrite Hv in Hw. destruct b; [repeat split; auto|].
  destruct b'; [repeat split; auto|]. discriminate.
Qed.

(** C3 (as amended): for outcomes whose sizes are numbers or missing, the
    sum of two numbers being a number, the constructor raises the
    configuration error [ValueError] if and only if the list is missing,
    or has not exactly two outcomes, or an outcome has no size, or the sum
    of the two sizes is outside [0, 1]; otherwise it succeeds, and
    what it returns holds the given outcomes, which are valid, and the
    given bucket count, which is not checked. *)
Theorem init_iff_outcomes_valid v N :
  typed_sizes v ->
  (raises_ValueError (__init__ v N) <-> outcomes_valid v = false) /\
  (outcomes_valid v = true ->
   __init__ v N = Ok {| variants := v; num_buckets := N |}) /\
  (forall vp, __init__ v N = Ok vp ->
     vp = {| variants := v; num_buckets := N |} /\ outcomes_valid v = true).
Proof.
  intros Ht.
  assert (outcomes_valid v = true ->
          __init__ v N = Ok {| variants := v; num_buckets := N |}) as Hok.
  { intros Hv. apply init_Ok_iff. split; [reflexivity|].
    apply outcomes_valid_accepted. exact Hv. }
  split; [|split; [exact Hok|]].
  - split.
    + intros (msg & Hr). destruct (outcomes_valid v) eqn:Hv; [|reflexivity].
      rewrite (Hok eq_refl) in Hr. discriminate.
    + intros Hv. destruct (__init__ v N) as [vp|e] eqn:Hi.
      * apply init_Ok_iff in Hi as [_ Hacc].
        rewrite (accepted_outcomes_valid v Ht Hacc) in Hv. discriminate.
      * rewrite <- Hi. apply config_error_raises.
        apply typed_invalid_config_error; assumption.
  - intros vp Hi. apply init_Ok_iff in Hi as [-> Hacc].
    split; [reflexivity|]. apply accepted_outcomes_valid; assumption.
Qed.

(** ** Widths *)

Lemma width_size l N i d size :
  l !! i = Some d -> d !! "size" = Some size ->
  width {| variants := Some l; num_buckets := N |} i =
  let* x := py_mul_int size N in py_int x.
Proof.
  intros Hl Hs. unfold width, list_getitem, dict_getitem. simpl.
  rewrite Hl. simpl. rewrite Hs. reflexivity.
Qed.

Lemma width_float l N i d x :
  l !! i = Some d -> d !! "size" = Some (VFloat x) ->
  width {| variants := Some l; num_buckets := N |} i = Float.mul_int x N.
Proof.
  intros Hl Hs. rewrite (width_size l N i d (VFloat x) Hl Hs).
  unfold Float.mul_int. simpl. destruct (Float.of_int N); reflexivity.
Qed.

Lemma finite_product_width l N i d size :
  l !! i = Some d -> d !! "size" = Some size -> finite_product size N ->
  returns (width {| variants := Some l; num_buckets := N |} i).
Proof.
  intros Hl Hs Hf. rewrite (width_size l N i d size Hl Hs). unfold returns.
  destruct size as [|z|x|]; simpl in *; try tauto.
  - eauto.
  - destruct Hf as (fn & -> & Hfin). simpl.
    destruct (Float.mul x fn); try discriminate; simpl; eauto.
Qed.

Lemma accepted_floats d0 d1 p0 p1 :
  accepted (Some [d0; d1]) ->
  d0 !! "size" = Some (VFloat p0) -> d1 !! "size" = Some (VFloat p1) ->
  Float.ltb Float.one (Float.add p0 p1) = false.
Proof.
  intros (e0 & e1 & s0 & s1 & total & [= <- <-] & H0 & _ & H1 & _ & Ha & _ & Hg).
  intros Hp0 Hp1. rewrite H0 in Hp0. rewrite H1 in Hp1.
  injection Hp0 as ->. injection Hp1 as ->.
  simpl in Ha. injection Ha as <-. simpl in Hg. injection Hg as Hg. exact Hg.
Qed.

Lemma accepted_expo p0 p1 :
  Float.valid p0 = true -> Float.valid p1 = true ->
  Float.nonneg p0 = true -> Float.nonneg p1 = true ->
  Float.ltb Float.one (Float.add p0 p1) = false ->
  Float.expo p0 <= 0 /\ Float.expo p1 <= 0.
Proof.
  intros Hv0 Hv1 Hn0 Hn1 Hlt.
  destruct (sum_scaled p0 p1 Hv0 Hv1 Hn0 Hn1 Hlt) as (c & Hc & He0 & He1 & Hsum).
  pose proof (pow2_pos c Hc) as HP.
  assert (forall x, 0 <= Float.scaled x c) as Hs.
  { intros x. destruct x; simpl; try lia.
    all: apply Z.mul_nonneg_nonneg; [lia | apply Z.pow_nonneg; lia]. }
  pose proof (Hs p0). pose proof (Hs p1).
  split.
  - destruct p0 as [s|s| |s m e]; simpl; try lia.
    apply (small_expo s m e c Hv0 Hc He0). lia.
  - destruct p1 as [s|s| |s m e]; simpl; try lia.
    apply (small_expo s m e c Hv1 Hc He1). lia.
Qed.

(** The widths of an accepted configuration of non-negative floats. *)
Lemma accepted_widths d0 d1 N p0 p1 :
  accepted (Some [d0; d1]) ->
  d0 !! "size" = Some (VFloat p0) -> d1 !! "size" = Some (VFloat p1) ->
  nonneg_float (VFloat p0) -> nonneg_float (VFloat p1) ->
  1 <= N < 2 ^ 52 ->
  let vp := {| variants := Some [d0; d1]; num_buckets := N |} in
  exists w0 w1,
    width vp 0 = Ok w0 /\ width vp 1 = Ok w1 /\
    0 <= w0 /\ 0 <= w1 /\ w0 + w1 <= N.
Proof.
  intros Hacc H0 H1 [Hv0 Hn0] [Hv1 Hn1] HN vp.
  pose proof (accepted_floats d0 d1 p0 p1 Hacc H0 H1) as Hlt.
  destruct (mul_int_disjoint p0 p1 N Hv0 Hv1 Hn0 Hn1 Hlt HN)
    as (w0 & w1 & Hw0 & Hw1 & Hb).
  exists w0, w1. unfold vp.
  rewrite (width_float [d0; d1] N 0 d0 p0 eq_refl H0).
  rewrite (width_float [d0; d1] N 1 d1 p1 eq_refl H1). auto.
Qed.

Lemma mul_int_finite x N w :
  Float.mul_int x N = Ok w -> finite_product (VFloat x) N.
Proof.
  unfold Float.mul_int. simpl.
  destruct (Float.of_int N) as [fn|]; simpl; [|discriminate].
  intros Hw. exists fn. split; [reflexivity|].
  destruct (Float.mul x fn); simpl in *; try reflexivity; discriminate.
Qed.

(** For non-negative sizes and bucket count the width is the [floor] of
    the specification. *)
Lemma spec_width_width l N i d size :
  l !! i = Some d -> d !! "size" = Some size -> nonneg_size size -> 0 <= N ->
  spec_width d N = width {| variants := Some l; num_buckets := N |} i.
Proof.
  intros Hl Hs Hn HN. rewrite (width_size l N i d size Hl Hs).
  unfold spec_width, proportion, dict_getitem. rewrite Hs. simpl.
  destruct (py_mul_int size N) as [x|] eqn:Hx; simpl; [|reflexivity].
  exact (py_floor_int size N x Hn HN Hx).
Qed.

(** ** Totality *)

(** C5 (as amended): on a constructed partition [__contains__] returns a
    boolean for every string; [choose_variant] returns the name of an
    outcome or [None] for every integer when both variants have a name
    and both products of a size and the bucket count are finite numbers,
    as they are for sizes that are valid non-negative floats and a bucket
    count that is at least 1 and below [2^52]. *)
Theorem queries_total v N vp d0 d1 :
  __init__ v N = Ok vp -> v = Some [d0; d1] ->
  (forall s, returns (__contains__ vp s)) /\
  (forall n0 n1 s0 s1,
     d0 !! "name" = Some n0 -> d1 !! "name" = Some n1 ->
     d0 !! "size" = Some s0 -> d1 !! "size" = Some s1 ->
     finite_product s0 N -> finite_product s1 N ->
     forall b, choose_variant vp b = Ok n0 \/ choose_variant vp b = Ok n1 \/
               choose_variant vp b = Ok VNone) /\
  (forall s0 s1,
     d0 !! "size" = Some s0 -> d1 !! "size" = Some s1 ->
     nonneg_float s0 -> nonneg_float s1 -> 1 <= N < 2 ^ 52 ->
     finite_product s0 N /\ finite_product s1 N).
Proof.
  intros Hinit ->. apply init_Ok_iff in Hinit as [-> Hacc]. split; [|split].
  - intros s. rewrite contains_eq. unfold returns. eauto.
  - intros n0 n1 s0 s1 Hn0 Hn1 Hs0 Hs1 Hf0 Hf1 b.
    destruct (finite_product_width [d0; d1] N 0 d0 s0 eq_refl Hs0 Hf0) as (w0 & Hw0).
    destruct (finite_product_width [d0; d1] N 1 d1 s1 eq_refl Hs1 Hf1) as (w1 & Hw1).
    rewrite (choose_by_widths d0 d1 N w0 w1 b Hw0 Hw1).
    unfold name, dict_getitem. rewrite Hn0, Hn1.
    destruct (b <? w0); [auto|]. destruct (b >=? N - w1); auto.
  - intros s0 s1 Hs0 Hs1 Hf0 Hf1 HN.
    destruct s0 as [| |p0|]; simpl in Hf0; try tauto.
    destruct s1 as [| |p1|]; simpl in Hf1; try tauto.
    destruct (accepted_widths d0 d1 N p0 p1 Hacc Hs0 Hs1 Hf0 Hf1 HN)
      as (w0 & w1 & Hw0 & Hw1 & _).
    rewrite (width_float [d0; d1] N 0 d0 p0 eq_refl Hs0) in Hw0.
    rewrite (width_float [d0; d1] N 1 d1 p1 eq_refl Hs1) in Hw1.
    split; [exact (mul_int_finite p0 N w0 Hw0) | exact (mul_int_finite p1 N w1 Hw1)].
Qed.

(** ** The unassigned band *)

(** C7 (as amended): on a constructed partition with named outcomes whose
    sizes are valid non-negative floats with the float sum [1.0], and with
    a bucket count [N] that is at least 1 and below [2^52], the widths
    [w0] and [w1] add up to [N] or to [N - 1]: at most one index is left
    without assignment, the index [w0], and it is left exactly when
    [w0 + w1 = N - 1]; none is left when both exact products of a size
    and the bucket count are whole numbers.  With [(A, 0.5)], [(B, 0.5)]
    and 100 buckets every index from 0 to 99 gets A or B. *)
Theorem full_sum_gap v N vp d0 d1 n0 n1 p0 p1 :
  __init__ v N = Ok vp -> v = Some [d0; d1] ->
  d0 !! "name" = Some (VStr n0) -> d1 !! "name" = Some (VStr n1) ->
  d0 !! "size" = Some (VFloat p0) -> d1 !! "size" = Some (VFloat p1) ->
  nonneg_float (VFloat p0) -> nonneg_float (VFloat p1) ->
  Float.add p0 p1 = Float.one ->
  1 <= N < 2 ^ 52 ->
  (exists w0 w1,
     width vp 0 = Ok w0 /\ width vp 1 = Ok w1 /\
     0 <= w0 /\ 0 <= w1 /\ N - 1 <= w0 + w1 <= N /\
     (forall b, choose_variant vp b = Ok VNone <-> b = w0 /\ w0 + w1 = N - 1) /\
     (whole_product p0 N = true -> whole_product p1 N = true ->
      w0 + w1 = N /\
      forall b, choose_variant vp b = Ok (VStr n0) \/
                choose_variant vp b = Ok (VStr n1))) /\
  (forall b, 0 <= b < 100 ->
     let vp' := {| variants := Some [variant "A" (VFloat Float.half);
                                     variant "B" (VFloat Float.half)];
                   num_buckets := 100 |} in
     choose_variant vp' b = Ok (VStr "A") \/
     choose_variant vp' b = Ok (VStr "B")).
Proof.
  intros Hinit -> Hn0 Hn1 H0 H1 [Hv0 Hnn0] [Hv1 Hnn1] Hone HN.
  apply init_Ok_iff in Hinit as [-> Hacc]. split.
  - assert (Float.ltb Float.one (Float.add p0 p1) = false) as Hlt
      by (rewrite Hone; reflexivity).
    destruct (sum_scaled p0 p1 Hv0 Hv1 Hnn0 Hnn1 Hlt)
      as (c & Hc & He0 & He1 & Hsum).
    pose proof (sum_one_scaled p0 p1 c Hnn0 Hnn1 Hone Hc He0 He1) as Hlow.
    pose proof (pow2_pos c Hc) as HP.
    assert (0 <= Float.scaled p0 c) as Hs0.
    { destruct p0; simpl; try lia.
      all: apply Z.mul_nonneg_nonneg; [lia | apply Z.pow_nonneg; lia]. }
    assert (0 <= Float.scaled p1 c) as Hs1.
    { destruct p1; simpl; try lia.
      all: apply Z.mul_nonneg_nonneg; [lia | apply Z.pow_nonneg; lia]. }
    destruct (mul_int_disjoint p0 p1 N Hv0 Hv1 Hnn0 Hnn1 Hlt HN)
      as (w0 & w1 & Hw0 & Hw1 & Hp0 & Hp1 & Hle).
    set (x0 := Float.scaled p0 c) in *. set (x1 := Float.scaled p1 c) in *.
    assert (N - 1 <= w0 + w1) as Hge.
    { destruct (Z_le_gt_dec (N - 1) (w0 + w1)) as [|Hgap]; [assumption|exfalso].
      assert (x0 * N * 2 ^ 54 < (w0 + 1) * (2 ^ 54 - 1) * 2 ^ c) as Hx0.
      { destruct (Z_lt_le_dec (x0 * N * 2 ^ 54) ((w0 + 1) * (2 ^ 54 - 1) * 2 ^ c))
          as [|Hr]; [assumption|exfalso].
        pose proof (mul_int_reaches p0 N c (w0 + 1) w0 Hv0 Hnn0 ltac:(lia) Hc He0
                      ltac:(lia) Hw0 ltac:(lia) Hr). lia. }
      assert (x1 * N * 2 ^ 54 < (N - w0 - 1) * (2 ^ 54 - 1) * 2 ^ c) as Hx1.
      { destruct (Z_lt_le_dec (x1 * N * 2 ^ 54)
                    ((N - w0 - 1) * (2 ^ 54 - 1) * 2 ^ c))
          as [|Hr]; [assumption|exfalso].
        pose proof (mul_int_reaches p1 N c (N - w0 - 1) w1 Hv1 Hnn1 ltac:(lia) Hc
                      He1 ltac:(lia) Hw1 ltac:(lia) Hr). lia. }
      assert ((x0 + x1) * 2 ^ 54 * N < (2 ^ 54 - 1) * 2 ^ c * N) as Hsum' by lia.
      assert ((2 ^ 54 - 1) * 2 ^ c * N <= (x0 + x1) * 2 ^ 54 * N) as Hlow'
        by (apply Z.mul_le_mono_nonneg_r; lia).
      lia. }
    exists w0, w1.
    rewrite (width_float [d0; d1] N 0 d0 p0 eq_refl H0).
    rewrite (width_float [d0; d1] N 1 d1 p1 eq_refl H1).
    do 4 (split; [assumption|]). split; [lia|].
    assert (forall b,
      choose_variant {| variants := Some [d0; d1]; num_buckets := N |} b =
      if b <? w0 then Ok (VStr n0)
      else if b >=? N - w1 then Ok (VStr n1) else Ok VNone) as Hrule.
    { intros b. apply choose_named; try assumption.
      - rewrite (width_float [d0; d1] N 0 d0 p0 eq_refl H0). exact Hw0.
      - rewrite (width_float [d0; d1] N 1 d1 p1 eq_refl H1). exact Hw1. }
    split.
    + intros b. rewrite Hrule.
      destruct (Z.ltb_spec b w0); [split; [discriminate|lia]|].
      destruct (Z.geb_spec b (N - w1)); [split; [discriminate|lia]|].
      split; [lia | reflexivity].
    + intros Hwh0 Hwh1.
      pose proof (whole_product_width p0 N c w0 Hv0 Hnn0 ltac:(lia) Hc He0
                    ltac:(lia) Hw0 Hwh0) as Hk0.
      pose proof (whole_product_width p1 N c w1 Hv1 Hnn1 ltac:(lia) Hc He1
                    ltac:(lia) Hw1 Hwh1) as Hk1.
      assert (w0 + w1 = N) as Hfull.
      { destruct (Z.eq_dec (w0 + w1) N) as [|Hne]; [assumption|exfalso].
        assert (w0 + w1 = N - 1) as E by lia.
        assert ((2 ^ 54 - 1) * 2 ^ c * N <= (x0 + x1) * N * 2 ^ 54) as Hlow'
          by nia.
        assert ((x0 + x1) * N * 2 ^ 54 <= (N - 1) * 2 ^ c * 2 ^ 54) as Hup
          by (rewrite <- E; nia).
        assert ((2 ^ 54 - 1) * N * 2 ^ c <= (N - 1) * 2 ^ 54 * 2 ^ c) as Hc' by lia.
        assert ((2 ^ 54 - 1) * N <= (N - 1) * 2 ^ 54) as Hfin
          by (apply (Z.mul_le_mono_pos_r _ _ (2 ^ c)); assumption).
        lia. }
      split; [exact Hfull|]. intros b. rewrite Hrule.
      destruct (Z.ltb_spec b w0); [auto|].
      destruct (Z.geb_spec b (N - w1)); [auto|lia].
  - intros b Hb vp'.
    assert (choose_variant vp' b =
            if b <? 50 then Ok (VStr "A")
            else if b >=? 100 - 50 then Ok (VStr "B") else Ok VNone) as ->.
    { unfold vp'.
      rewrite (choose_by_widths _ _ 100 50 50) by (vm_compute; reflexivity).
      reflexivity. }
    destruct (Z.ltb_spec b 50); [auto|].
    destruct (Z.geb_spec b (100 - 50)); [auto|lia].
Qed.

(** ** A size of zero *)

Lemma width_zero_size l N i d size fN :
  l !! i = Some d -> d !! "size" = Some size -> is_zero_size size ->
  Float.of_int N = Ok fN ->
  width {| variants := Some l; num_buckets := N |} i = Ok 0.
Proof.
  intros Hl Hs Hz HfN. destruct size as [|[| |]|[s|s| |s m e]|]; simpl in Hz; try tauto.
  - rewrite (width_size l N i d (VInt 0) Hl Hs). reflexivity.
  - rewrite (width_float l N i d (S754_zero s) Hl Hs).
    exact (mul_int_zero s N fN HfN).
Qed.

(** C8 (as amended): on a constructed partition with two distinct names,
    an outcome whose size is zero has the width 0 (the bucket count being
    in the range of the floats) and its name is never returned for an
    index of the range [0 <= b < N]; with [(A, 0.0)], [(B, 1.0)] and 10
    buckets every index from 0 to 9 gets B. *)
Theorem zero_size_never_wins v N vp d0 d1 n0 n1 s0 s1 fN b :
  __init__ v N = Ok vp -> v = Some [d0; d1] ->
  d0 !! "name" = Some (VStr n0) -> d1 !! "name" = Some (VStr n1) -> n0 <> n1 ->
  d0 !! "size" = Some s0 -> d1 !! "size" = Some s1 ->
  Float.of_int N = Ok fN ->
  0 <= b < N ->
  (is_zero_size s0 ->
   width vp 0 = Ok 0 /\ choose_variant vp b <> Ok (VStr n0)) /\
  (is_zero_size s1 ->
   width vp 1 = Ok 0 /\ choose_variant vp b <> Ok (VStr n1)) /\
  (forall i, 0 <= i < 10 ->
     choose_variant
       {| variants := Some [variant "A" (VFloat Float.zero);
                            variant "B" (VFloat Float.one)];
          num_buckets := 10 |} i = Ok (VStr "B")).
Proof.
  intros Hinit -> Hn0 Hn1 Hne Hs0 Hs1 HfN Hb.
  apply init_Ok_iff in Hinit as [-> _].
  split; [|split].
  - intros Hz.
    pose proof (width_zero_size [d0; d1] N 0 d0 s0 fN eq_refl Hs0 Hz HfN) as Hw0.
    split; [exact Hw0|].
    unfold choose_variant. rewrite Hw0. simpl.
    destruct (Z.ltb_spec b 0); [lia|].
    destruct (width _ 1) as [w1|]; simpl; [|discriminate].
    destruct (b >=? N - w1); [|discriminate].
    unfold dict_getitem. rewrite Hn1. congruence.
  - intros Hz.
    pose proof (width_zero_size [d0; d1] N 1 d1 s1 fN eq_refl Hs1 Hz HfN) as Hw1.
    split; [exact Hw1|].
    unfold choose_variant. destruct (width _ 0) as [w0|]; simpl; [|discriminate].
    destruct (b <? w0).
    + unfold dict_getitem. rewrite Hn0. congruence.
    + rewrite Hw1. simpl. destruct (Z.geb_spec b (N - 0)); [lia|discriminate].
  - intros i Hi.
    rewrite (choose_by_widths _ _ 10 0 10) by (vm_compute; reflexivity).
    destruct (Z.ltb_spec i 0); [lia|].
    destruct (Z.geb_spec i (10 - 10)); [reflexivity|lia].
Qed.

(** ** Disjoint regions *)

(** C10 (as amended): for a constructed partition whose sizes are valid
    non-negative floats and whose bucket count is at least 1 and below
    [2^52], the widths are the floors of the specification and the low
    width is at most the bucket count less the high width: no index
    passes both tests of [choose_variant], and testing the high end
    first gives the same answer for every index. *)
Theorem regions_disjoint v N vp d0 d1 s0 s1 :
  __init__ v N = Ok vp -> v = Some [d0; d1] ->
  d0 !! "size" = Some s0 -> d1 !! "size" = Some s1 ->
  nonneg_float s0 -> nonneg_float s1 ->
  1 <= N < 2 ^ 52 ->
  exists w0 w1,
    spec_width d0 N = Ok w0 /\ spec_width d1 N = Ok w1 /\
    width vp 0 = Ok w0 /\ width vp 1 = Ok w1 /\
    w0 <= N - w1 /\
    (forall b, ~ (b < w0 /\ N - w1 <= b)) /\
    (forall b, choose_variant vp b = choose_variant_high_first vp b).
Proof.
  intros Hinit -> H0 H1 Hf0 Hf1 HN. apply init_Ok_iff in Hinit as [-> Hacc].
  destruct s0 as [| |p0|]; simpl in Hf0; try tauto.
  destruct s1 as [| |p1|]; simpl in Hf1; try tauto.
  destruct (accepted_widths d0 d1 N p0 p1 Hacc H0 H1 Hf0 Hf1 HN)
    as (w0 & w1 & Hw0 & Hw1 & Hp0 & Hp1 & Hsum).
  exists w0, w1.
  rewrite (spec_width_width [d0; d1] N 0 d0 (VFloat p0) eq_refl H0)
    by (simpl; tauto || lia).
  rewrite (spec_width_width [d0; d1] N 1 d1 (VFloat p1) eq_refl H1)
    by (simpl; tauto || lia).
  repeat split; try assumption; try lia.
  intros b. unfold choose_variant, choose_variant_high_first.
  rewrite Hw0, Hw1. simpl.
  destruct (Z.ltb_spec b w0); destruct (Z.geb_spec b (N - w1)); try reflexivity.
  lia.
Qed.

(** ** Growing the first outcome *)

(** C6 (as amended): take two constructed partitions with the same bucket
    count, at least 1 and below [2^52], the same names and the same size
    for the second outcome, all sizes being valid non-negative floats,
    the size of the first outcome being larger in the second partition.
    The low width does not shrink; every index that is below the low
    width or at or above the start of the high region gets the same
    answer from both; and an index whose answer changes had no
    assignment before and lies below the new low width. *)
Theorem resize_stable N dA dA' dB dB' pA pA' sB vp vp' :
  __init__ (Some [dA; dB]) N = Ok vp ->
  __init__ (Some [dA'; dB']) N = Ok vp' ->
  dA' !! "name" = dA !! "name" -> dB' !! "name" = dB !! "name" ->
  dA !! "size" = Some (VFloat pA) -> dA' !! "size" = Some (VFloat pA') ->
  dB !! "size" = Some sB -> dB' !! "size" = Some sB ->
  nonneg_float (VFloat pA) -> nonneg_float (VFloat pA') -> nonneg_float sB ->
  Float.ltb pA pA' = true ->
  1 <= N < 2 ^ 52 ->
  exists w0 w0' w1,
    width vp 0 = Ok w0 /\ width vp' 0 = Ok w0' /\
    width vp 1 = Ok w1 /\ width vp' 1 = Ok w1 /\
    w0 <= w0' /\
    forall b,
      (b < w0 \/ N - w1 <= b -> choose_variant vp' b = choose_variant vp b) /\
      (choose_variant vp' b <> choose_variant vp b ->
       choose_variant vp b = Ok VNone /\ w0 <= b < w0' /\ b < N - w1).
Proof.
  intros Hinit Hinit' HnA HnB HsA HsA' HsB HsB' HfA HfA' HfB Hlt HN.
  apply init_Ok_iff in Hinit as [-> Hacc].
  apply init_Ok_iff in Hinit' as [-> Hacc'].
  destruct sB as [| |pB|]; simpl in HfB; try tauto.
  destruct (accepted_widths dA dB N pA pB Hacc HsA HsB HfA HfB HN)
    as (w0 & w1 & Hw0 & Hw1 & Hp0 & Hp1 & Hsum).
  destruct (accepted_widths dA' dB' N pA' pB Hacc' HsA' HsB' HfA' HfB HN)
    as (w0' & w1' & Hw0' & Hw1' & Hp0' & Hp1' & Hsum').
  assert (w1' = w1) as ->.
  { rewrite (width_float [dA'; dB'] N 1 dB' pB eq_refl HsB') in Hw1'.
    rewrite (width_float [dA; dB] N 1 dB pB eq_refl HsB) in Hw1. congruence. }
  assert (w0 <= w0') as Hmono.
  { pose proof (accepted_floats dA' dB' pA' pB Hacc' HsA' HsB') as Hone.
    destruct HfA as [HvA HnnA]. destruct HfA' as [HvA' HnnA'].
    destruct HfB as [HvB HnnB].
    destruct (accepted_expo pA' pB HvA' HvB HnnA' HnnB Hone) as [He _].
    destruct (mul_int_mono pA pA' N HvA HvA' HnnA HnnA' Hlt He ltac:(lia))
      as (u & u' & Hu & Hu' & Hle).
    rewrite (width_float [dA; dB] N 0 dA pA eq_refl HsA) in Hw0.
    rewrite (width_float [dA'; dB'] N 0 dA' pA' eq_refl HsA') in Hw0'.
    assert (u = w0) by congruence. assert (u' = w0') by congruence. lia. }
  exists w0, w0', w1. do 5 (split; [assumption|]). intros b.
  rewrite (choose_by_widths dA dB N w0 w1 b Hw0 Hw1).
  rewrite (choose_by_widths dA' dB' N w0' w1 b Hw0' Hw1').
  unfold name, dict_getitem. rewrite HnA, HnB.
  destruct (Z.ltb_spec b w0); destruct (Z.ltb_spec b w0');
    destruct (Z.geb_spec b (N - w1)); try lia;
    (split; [intros Hb; try reflexivity; lia|]);
    intros Hdiff; try congruence.
  repeat split; lia.
Qed.

End Claims.

(** * Closed examples

    The configurations that separate the specification from the code, and
    the instances of the theorems above. *)

(** The literal [0.4] denotes the float nearest to 4/10, and [0.3] the
    float nearest to 3/10. *)
Lemma literals_nearest :
  Float.div (S754_finite false 4 0) (S754_finite false 10 0) = Float.f0_4 /\
  Float.div (S754_finite false 3 0) (S754_finite false 10 0) = Float.f0_3.
Proof. split; vm_compute; reflexivity. Qed.

(** C1, counterexample: with the sizes [-0.5] and [1.0] and one bucket the
    index [-1] gets A, since [int(-0.5)] is 0; the rule of the
    specification gives no assignment, since [floor(-0.5)] is [-1]. *)
Lemma floor_differs_below_zero :
  exists vp,
    __init__ (Some [variant "A" (VFloat Float.minus_half);
                    variant "B" (VFloat Float.one)]) 1 = Ok vp /\
    @choose_variant no_int_of_str vp (-1) = Ok (VStr "A") /\
    spec_chooseOutcome [variant "A" (VFloat Float.minus_half);
                        variant "B" (VFloat Float.one)] 1 (-1) = Ok VNone.
Proof. eexists. repeat split; vm_compute; reflexivity. Qed.

Lemma choose_variant_truncates_witness :
  @choose_variant no_int_of_str
    {| variants := Some [variant "A" (VFloat Float.f0_4);
                         variant "B" (VFloat Float.f0_3)];
       num_buckets := 1000 |} 399 =
  spec_chooseOutcome [variant "A" (VFloat Float.f0_4);
                      variant "B" (VFloat Float.f0_3)] 1000 399.
Proof.
  refine (proj2 (@choose_variant_truncates no_int_of_str
            (Some [variant "A" (VFloat Float.f0_4);
                   variant "B" (VFloat Float.f0_3)])
            1000 _ _ _ 399 _ eq_refl)
          (VFloat Float.f0_4) (VFloat Float.f0_3) _ _ _ _ _).
  - vm_compute. reflexivity.
  - vm_compute. reflexivity.
  - vm_compute. reflexivity.
  - reflexivity.
  - reflexivity.
  - lia.
Defined.

(** C3, counterexample: with a bucket count of zero the constructor
    succeeds, and what it returns breaks the invariant of a positive
    bucket count, while its outcomes are valid. *)
Lemma zero_buckets_not_fully_valid :
  exists vp,
    __init__ (Some [variant "A" (VFloat Float.f0_4);
                    variant "B" (VFloat Float.f0_3)]) 0 = Ok vp /\
    outcomes_valid (variants vp) = true /\
    fully_valid vp = false.
Proof. eexists. repeat split; vm_compute; reflexivity. Qed.

Lemma init_iff_outcomes_valid_witness :
  typed_sizes (Some [variant "A" (VFloat Float.one);
                     variant "B" (VFloat Float.half)]) /\
  outcomes_valid (Some [variant "A" (VFloat Float.one);
                        variant "B" (VFloat Float.half)]) = false /\
  raises_ValueError
    (__init__ (Some [variant "A" (VFloat Float.one);
                     variant "B" (VFloat Float.half)]) 1000).
Proof.
  assert (typed_sizes (Some [variant "A" (VFloat Float.one);
                             variant "B" (VFloat Float.half)])) as Ht.
  { intros d0 d1 s0 s1 [= <- <-] H0 H1.
    vm_compute in H0. vm_compute in H1.
    injection H0 as <-. injection H1 as <-.
    split; [exact I|]. split; [exact I|]. intros _ _.
    eexists. split; [vm_compute; reflexivity | discriminate]. }
  split; [exact Ht|]. split; [vm_compute; reflexivity|].
  apply (proj2 (proj1 (init_iff_outcomes_valid _ 1000 Ht))).
  vm_compute. reflexivity.
Defined.

(** A sum that is NaN is neither below [0.0] nor above [1.0]: the
    constructor lets it through, although it is not within [0, 1]. *)
Lemma nan_sum_accepted :
  __init__ (Some [variant "A" (VFloat Float.nan);
                  variant "B" (VFloat Float.half)]) 1000 =
    Ok {| variants := Some [variant "A" (VFloat Float.nan);
                            variant "B" (VFloat Float.half)];
          num_buckets := 1000 |} /\
  py_add (VFloat Float.nan) (VFloat Float.half) = Ok (VFloat Float.nan) /\
  within_unit (VFloat Float.nan) = false.
Proof. repeat split; vm_compute; reflexivity. Qed.

(** A size that is a [str] raises [TypeError]. *)
Lemma str_size_raises :
  __init__ (Some [variant "A" (VStr "0.4");
                  variant "B" (VStr "0.3")]) 1000 = Raise TypeError.
Proof. vm_compute. reflexivity. Qed.

(** C4, counterexample: a bucket count of zero, or a negative one, is
    accepted. *)
Lemma zero_buckets_accepted :
  __init__ (Some [variant "A" (VFloat Float.half);
                  variant "B" (VFloat Float.half)]) 0 =
    Ok {| variants := Some [variant "A" (VFloat Float.half);
                            variant "B" (VFloat Float.half)];
          num_buckets := 0 |} /\
  __init__ (Some [variant "A" (VFloat Float.half);
                  variant "B" (VFloat Float.half)]) (-5) =
    Ok {| variants := Some [variant "A" (VFloat Float.half);
                            variant "B" (VFloat Float.half)];
          num_buckets := -5 |}.
Proof. split; vm_compute; reflexivity. Qed.

Lemma init_ignores_num_buckets_witness :
  num_buckets
    {| variants := Some [variant "A" (VFloat Float.half);
                         variant "B" (VFloat Float.half)];
       num_buckets := 1000 |} = 1000 /\
  __init__ (Some [variant "A" (VFloat Float.half);
                  variant "B" (VFloat Float.half)]) 0 =
    Ok {| variants := Some [variant "A" (VFloat Float.half);
                            variant "B" (VFloat Float.half)];
          num_buckets := 0 |}.
Proof.
  refine (proj2 (init_ignores_num_buckets
            (Some [variant "A" (VFloat Float.half);
                   variant "B" (VFloat Float.half)]) 1000 0 _ _)).
  vm_compute. reflexivity.
Defined.

(** C5, counterexample: variants without a name pass the constructor, and
    [choose_variant] then raises [KeyError]. *)
Lemma missing_name_raises :
  exists vp,
    __init__ (Some [ {[ "size" := VFloat Float.half ]};
                     {[ "size" := VFloat Float.half ]} ]) 1000 = Ok vp /\
    @choose_variant no_int_of_str vp 0 = Raise (KeyError "name").
Proof. eexists. split; vm_compute; reflexivity. Qed.

(** Two more ways in which [choose_variant] fails after the constructor
    has accepted: a NaN size, and a bucket count beyond the floats. *)
Lemma nan_size_raises :
  exists vp,
    __init__ (Some [variant "A" (VFloat Float.nan);
                    variant "B" (VFloat Float.half)]) 1000 = Ok vp /\
    @choose_variant no_int_of_str vp 0 =
      Raise (ValueError "cannot convert float NaN to integer").
Proof. eexists. split; vm_compute; reflexivity. Qed.

Lemma huge_bucket_count_raises :
  exists vp,
    __init__ (Some [variant "A" (VFloat Float.half);
                    variant "B" (VFloat Float.half)]) (10 ^ 400) = Ok vp /\
    @choose_variant no_int_of_str vp 0 = Raise OverflowError.
Proof. eexists. split; vm_compute; reflexivity. Qed.

Lemma queries_total_witness :
  returns
    (__contains__
       {| variants := Some [variant "A" (VFloat Float.half);
                            variant "B" (VFloat Float.half)];
          num_buckets := 1000 |} "A") /\
  (let vp := {| variants := Some [variant "A" (VFloat Float.half);
                                  variant "B" (VFloat Float.half)];
                num_buckets := 1000 |} in
   @choose_variant no_int_of_str vp 7 = Ok (VStr "A") \/
   @choose_variant no_int_of_str vp 7 = Ok (VStr "B") \/
   @choose_variant no_int_of_str vp 7 = Ok VNone).
Proof.
  assert (finite_product (VFloat Float.half) 1000) as Hf.
  { eexists. split; vm_compute; reflexivity. }
  destruct (@queries_total no_int_of_str
              (Some [variant "A" (VFloat Float.half);
                     variant "B" (VFloat Float.half)]) 1000
              {| variants := Some [variant "A" (VFloat Float.half);
                                   variant "B" (VFloat Float.half)];
                 num_buckets := 1000 |}
              (variant "A" (VFloat Float.half))
              (variant "B" (VFloat Float.half))
              ltac:(vm_compute; reflexivity) eq_refl) as [Hc [Hq _]].
  split; [apply Hc|].
  apply (Hq (VStr "A") (VStr "B") (VFloat Float.half) (VFloat Float.half));
    try reflexivity; exact Hf.
Defined.

(** C6, counterexample: with [2^54 + 4] buckets and B at [0.75], growing
    A from [0.125] to [0.25] moves the index [2^52] from B to A: the
    product [0.75 * (2^54 + 4)] is rounded up to the next float, so that
    the two widths of the second partition add up to one more than the
    bucket count. *)
Lemma resize_moves_assigned_index :
  exists vp vp',
    __init__ (Some [variant "A" (VFloat Float.eighth);
                    variant "B" (VFloat Float.three_quarters)]) (2 ^ 54 + 4)
      = Ok vp /\
    __init__ (Some [variant "A" (VFloat Float.quarter);
                    variant "B" (VFloat Float.three_quarters)]) (2 ^ 54 + 4)
      = Ok vp' /\
    Float.ltb Float.eighth Float.quarter = true /\
    @choose_variant no_int_of_str vp (2 ^ 52) = Ok (VStr "B") /\
    @choose_variant no_int_of_str vp' (2 ^ 52) = Ok (VStr "A").
Proof. do 2 eexists. repeat split; vm_compute; reflexivity. Qed.

Lemma resize_stable_witness :
  exists w0 w0' w1,
    let vp := {| variants := Some [variant "A" (VFloat Float.f0_3);
                                   variant "B" (VFloat Float.f0_3)];
                 num_buckets := 1000 |} in
    let vp' := {| variants := Some [variant "A" (VFloat Float.f0_4);
                                    variant "B" (VFloat Float.f0_3)];
                  num_buckets := 1000 |} in
    @width no_int_of_str vp 0 = Ok w0 /\ @width no_int_of_str vp' 0 = Ok w0' /\
    @width no_int_of_str vp 1 = Ok w1 /\ @width no_int_of_str vp' 1 = Ok w1 /\
    w0 <= w0' /\
    forall b,
      (b < w0 \/ 1000 - w1 <= b ->
       @choose_variant no_int_of_str vp' b = @choose_variant no_int_of_str vp b) /\
      (@choose_variant no_int_of_str vp' b <> @choose_variant no_int_of_str vp b ->
       @choose_variant no_int_of_str vp b = Ok VNone /\
       w0 <= b < w0' /\ b < 1000 - w1).
Proof.
  apply (@resize_stable no_int_of_str 1000
           (variant "A" (VFloat Float.f0_3)) (variant "A" (VFloat Float.f0_4))
           (variant "B" (VFloat Float.f0_3)) (variant "B" (VFloat Float.f0_3))
           Float.f0_3 Float.f0_4 (VFloat Float.f0_3));
    try (vm_compute; reflexivity); try (split; reflexivity); lia.
Defined.

(** C7, counterexample: the sizes [0.25] and [0.75] sum to exactly [1.0],
    yet with 10 buckets the widths are 2 and 7 and the index 2 has no
    assignment. *)
Lemma full_sum_leaves_a_gap :
  exists vp,
    py_add (VFloat Float.quarter) (VFloat Float.three_quarters) =
      Ok (VFloat Float.one) /\
    __init__ (Some [variant "A" (VFloat Float.quarter);
                    variant "B" (VFloat Float.three_quarters)]) 10 = Ok vp /\
    @choose_variant no_int_of_str vp 2 = Ok VNone.
Proof. eexists. repeat split; vm_compute; reflexivity. Qed.

Lemma full_sum_gap_witness :
  exists w0 w1,
    let vp := {| variants := Some [variant "A" (VFloat Float.quarter);
                                   variant "B" (VFloat Float.three_quarters)];
                 num_buckets := 10 |} in
    @width no_int_of_str vp 0 = Ok w0 /\ @width no_int_of_str vp 1 = Ok w1 /\
    0 <= w0 /\ 0 <= w1 /\ 10 - 1 <= w0 + w1 <= 10 /\
    (forall b, @choose_variant no_int_of_str vp b = Ok VNone
               <-> b = w0 /\ w0 + w1 = 10 - 1) /\
    (whole_product Float.quarter 10 = true ->
     whole_product Float.three_quarters 10 = true ->
     w0 + w1 = 10 /\
     forall b, @choose_variant no_int_of_str vp b = Ok (VStr "A") \/
               @choose_variant no_int_of_str vp b = Ok (VStr "B")).
Proof.
  apply (proj1 (@full_sum_gap no_int_of_str
           (Some [variant "A" (VFloat Float.quarter);
                  variant "B" (VFloat Float.three_quarters)]) 10 _
           (variant "A" (VFloat Float.quarter))
           (variant "B" (VFloat Float.three_quarters)) "A" "B"
           Float.quarter Float.three_quarters
           ltac:(vm_compute; reflexivity) eq_refl eq_refl eq_refl eq_refl eq_refl
           ltac:(split; reflexivity) ltac:(split; reflexivity)
           ltac:(vm_compute; reflexivity) ltac:(lia))).
Defined.

(** C8, counterexample: a size of [0.0] gives the width 0, and the index
    [-1], which is below 0, still gets A. *)
Lemma zero_size_wins_below_range :
  exists vp,
    __init__ (Some [variant "A" (VFloat Float.zero);
                    variant "B" (VFloat Float.one)]) 10 = Ok vp /\
    @width no_int_of_str vp 0 = Ok 0 /\
    @choose_variant no_int_of_str vp (-1) = Ok (VStr "A").
Proof. eexists. repeat split; vm_compute; reflexivity. Qed.

Lemma zero_size_never_wins_witness :
  let vp := {| variants := Some [variant "A" (VFloat Float.zero);
                                 variant "B" (VFloat Float.one)];
               num_buckets := 10 |} in
  @width no_int_of_str vp 0 = Ok 0 /\
  @choose_variant no_int_of_str vp 3 <> Ok (VStr "A").
Proof.
  refine (proj1 (@zero_size_never_wins no_int_of_str
            (Some [variant "A" (VFloat Float.zero);
                   variant "B" (VFloat Float.one)]) 10 _
            (variant "A" (VFloat Float.zero)) (variant "B" (VFloat Float.one))
            "A" "B" (VFloat Float.zero) (VFloat Float.one) _ 3
            _ eq_refl eq_refl eq_refl _ eq_refl eq_refl _ _) I).
  - vm_compute. reflexivity.
  - discriminate.
  - vm_compute. reflexivity.
  - lia.
Defined.

Lemma contains_iff_name_witness :
  exists r,
    __contains__
      {| variants := Some [variant "control" (VFloat Float.zero);
                           variant "treatment" (VFloat Float.one)];
         num_buckets := 1000 |} "control" = Ok r /\
    (r = true <->
       variant "control" (VFloat Float.zero) !! "name" = Some (VStr "control") \/
       variant "treatment" (VFloat Float.one) !! "name" = Some (VStr "control")) /\
    (forall v' N' vp' e0 e1,
       __init__ v' N' = Ok vp' -> v' = Some [e0; e1] ->
       e0 !! "name" = variant "control" (VFloat Float.zero) !! "name" ->
       e1 !! "name" = variant "treatment" (VFloat Float.one) !! "name" ->
       __contains__ vp' "control" = Ok r).
Proof.
  apply (contains_iff_name
           (Some [variant "control" (VFloat Float.zero);
                  variant "treatment" (VFloat Float.one)]) 1000).
  - vm_compute. reflexivity.
  - reflexivity.
Defined.

(** The match is exact: a name in another case is not contained. *)
Lemma contains_is_case_sensitive :
  __contains__
    {| variants := Some [variant "control" (VFloat Float.zero);
                         variant "treatment" (VFloat Float.one)];
       num_buckets := 1000 |} "Control" = Ok false.
Proof. vm_compute. reflexivity. Qed.

(** C10, counterexample: the sizes [0.25] and [0.75] sum to exactly [1.0];
    with [2^54 + 4] buckets the product [0.75 * (2^54 + 4)] is rounded up
    to the next float and the widths are [2^52 + 1] and [3 * 2^52 + 4],
    one more than the bucket count together, so that the index [2^52]
    passes both tests and the order of the tests decides its answer. *)
Lemma regions_overlap :
  exists vp,
    __init__ (Some [variant "A" (VFloat Float.quarter);
                    variant "B" (VFloat Float.three_quarters)]) (2 ^ 54 + 4)
      = Ok vp /\
    py_add (VFloat Float.quarter) (VFloat Float.three_quarters)
      = Ok (VFloat Float.one) /\
    spec_width (variant "A" (VFloat Float.quarter)) (2 ^ 54 + 4)
      = Ok (2 ^ 52 + 1) /\
    spec_width (variant "B" (VFloat Float.three_quarters)) (2 ^ 54 + 4)
      = Ok (3 * 2 ^ 52 + 4) /\
    @width no_int_of_str vp 0 = Ok (2 ^ 52 + 1) /\
    @width no_int_of_str vp 1 = Ok (3 * 2 ^ 52 + 4) /\
    (2 ^ 52 <? 2 ^ 52 + 1) = true /\
    (2 ^ 52 >=? 2 ^ 54 + 4 - (3 * 2 ^ 52 + 4)) = true /\
    @choose_variant no_int_of_str vp (2 ^ 52) = Ok (VStr "A") /\
    @choose_variant_high_first no_int_of_str vp (2 ^ 52) = Ok (VStr "B").
Proof. eexists. repeat split; vm_compute; reflexivity. Qed.

(** Sizes of both signs can overlap with few buckets: [-0.000976562499999889]
    and [1.0009765625] have the float sum [1.0], and with 1024 buckets the
    widths are 0 and 1025, so that the index [-1] passes both tests. *)
Lemma negative_size_overlap :
  exists vp,
    __init__ (Some [variant "A" (VFloat (S754_finite true 9007199254739968 (-63)));
                    variant "B" (VFloat (S754_finite false 4507997673881600 (-52)))])
      1024 = Ok vp /\
    @width no_int_of_str vp 0 = Ok 0 /\
    @width no_int_of_str vp 1 = Ok 1025 /\
    @choose_variant no_int_of_str vp (-1) = Ok (VStr "A") /\
    @choose_variant_high_first no_int_of_str vp (-1) = Ok (VStr "B").
Proof. eexists. repeat split; vm_compute; reflexivity. Qed.

Lemma regions_disjoint_witness :
  exists w0 w1,
    let vp := {| variants := Some [variant "A" (VFloat Float.f0_4);
                                   variant "B" (VFloat Float.f0_3)];
                 num_buckets := 1000 |} in
    spec_width (variant "A" (VFloat Float.f0_4)) 1000 = Ok w0 /\
    spec_width (variant "B" (VFloat Float.f0_3)) 1000 = Ok w1 /\
    @width no_int_of_str vp 0 = Ok w0 /\ @width no_int_of_str vp 1 = Ok w1 /\
    w0 <= 1000 - w1 /\
    (forall b, ~ (b < w0 /\ 1000 - w1 <= b)) /\
    (forall b, @choose_variant no_int_of_str vp b =
               @choose_variant_high_first no_int_of_str vp b).
Proof.
  apply (@regions_disjoint no_int_of_str
           (Some [variant "A" (VFloat Float.f0_4);
                  variant "B" (VFloat Float.f0_3)]) 1000 _
           (variant "A" (VFloat Float.f0_4)) (variant "B" (VFloat Float.f0_3))
           (VFloat Float.f0_4) (VFloat Float.f0_3));
    try (vm_compute; reflexivity); try (split; reflexivity); lia.
Defined.

(** * Further properties of the class *)

(** ** More on the rounding *)

Lemma rne_half_even c n :
  0 < n -> 0 <= c -> Z.even c = true -> rne (c * 2 ^ n + 2 ^ (n - 1)) n = c.
Proof.
  intros Hn Hc He. pose proof (pow2_pos (n - 1) ltac:(lia)) as HP.
  assert (2 ^ n = 2 * 2 ^ (n - 1)) as E2.
  { replace n with (1 + (n - 1)) at 1 by lia. rewrite Z.pow_add_r by lia.
    reflexivity. }
  assert ((c * 2 ^ n + 2 ^ (n - 1)) / 2 ^ n = c) as Hq.
  { symmetry. apply (Z.div_unique_pos _ _ c (2 ^ (n - 1))); lia. }
  assert ((c * 2 ^ n + 2 ^ (n - 1)) mod 2 ^ n = 2 ^ (n - 1)) as Hr.
  { symmetry. apply (Z.mod_unique_pos _ _ c (2 ^ (n - 1))); lia. }
  unfold rne. destruct (Z.leb_spec n 0); [lia|]. rewrite Hq, Hr, He.
  destruct (Z.compare_spec (2 * 2 ^ (n - 1)) (2 ^ n)); lia.
Qed.

Lemma ltb_one_small p e :
  e < -52 \/ (e = -52 /\ Z.pos p <= 2 ^ 52) ->
  Float.ltb Float.one (S754_finite false p e) = false.
Proof.
  unfold Float.ltb, SFltb, Float.one, SFcompare. intros He.
  destruct (Z.compare_spec (-52) e) as [<-|Hlt|Hgt]; [|lia|reflexivity].
  rewrite Pos.compare_cont_spec. unfold Pos.switch_Eq.
  rewrite Pos2Z.inj_compare.
  change (Z.pos 4503599627370496) with (2 ^ 52).
  destruct (Z.compare_spec (2 ^ 52) (Z.pos p)); try reflexivity. lia.
Qed.

(** A sum of at most [1 + 2^-53] rounds to a float that is at most [1.0]. *)
Lemma round_one_le r S ez :
  0 < S ->
  rounds_to r false (rne S (fmt_exp S ez - ez)) (fmt_exp S ez) ->
  ez <= 0 -> S * 2 ^ 53 <= (2 ^ 53 + 1) * 2 ^ (- ez) ->
  Float.ltb Float.one r = false.
Proof.
  intros HS Hr Hez Hb. pose proof (fmt_exp_eq S ez) as Hk.
  pose proof (Zdigits2_bounds S HS) as [Hlo Hhi].
  assert (0 < Zdigits2 S) as Hd by (destruct S; simpl in *; lia).
  pose proof (pow2_pos (- ez) ltac:(lia)) as HPz.
  assert (Zdigits2 S <= - ez + 1) as Hdig.
  { apply Zdigits2_le; [lia|]. split; [lia|].
    replace (- ez + 1) with (1 + - ez) by lia. rewrite Z.pow_add_r by lia.
    change (2 ^ 1) with 2. nia. }
  set (k := fmt_exp S ez) in *. set (a := rne S (k - ez)) in *.
  assert (k <= -52) as Hk52 by lia.
  assert (k = -52 -> a <= 2 ^ 52) as Ha52.
  { intros E. subst a. rewrite E.
    destruct (Z_le_gt_dec (-52 - ez) 0) as [Hn|Hn].
    - rewrite rne_exact_shift by assumption.
      pose proof (pow2_pos (- (-52 - ez)) ltac:(lia)) as HP.
      assert (2 ^ (- ez) * 2 ^ (- (-52 - ez)) = 2 ^ 52) as E2.
      { rewrite <- Z.pow_add_r by lia. f_equal. lia. }
      assert (S * 2 ^ (- (-52 - ez)) * 2 ^ 53 <= (2 ^ 53 + 1) * 2 ^ 52) as Hs
        by (rewrite <- E2; nia).
      remember (S * 2 ^ (- (-52 - ez))) as A. clear - Hs. lia.
    - apply Z.le_trans
        with (rne (2 ^ 52 * 2 ^ (-52 - ez) + 2 ^ (-52 - ez - 1)) (-52 - ez));
        [|rewrite rne_half_even; [lia|lia|lia|reflexivity]].
      apply rne_mono.
      pose proof (pow2_pos (-52 - ez - 1) ltac:(lia)) as HP.
      assert (2 ^ (-52 - ez) = 2 * 2 ^ (-52 - ez - 1)) as E1.
      { replace (-52 - ez) with (1 + (-52 - ez - 1)) at 1 by lia.
        rewrite Z.pow_add_r by lia. reflexivity. }
      assert (2 ^ (- ez) = 2 ^ 52 * 2 ^ (-52 - ez)) as E2.
      { rewrite <- Z.pow_add_r by lia. f_equal. lia. }
      rewrite E2, E1 in Hb. rewrite E1.
      remember (2 ^ (-52 - ez - 1)) as Q. clear - Hb HP. lia. }
  destruct Hr as [[_ ->]|(p & e2 & -> & Hrep)]; [reflexivity|].
  assert (e2 <= 971) as He2 by (destruct Hrep as [(_ & -> & _)|(_ & _ & ->)]; lia).
  destruct (Z.leb_spec e2 971); [|lia].
  apply ltb_one_small.
  destruct Hrep as [(Hp & -> & Ha)|(Ha & Hp & ->)].
  - destruct (Z.eq_dec k (-52)) as [E|E]; [|left; lia].
    right. split; [exact E|]. rewrite Hp. apply Ha52. exact E.
  - destruct (Z.eq_dec k (-52)) as [E|E].
    + specialize (Ha52 E). lia.
    + destruct (Z.eq_dec k (-53)) as [E'|E']; [|left; lia].
      right. split; [lia|]. rewrite Hp. lia.
Qed.

Lemma one_le_add m0 e0 m1 e1 :
  let ez := Z.min e0 e1 in
  ez <= 0 ->
  (Z.pos m0 * 2 ^ (e0 - ez) + Z.pos m1 * 2 ^ (e1 - ez)) * 2 ^ 53
    <= (2 ^ 53 + 1) * 2 ^ (- ez) ->
  Float.ltb Float.one
    (Float.add (S754_finite false m0 e0) (S754_finite false m1 e1)) = false.
Proof.
  intros ez Hez Hb. unfold Float.add, SFadd. fold ez.
  destruct (shl_align_spec m0 e0 ez) as (z0 & Ez0 & Hz0).
  destruct (shl_align_spec m1 e1 ez) as (z1 & Ez1 & Hz1).
  rewrite Ez0, Ez1. simpl fst. simpl cond_Zopp.
  rewrite (Z.min_l ez e0) in Hz0 by lia. rewrite (Z.min_l ez e1) in Hz1 by lia.
  rewrite <- Hz0, <- Hz1 in Hb.
  change (Z.pos z0 + Z.pos z1) with (Z.pos (z0 + z1)) in *.
  apply (round_one_le (binary_round 53 1024 false (z0 + z1) ez)
           (Z.pos (z0 + z1)) ez ltac:(lia)); [|exact Hez|exact Hb].
  apply binary_round_rounds.
Qed.

(** The sum of two non-negative floats is not negative. *)
Lemma add_nonneg_not_lt p0 p1 :
  Float.nonneg p0 = true -> Float.nonneg p1 = true ->
  Float.ltb (Float.add p0 p1) Float.zero = false.
Proof.
  intros Hn0 Hn1.
  destruct p0 as [s0|s0| |[|] m0 e0]; try discriminate;
    destruct p1 as [s1|s1| |[|] m1 e1]; try discriminate.
  - destruct s0, s1; reflexivity.
  - reflexivity.
  - reflexivity.
  - unfold Float.add, SFadd.
    destruct (shl_align_spec m0 e0 (Z.min e0 e1)) as (z0 & Ez0 & Hz0).
    destruct (shl_align_spec m1 e1 (Z.min e0 e1)) as (z1 & Ez1 & Hz1).
    rewrite Ez0, Ez1. simpl fst. simpl cond_Zopp.
    change (Float.ltb (binary_round 53 1024 false (z0 + z1) (Z.min e0 e1))
              Float.zero = false).
    destruct (binary_round_rounds false (z0 + z1) (Z.min e0 e1))
      as [[_ ->]|(p & e2 & -> & _)]; [reflexivity|].
    destruct (e2 <=? 971); reflexivity.
Qed.

Lemma scaled_shift x c j :
  0 <= Float.expo x + c -> 0 <= j ->
  Float.scaled x (c + j) = Float.scaled x c * 2 ^ j.
Proof.
  intros Hc Hj. destruct x as [s|s| |s m e]; simpl in *; try reflexivity.
  rewrite Z.add_assoc, Z.pow_add_r by lia. lia.
Qed.

Lemma sum_rounds_within_scale p0 p1 c :
  0 <= c -> 0 <= Float.expo p0 + c -> 0 <= Float.expo p1 + c ->
  (Float.scaled p0 c + Float.scaled p1 c) * 2 ^ 53 <= (2 ^ 53 + 1) * 2 ^ c <->
  sum_rounds_within p0 p1 = true.
Proof.
  intros Hc H0 H1. unfold sum_rounds_within.
  set (c0 := Z.max 0 (- Z.min (Float.expo p0) (Float.expo p1))).
  rewrite Z.leb_le.
  replace c with (c0 + (c - c0)) by lia.
  rewrite !scaled_shift by lia. rewrite Z.pow_add_r by lia.
  pose proof (pow2_pos (c - c0) ltac:(lia)) as HP.
  remember (2 ^ (c - c0)) as J. remember (2 ^ c0) as C0.
  remember (Float.scaled p0 c0) as A. remember (Float.scaled p1 c0) as B.
  clear - HP. split; nia.
Qed.

Lemma valid_le_one s m e c :
  Float.valid (S754_finite s m e) = true ->
  0 <= c -> 0 <= e + c ->
  Z.pos m * 2 ^ (e + c) * 2 ^ 53 <= (2 ^ 53 + 1) * 2 ^ c ->
  e < -52 \/ (e = -52 /\ Z.pos m <= 2 ^ 52).
Proof.
  intros (Hm & He & Hnorm)%valid_finite Hc Hec Hb.
  destruct (Z_lt_ge_dec e (-52)) as [|Hge]; [left; assumption|right].
  specialize (Hnorm ltac:(lia)).
  pose proof (pow2_pos c Hc) as HPc.
  destruct (Z_lt_ge_dec c 52) as [Hsmall|Hc52].
  2:{ assert (2 ^ (e + c) = 2 ^ (e + 52) * 2 ^ (c - 52)) as E.
    { rewrite <- Z.pow_add_r by lia. f_equal. lia. }
    assert (2 ^ c = 2 ^ 52 * 2 ^ (c - 52)) as Ec.
    { rewrite <- Z.pow_add_r by lia. f_equal. lia. }
    pose proof (pow2_pos (c - 52) ltac:(lia)) as HP.
    pose proof (pow2_pos (e + 52) ltac:(lia)) as HP'.
    rewrite E, Ec in Hb.
    assert (Z.pos m * 2 ^ (e + 52) * 2 ^ 53 <= (2 ^ 53 + 1) * 2 ^ 52) as Hb' by nia.
    destruct (Z.eq_dec e (-52)) as [->|Hne].
    + split; [reflexivity|]. change (2 ^ (-52 + 52)) with 1 in Hb'. lia.
    + exfalso. assert (2 <= 2 ^ (e + 52)).
      { change 2 with (2 ^ 1) at 1. apply Z.pow_le_mono_r; lia. }
      nia. }
  exfalso.
  assert (2 ^ c <= 2 ^ 51) by (apply Z.pow_le_mono_r; lia).
  pose proof (pow2_pos (e + c) ltac:(lia)). nia.
Qed.


Lemma ztrunc_gt a k c :
  c <= k -> c <= 0 -> a * 2 ^ (k - c) < (ztrunc a k + 1) * 2 ^ (- c).
Proof.
  intros Hk Hc. rewrite (ztrunc_as_div a k c) by assumption.
  pose proof (pow2_pos (- c) ltac:(lia)) as HP.
  pose proof (Z.div_mod (a * 2 ^ (k - c)) (2 ^ (- c)) ltac:(lia)) as Hd.
  pose proof (Z.mod_pos_bound (a * 2 ^ (k - c)) (2 ^ (- c)) HP) as Hm.
  nia.
Qed.

(** The integer part of the nearest float is less than one below the
    value, up to the relative error [2^-53]. *)
Lemma fwidth_lower M E :
  0 < M -> E <= 0 ->
  M * (2 ^ 53 - 1) < (fwidth M E + 1) * 2 ^ (- E) * 2 ^ 53.
Proof.
  intros HM HE. pose proof (Zdigits2_bounds M HM) as [Hlo Hhi].
  assert (0 < Zdigits2 M) as Hd by (destruct M; simpl in *; lia).
  pose proof (fwidth_nonneg M E ltac:(lia)) as Hw0.
  pose proof (pow2_pos (- E) ltac:(lia)) as HPE.
  unfold fwidth in *. pose proof (fmt_exp_eq M E) as Hk.
  set (k := fmt_exp M E) in *. set (a := rne M (k - E)) in *.
  destruct (Z_le_gt_dec k E) as [Hle|Hgt].
  - pose proof (ztrunc_gt a k k ltac:(lia) ltac:(lia)) as Hz.
    rewrite Z.sub_diag in Hz. simpl in Hz. rewrite Z.mul_1_r in Hz.
    subst a. rewrite rne_exact_shift in Hz |- * by lia.
    replace (- (k - E)) with (E - k) in * by lia.
    replace (- k) with (- E + (E - k)) in Hz by lia.
    rewrite Z.pow_add_r in Hz by lia.
    pose proof (pow2_pos (E - k) ltac:(lia)) as HP. nia.
  - pose proof (ztrunc_gt a k E ltac:(lia) HE) as Hz.
    destruct (Z_le_gt_dec (-1074) (Zdigits2 M + E - 53)) as [Hn|Hs].
    + pose proof (rne_near M (k - E) ltac:(lia)) as Hnear. fold a in Hnear.
      assert (2 ^ 52 * 2 ^ (k - E) <= M) as Hbig.
      { rewrite <- Z.pow_add_r by lia.
        replace (52 + (k - E)) with (Zdigits2 M - 1) by lia. assumption. }
      pose proof (pow2_pos (k - E) ltac:(lia)) as HP. lia.
    + assert (M < 2 ^ (- E)) as Hsmall.
      { apply Z.lt_le_trans with (1 := Hhi). apply Z.pow_le_mono_r; lia. }
      set (w := ztrunc a k) in *. nia.
Qed.

Lemma mul_int_lower x N c w :
  Float.valid x = true -> Float.nonneg x = true ->
  0 < N < 2 ^ 53 -> 0 <= c -> 0 <= Float.expo x + c ->
  Float.scaled x c <= 2 * 2 ^ c ->
  Float.mul_int x N = Ok w ->
  Float.scaled x c * N * (2 ^ 53 - 1) < (w + 1) * 2 ^ c * 2 ^ 53.
Proof.
  intros Hv Hn HN Hc Hec Hs.
  destruct (of_int_small N HN) as (mN & eN & HfN & HeN & HmN & HmN53).
  pose proof (pow2_pos c Hc) as HPc0.
  destruct x as [s|s| |[|] m e]; try discriminate.
  - rewrite (mul_int_zero s N _ HfN). intros [= <-]. simpl Float.scaled. lia.
  - pose proof (small_expo false m e c Hv Hc Hec Hs) as He.
    pose proof Hv as (Hm & _ & _)%valid_finite.
    unfold Float.mul_int. rewrite HfN. cbv beta iota delta [bind].
    rewrite mul_width by lia. intros [= <-].
    pose proof (fwidth_nonneg (Z.pos m * Z.pos mN) (e + eN) ltac:(lia)) as Hw.
    pose proof (fwidth_lower (Z.pos m * Z.pos mN) (e + eN) ltac:(lia) ltac:(lia)) as Hu.
    set (w := fwidth (Z.pos m * Z.pos mN) (e + eN)) in *.
    simpl Float.scaled. simpl Float.expo in Hec.
    replace (- (e + eN)) with (- e + - eN) in Hu by lia.
    rewrite Z.pow_add_r, HmN in Hu by lia.
    pose proof (pow2_pos (- eN) ltac:(lia)) as HPN.
    pose proof (pow2_pos (- e) ltac:(lia)) as HPe.
    pose proof (pow2_pos (e + c) ltac:(lia)) as HPc.
    assert (Z.pos m * N * (2 ^ 53 - 1) < (w + 1) * 2 ^ (- e) * 2 ^ 53) as Hu'.
    { apply (Z.mul_lt_mono_pos_r (2 ^ (- eN))); [assumption|].
      replace (Z.pos m * N * (2 ^ 53 - 1) * 2 ^ (- eN))
        with (Z.pos m * (N * 2 ^ (- eN)) * (2 ^ 53 - 1)) by ring.
      replace ((w + 1) * 2 ^ (- e) * 2 ^ 53 * 2 ^ (- eN))
        with ((w + 1) * (2 ^ (- e) * 2 ^ (- eN)) * 2 ^ 53) by ring.
      exact Hu. }
    assert (2 ^ c = 2 ^ (- e) * 2 ^ (e + c)) as ->.
    { rewrite <- Z.pow_add_r by lia. f_equal. lia. }
    replace (Z.pos m * 2 ^ (e + c) * N * (2 ^ 53 - 1))
      with (Z.pos m * N * (2 ^ 53 - 1) * 2 ^ (e + c)) by ring.
    replace ((w + 1) * (2 ^ (- e) * 2 ^ (e + c)) * 2 ^ 53)
      with ((w + 1) * 2 ^ (- e) * 2 ^ 53 * 2 ^ (e + c)) by ring.
    apply Z.mul_lt_mono_pos_r; assumption.
Qed.


(** ** Lists of bucket indices *)


Lemma filter_all_true {A} (f : A -> bool) l :
  (forall x, In x l -> f x = true) -> List.filter f l = l.
Proof.
  induction l as [|a l IH]; simpl; intros Hf; [reflexivity|].
  rewrite (Hf a) by auto. f_equal. apply IH. auto.
Qed.

Lemma filter_all_false {A} (f : A -> bool) l :
  (forall x, In x l -> f x = false) -> List.filter f l = [].
Proof.
  induction l as [|a l IH]; simpl; intros Hf; [reflexivity|].
  rewrite (Hf a) by auto. apply IH. auto.
Qed.

Lemma In_seqZ x m n : In x (seqZ m n) <-> m <= x < m + n.
Proof. rewrite <- list_elem_of_In. apply elem_of_seqZ. Qed.

(** The number of indices of [0 <= b < n] from [lo] up to, and without,
    [hi]. *)
Lemma count_buckets_range lo hi n :
  0 <= lo <= hi -> hi <= n ->
  count_buckets (fun b => (lo <=? b) && (b <? hi)) n = hi - lo.
Proof.
  intros Hlo Hhi. unfold count_buckets.
  replace n with (lo + ((hi - lo) + (n - hi))) by lia.
  rewrite (seqZ_app 0 lo) by lia. rewrite (seqZ_app (0 + lo) (hi - lo)) by lia.
  rewrite !List.filter_app.
  rewrite (filter_all_false _ (seqZ 0 lo)).
  2:{ intros x Hx%In_seqZ. destruct (Z.leb_spec lo x); [lia|reflexivity]. }
  rewrite (filter_all_true _ (seqZ (0 + lo) (hi - lo))).
  2:{ intros x Hx%In_seqZ. destruct (Z.leb_spec lo x); [|lia].
      destruct (Z.ltb_spec x hi); [reflexivity|lia]. }
  rewrite (filter_all_false _ (seqZ (0 + lo + (hi - lo)) (n - hi))).
  2:{ intros x Hx%In_seqZ. destruct (Z.ltb_spec x hi); [lia|].
      apply andb_false_r. }
  simpl. rewrite app_nil_r, length_seqZ. lia.
Qed.

Lemma count_buckets_ext f g n :
  (forall b, 0 <= b < n -> f b = g b) -> count_buckets f n = count_buckets g n.
Proof.
  intros Hfg. unfold count_buckets. f_equal. f_equal.
  apply List.filter_ext_in. intros x Hx%In_seqZ. apply Hfg. lia.
Qed.

Lemma forallb_seqZ f n k :
  forallb f (seqZ 0 n) = true -> 0 <= k < n -> f k = true.
Proof.
  intros Hf Hk. rewrite forallb_forall in Hf. apply Hf, In_seqZ. lia.
Qed.

Lemma thousandths_checked k : 0 <= k <= 1000 -> thousandths_ok k = true.
Proof.
  intros Hk. apply (forallb_seqZ thousandths_ok 1001); [|lia].
  vm_compute. reflexivity.
Qed.

Lemma thousandths_facts k :
  0 <= k <= 1000 ->
  Float.valid (thousandths k) = true /\ Float.nonneg (thousandths k) = true /\
  0 <= Float.expo (thousandths k) + 62 /\
  Float.mul_int (thousandths k) 1000 = Ok k /\
  Float.scaled (thousandths k) 62 <= Float.scaled (thousandths (k + 1)) 62 /\
  (Float.scaled (thousandths k) 62 + Float.scaled (thousandths (1000 - k)) 62)
    * 2 ^ 53 <= (2 ^ 53 + 1) * 2 ^ 62.
Proof.
  intros Hk. pose proof (thousandths_checked k Hk) as Hc.
  unfold thousandths_ok in Hc. cbv zeta in Hc.
  repeat (apply andb_true_iff in Hc as [Hc ?]).
  repeat split; try assumption; try (apply Z.leb_le; assumption).
  destruct (Float.mul_int (thousandths k) 1000) as [w|]; [|discriminate].
  f_equal. apply Z.eqb_eq. assumption.
Qed.

Lemma thousandths_mono a b :
  0 <= a -> a <= b -> b <= 1000 ->
  Float.scaled (thousandths a) 62 <= Float.scaled (thousandths b) 62.
Proof.
  intros Ha Hab Hb. replace b with (a + Z.of_nat (Z.to_nat (b - a))) in * by lia.
  induction (Z.to_nat (b - a)) as [|n IH].
  - rewrite Z.add_0_r. lia.
  - rewrite Nat2Z.inj_succ in *.
    apply Z.le_trans with (Float.scaled (thousandths (a + Z.of_nat n)) 62).
    + apply IH; lia.
    + replace (a + Z.succ (Z.of_nat n)) with (a + Z.of_nat n + 1) by lia.
      apply (thousandths_facts (a + Z.of_nat n)). lia.
Qed.

Section Further.
Context `{Builtins}.


(** ** The order of the two variants in the validation *)

Lemma float_add_comm x y : Float.add x y = Float.add y x.
Proof.
  unfold Float.add, SFadd.
  destruct x as [sx|sx| |sx mx ex], y as [sy|sy| |sy my ey]; try reflexivity.
  - destruct sx, sy; reflexivity.
  - destruct sx, sy; reflexivity.
  - rewrite (Z.min_comm ex ey), Z.add_comm. reflexivity.
Qed.

Lemma py_add_comm a b : is_number a -> is_number b -> py_add a b = py_add b a.
Proof.
  destruct a as [|x|x|x], b as [|y|y|y]; simpl; try tauto; intros _ _.
  - rewrite Z.add_comm. reflexivity.
  - destruct (Float.of_int x); simpl; [rewrite float_add_comm|]; reflexivity.
  - destruct (Float.of_int y); simpl; [rewrite float_add_comm|]; reflexivity.
  - rewrite float_add_comm. reflexivity.
Qed.

Lemma accepted_swap d0 d1 : accepted (Some [d0; d1]) -> accepted (Some [d1; d0]).
Proof.
  intros (e0 & e1 & s0 & s1 & total & [= <- <-] & H0 & N0 & H1 & N1 & Ha & Hl & Hg).
  destruct (py_add_number s0 s1 total _ _ Ha Hl) as (Hn0 & Hn1 & _).
  exists d1, d0, s1, s0, total. rewrite (py_add_comm s1 s0 Hn1 Hn0).
  repeat split; assumption.
Qed.

Lemma out_of_range_number total : out_of_range total -> is_number total.
Proof.
  intros [Hl|[Hl _]]; destruct total; simpl in *; try discriminate; exact I.
Qed.

Lemma config_error_swap d0 d1 :
  config_error (Some [d0; d1]) -> config_error (Some [d1; d0]).
Proof.
  intros [Hn|[(l & [= <-] & Hl)|[(e0 & e1 & [= <- <-] & Hs)|Hsum]]].
  - discriminate.
  - simpl in Hl. lia.
  - right; right; left. exists d1, d0. tauto.
  - destruct Hsum as (e0 & e1 & s0 & s1 & total & [= <- <-] & H0 & N0 & H1 & N1
                      & Ha & Ho).
    right; right; right. exists d1, d0, s1, s0, total.
    assert (is_number s0 /\ is_number s1) as [Hn0 Hn1].
    { pose proof (out_of_range_number total Ho) as Hnt.
      destruct s0, s1; simpl in Ha; try discriminate; simpl; try tauto.
      injection Ha as <-. destruct Hnt. }
    rewrite (py_add_comm s1 s0 Hn1 Hn0). repeat split; assumption.
Qed.

(** X1: the validation does not depend on the order of the two variants:
    the constructor accepts them, or raises [ValueError] for them, in one
    order exactly when it does so in the other. *)
Theorem validation_ignores_order d0 d1 N :
  (returns (__init__ (Some [d0; d1]) N) <->
   returns (__init__ (Some [d1; d0]) N)) /\
  (raises_ValueError (__init__ (Some [d0; d1]) N) <->
   raises_ValueError (__init__ (Some [d1; d0]) N)).
Proof.
  assert (forall e0 e1, returns (__init__ (Some [e0; e1]) N) ->
                        returns (__init__ (Some [e1; e0]) N)) as Hret.
  { intros e0 e1 (vp & Hvp). apply init_Ok_iff in Hvp as [_ Hacc].
    eexists. apply init_Ok_iff. split; [reflexivity|].
    apply accepted_swap. exact Hacc. }
  assert (forall e0 e1, raises_ValueError (__init__ (Some [e0; e1]) N) ->
                        raises_ValueError (__init__ (Some [e1; e0]) N)) as Hraise.
  { intros e0 e1 Hr. apply config_error_raises, config_error_swap.
    exact (raises_config_error _ _ Hr). }
  split; split; auto.
Qed.

(** ** The errors of [choose_variant] *)

Lemma width_raises l N i d size e :
  l !! i = Some d -> d !! "size" = Some size -> is_number size ->
  width {| variants := Some l; num_buckets := N |} i = Raise e ->
  e = OverflowError \/ e = ValueError "cannot convert float NaN to integer".
Proof.
  intros Hl Hs Hn. rewrite (width_size l N i d size Hl Hs).
  destruct size as [|z|x|]; simpl in *; try tauto; [discriminate|].
  unfold Float.of_int.
  destruct (binary_normalize _ _ _ _ _) as [s|s| |s m e'] eqn:HfN; simpl;
    try (intros [= <-]; auto);
    match goal with |- context [Float.mul ?a ?b] => destruct (Float.mul a b) end;
    simpl; intros [= <-]; auto.
Qed.

(** X2: on a constructed partition [choose_variant] raises nothing but
    [KeyError] for a missing name, [OverflowError] and the [ValueError] of
    [int] for NaN: the sizes are there and they are numbers. *)
Theorem choose_variant_errors v N vp b e :
  __init__ v N = Ok vp -> choose_variant vp b = Raise e ->
  e = KeyError "name" \/ e = OverflowError \/
  e = ValueError "cannot convert float NaN to integer".
Proof.
  intros Hinit. apply init_Ok_iff in Hinit as [-> Hacc].
  destruct Hacc as (d0 & d1 & s0 & s1 & total & -> & H0 & N0 & H1 & N1 & Ha & Hl & Hg).
  destruct (py_add_number s0 s1 total _ _ Ha Hl) as (Hn0 & Hn1 & _).
  pose proof (width_raises [d0; d1] N 0 d0 s0) as E0.
  pose proof (width_raises [d0; d1] N 1 d1 s1) as E1.
  unfold choose_variant.
  destruct (width _ 0) as [w0|e0]; simpl.
  2:{ intros [= <-]. right. apply E0; auto. }
  destruct (b <? w0).
  { unfold dict_getitem. destruct (d0 !! "name"); intros [= <-]. auto. }
  destruct (width _ 1) as [w1|e1]; simpl.
  2:{ intros [= <-]. right. apply E1; auto. }
  destruct (b >=? N - w1); [|discriminate].
  unfold dict_getitem. destruct (d1 !! "name"); intros [= <-]. auto.
Qed.

(** X3: what [choose_variant] returns as a name is a member: a string
    answer of a constructed partition passes [__contains__]. *)
Theorem answer_is_member v N vp b n :
  __init__ v N = Ok vp -> choose_variant vp b = Ok (VStr n) ->
  __contains__ vp n = Ok true.
Proof.
  intros Hinit. apply init_Ok_iff in Hinit as [-> Hacc].
  destruct Hacc as (d0 & d1 & s0 & s1 & total & -> & _).
  rewrite contains_eq. unfold choose_variant.
  destruct (width _ 0) as [w0|e0]; simpl; [|discriminate].
  destruct (b <? w0).
  { unfold dict_getitem. destruct (d0 !! "name") eqn:E; intros [= ->].
    apply py_eq_str_true in E. rewrite E. reflexivity. }
  destruct (width _ 1) as [w1|e1]; simpl; [|discriminate].
  destruct (b >=? N - w1); [|discriminate].
  unfold dict_getitem. destruct (d1 !! "name") eqn:E; intros [= ->].
  apply py_eq_str_true in E. rewrite E, orb_true_r. reflexivity.
Qed.

(** ** Sizes that are not floats *)

Lemma init_sizes d0 d1 N s0 s1 :
  d0 !! "size" = Some s0 -> d1 !! "size" = Some s1 ->
  s0 <> VNone -> s1 <> VNone ->
  __init__ (Some [d0; d1]) N =
    let* total_size := py_add s0 s1 in
    let* outside := py_or (py_lt_float total_size Float.zero)
                          (py_gt_float total_size Float.one) in
    if outside then
      Raise (ValueError "Sum of all variants must be between 0 and 1.")
    else Ok {| variants := Some [d0; d1]; num_buckets := N |}.
Proof.
  intros H0 H1 N0 N1. unfold __init__, _validate_variants, py_or. simpl.
  unfold dict_get, dict_getitem. rewrite H0, H1.
  apply is_None_false in N0, N1. rewrite N0. simpl. rewrite N1. simpl.
  destruct (py_add s0 s1) as [total|]; simpl; [|reflexivity].
  destruct (py_lt_float total Float.zero) as [[|]|]; simpl; try reflexivity.
  destruct (py_gt_float total Float.one) as [[|]|]; reflexivity.
Qed.

(** X4: a size that is a [str] is not a configuration error: when both
    sizes are there and one of them is a string, the constructor raises
    [TypeError], from the sum or from its comparison with [0.0]. *)
Theorem str_size_TypeError d0 d1 N s0 s1 :
  d0 !! "size" = Some s0 -> d1 !! "size" = Some s1 ->
  s0 <> VNone -> s1 <> VNone ->
  (exists s, s0 = VStr s \/ s1 = VStr s) ->
  __init__ (Some [d0; d1]) N = Raise TypeError.
Proof.
  intros H0 H1 N0 N1 (s & Hs). rewrite (init_sizes d0 d1 N s0 s1) by assumption.
  destruct Hs as [->| ->].
  - destruct s1; reflexivity.
  - destruct s0; reflexivity.
Qed.

(** X5: sizes that are ints are taken exactly: the constructor accepts
    the ints [a0] and [a1] exactly when [0 <= a0 + a1 <= 1], and the
    widths are [a0 * N] and [a1 * N] for every bucket count [N], also one
    that no float holds. *)
Theorem int_sizes_exact d0 d1 a0 a1 N :
  d0 !! "size" = Some (VInt a0) -> d1 !! "size" = Some (VInt a1) ->
  let vp := {| variants := Some [d0; d1]; num_buckets := N |} in
  (__init__ (Some [d0; d1]) N = Ok vp <-> 0 <= a0 + a1 <= 1) /\
  (__init__ (Some [d0; d1]) N =
     Raise (ValueError "Sum of all variants must be between 0 and 1.")
   <-> ~ 0 <= a0 + a1 <= 1) /\
  width vp 0 = Ok (a0 * N) /\ width vp 1 = Ok (a1 * N).
Proof.
  intros H0 H1 vp.
  rewrite (init_sizes d0 d1 N (VInt a0) (VInt a1)) by (assumption || discriminate).
  unfold vp. rewrite (width_size [d0; d1] N 0 d0 (VInt a0) eq_refl H0).
  rewrite (width_size [d0; d1] N 1 d1 (VInt a1) eq_refl H1).
  cbv beta iota delta [bind py_add py_or py_lt_float py_gt_float py_mul_int py_int
                       Float.compare_int Float.zero Float.one].
  change (0 <=? -52) with false. cbv iota.
  change (Z.pos 4503599627370496) with (2 ^ 52).
  change (- -52) with 52.
  remember (2 ^ 52) as P eqn:HP. assert (0 < P) as HP0 by (subst P; reflexivity).
  clear HP. remember (a0 + a1) as a eqn:Ea. clear Ea.
  cbv zeta.
  destruct (Z.compare_spec a 0) as [E|E|E];
    destruct (Z.compare_spec (a * P) P) as [E'|E'|E']; cbv iota;
    repeat split; intros; try reflexivity; try congruence; nia.
Qed.

(** X6: NaN passes the validation, for both tests of the sum are
    comparisons and NaN fails them; with the first size NaN and the second
    a float, the constructor succeeds and every call of [choose_variant]
    raises the [ValueError] of [int]. *)
Theorem nan_size_breaks_queries d0 d1 N fN y b :
  d0 !! "size" = Some (VFloat S754_nan) -> d1 !! "size" = Some (VFloat y) ->
  Float.of_int N = Ok fN ->
  let vp := {| variants := Some [d0; d1]; num_buckets := N |} in
  __init__ (Some [d0; d1]) N = Ok vp /\
  __init__ (Some [d1; d0]) N = Ok {| variants := Some [d1; d0]; num_buckets := N |} /\
  choose_variant vp b =
    Raise (ValueError "cannot convert float NaN to integer").
Proof.
  intros H0 H1 HfN vp. split; [|split].
  - rewrite (init_sizes d0 d1 N _ _ H0 H1) by discriminate. reflexivity.
  - rewrite (init_sizes d1 d0 N _ _ H1 H0) by discriminate. simpl.
    rewrite float_add_comm. reflexivity.
  - unfold vp, choose_variant.
    rewrite (width_float [d0; d1] N 0 d0 S754_nan eq_refl H0).
    unfold Float.mul_int. rewrite HfN. reflexivity.
Qed.

Lemma init_missing_size d0 d1 N :
  dict_get d0 "size" = VNone \/ dict_get d1 "size" = VNone ->
  __init__ (Some [d0; d1]) N = Raise (ValueError "Variant size not provided: ").
Proof.
  intros Hs. unfold __init__, _validate_variants, py_or. simpl.
  destruct Hs as [-> | Hs]; [reflexivity|].
  destruct (is_None (dict_get d0 "size")); simpl; [reflexivity|].
  rewrite Hs. reflexivity.
Qed.

Lemma init_wrong_count l N :
  List.length l <> 2%nat ->
  __init__ (Some l) N =
  Raise (ValueError
    "Single Variant experiments expect only one variant and one control.").
Proof.
  intros Hl. destruct l as [|d0 [|d1 [|d2 l]]]; try reflexivity.
  simpl in Hl. lia.
Qed.

(** X7: the message of the [ValueError] tells which check failed, and
    the checks are made in this order: no list; a list that has not two
    variants; a variant without a size; a sum of the sizes outside
    [0.0, 1.0]. *)
Theorem validation_messages v N :
  (__init__ v N = Raise (ValueError "No variants provided") <-> v = None) /\
  (__init__ v N =
     Raise (ValueError
       "Single Variant experiments expect only one variant and one control.")
   <-> exists l, v = Some l /\ List.length l <> 2%nat) /\
  ((exists msg, __init__ v N = Raise (ValueError msg) /\
                String.prefix "Variant size not provided: " msg = true)
   <-> exists d0 d1, v = Some [d0; d1] /\
         (dict_get d0 "size" = VNone \/ dict_get d1 "size" = VNone)) /\
  (__init__ v N =
     Raise (ValueError "Sum of all variants must be between 0 and 1.")
   <-> exists d0 d1 s0 s1 total, v = Some [d0; d1] /\
         d0 !! "size" = Some s0 /\ s0 <> VNone /\
         d1 !! "size" = Some s1 /\ s1 <> VNone /\
         py_add s0 s1 = Ok total /\ out_of_range total).
Proof.
  destruct v as [l|].
  2:{ change (__init__ None N) with
        (@Raise t (ValueError "No variants provided")).
      repeat split; try discriminate; try reflexivity.
      - intros (l & Hl & _). discriminate.
      - intros (msg & [= <-] & Hp). discriminate.
      - intros (d0 & d1 & Hl & _). discriminate.
      - intros (d0 & d1 & s0 & s1 & total & Hl & _). discriminate. }
  destruct (Nat.eq_dec (List.length l) 2%nat) as [Hlen|Hlen].
  2:{ rewrite (init_wrong_count l N Hlen).
      repeat split; try discriminate; try reflexivity.
      - intros _. eauto.
      - intros (msg & [= <-] & Hp). discriminate.
      - intros (d0 & d1 & [= ->] & _). simpl in Hlen. lia.
      - intros (d0 & d1 & s0 & s1 & total & [= ->] & _). simpl in Hlen. lia. }
  destruct l as [|d0 [|d1 [|d2 l]]]; try discriminate. clear Hlen.
  destruct (is_None (dict_get d0 "size") || is_None (dict_get d1 "size")) eqn:Hm.
  { apply orb_true_iff in Hm. rewrite !is_None_true in Hm.
    rewrite (init_missing_size d0 d1 N Hm).
    repeat split; try discriminate; try reflexivity.
    - intros (l & [= <-] & Hl). simpl in Hl. lia.
    - intros _. eauto.
    - intros _. eexists. split; reflexivity.
    - intros (e0 & e1 & s0 & s1 & total & [= <- <-] & H0 & N0 & H1 & N1 & _).
      unfold dict_get in Hm. rewrite H0, H1 in Hm. tauto. }
  apply orb_false_iff in Hm as [Hm0 Hm1].
  apply dict_get_not_None in Hm0 as (s0 & H0 & N0).
  apply dict_get_not_None in Hm1 as (s1 & H1 & N1).
  assert (forall e0 e1, Some [d0; d1] = Some [e0; e1] ->
            ~ (dict_get e0 "size" = VNone \/ dict_get e1 "size" = VNone)) as Hpres.
  { intros e0 e1 [= <- <-]. unfold dict_get. rewrite H0, H1. tauto. }
  rewrite (init_sizes d0 d1 N s0 s1 H0 H1 N0 N1).
  split; [|split; [|split]].
  - split; [|discriminate]. unfold py_or.
    destruct (py_add s0 s1) as [total|e] eqn:Ha; simpl.
    + destruct (py_lt_float total Float.zero) as [[|]|e] eqn:Hl; simpl;
        try discriminate.
      * destruct (py_gt_float total Float.one) as [[|]|e] eqn:Hg; simpl;
          try discriminate.
        intros [= ->]. apply py_gt_float_raises in Hg. discriminate.
      * intros [= ->]. apply py_lt_float_raises in Hl. discriminate.
    + intros [= ->]. apply py_add_raises in Ha as [?|?]; discriminate.
  - split.
    + unfold py_or.
      destruct (py_add s0 s1) as [total|e] eqn:Ha; simpl.
      * destruct (py_lt_float total Float.zero) as [[|]|e] eqn:Hl; simpl;
          try discriminate.
        -- destruct (py_gt_float total Float.one) as [[|]|e] eqn:Hg; simpl;
             try discriminate.
           intros [= ->]. apply py_gt_float_raises in Hg. discriminate.
        -- intros [= ->]. apply py_lt_float_raises in Hl. discriminate.
      * intros [= ->]. apply py_add_raises in Ha as [?|?]; discriminate.
    + intros (l & [= <-] & Hl). simpl in Hl. lia.
  - split.
    + intros (msg & Hr & Hp). exfalso. revert Hr. unfold py_or.
      destruct (py_add s0 s1) as [total|e] eqn:Ha; simpl.
      * destruct (py_lt_float total Float.zero) as [[|]|e] eqn:Hl; simpl.
        -- intros [= <-]. discriminate.
        -- destruct (py_gt_float total Float.one) as [[|]|e] eqn:Hg; simpl;
             try discriminate.
           ++ intros [= <-]. discriminate.
           ++ intros [= ->]. apply py_gt_float_raises in Hg. discriminate.
        -- intros [= ->]. apply py_lt_float_raises in Hl. discriminate.
      * intros [= ->]. apply py_add_raises in Ha as [?|?]; discriminate.
    + intros (e0 & e1 & He & Hs). exfalso. exact (Hpres e0 e1 He Hs).
  - split.
    + intros Hr. exists d0, d1, s0, s1. revert Hr. unfold py_or, out_of_range.
      destruct (py_add s0 s1) as [total|e] eqn:Ha; simpl.
      * exists total.
        destruct (py_lt_float total Float.zero) as [[|]|e] eqn:Hl; simpl in Hr.
        -- repeat split; auto.
        -- destruct (py_gt_float total Float.one) as [[|]|e] eqn:Hg; simpl in Hr;
             try discriminate.
           ++ repeat split; auto.
           ++ injection Hr as ->. apply py_gt_float_raises in Hg. discriminate.
        -- injection Hr as ->. apply py_lt_float_raises in Hl. discriminate.
      * intros [= ->]. apply py_add_raises in Ha as [?|?]; discriminate.
    + intros (e0 & e1 & t0 & t1 & total & [= <- <-] & T0 & _ & T1 & _ & Ha & Ho).
      rewrite H0 in T0. rewrite H1 in T1. injection T0 as <-. injection T1 as <-.
      rewrite Ha. unfold py_or. simpl.
      destruct Ho as [Hl|[Hl Hg]]; rewrite Hl; simpl; [reflexivity|].
      rewrite Hg. reflexivity.
Qed.

(** ** The test of the sum, exactly *)


Lemma sum_rounds_within_accepts p0 p1 :
  Float.valid p0 = true -> Float.valid p1 = true ->
  Float.nonneg p0 = true -> Float.nonneg p1 = true ->
  sum_rounds_within p0 p1 = true ->
  Float.ltb Float.one (Float.add p0 p1) = false.
Proof.
  intros Hv0 Hv1 Hn0 Hn1 Hw.
  destruct p0 as [s0|s0| |[|] m0 e0]; try discriminate;
    destruct p1 as [s1|s1| |[|] m1 e1]; try discriminate.
  - destruct s0, s1; reflexivity.
  - change (Float.add (S754_zero s0) (S754_finite false m1 e1))
      with (S754_finite false m1 e1).
    apply ltb_one_small. unfold sum_rounds_within in Hw. simpl in Hw.
    apply Z.leb_le in Hw.
    apply (valid_le_one false m1 e1 (Z.max 0 (- Z.min 0 e1)) Hv1); lia.
  - change (Float.add (S754_finite false m0 e0) (S754_zero s1))
      with (S754_finite false m0 e0).
    apply ltb_one_small. unfold sum_rounds_within in Hw. simpl in Hw.
    apply Z.leb_le in Hw.
    apply (valid_le_one false m0 e0 (Z.max 0 (- Z.min e0 0)) Hv0); lia.
  - unfold sum_rounds_within in Hw. simpl in Hw. apply Z.leb_le in Hw.
    assert (Z.min e0 e1 <= 0) as Hez.
    { destruct (Z_le_gt_dec (Z.min e0 e1) 0) as [|Hpos]; [assumption|exfalso].
      rewrite Z.max_l in Hw by lia. rewrite !Z.add_0_r in Hw.
      assert (2 <= 2 ^ e0) by (change 2 with (2 ^ 1) at 1; apply Z.pow_le_mono_r; lia).
      assert (2 <= 2 ^ e1) by (change 2 with (2 ^ 1) at 1; apply Z.pow_le_mono_r; lia).
      change (2 ^ 0) with 1 in Hw. nia. }
    rewrite Z.max_r in Hw by lia.
    apply one_le_add; [exact Hez|].
    replace (e0 - Z.min e0 e1) with (e0 + - Z.min e0 e1) by lia.
    replace (e1 - Z.min e0 e1) with (e1 + - Z.min e0 e1) by lia.
    exact Hw.
Qed.

Lemma accepts_sum_rounds_within p0 p1 :
  Float.valid p0 = true -> Float.valid p1 = true ->
  Float.nonneg p0 = true -> Float.nonneg p1 = true ->
  Float.ltb Float.one (Float.add p0 p1) = false ->
  sum_rounds_within p0 p1 = true.
Proof.
  intros Hv0 Hv1 Hn0 Hn1 Hlt.
  destruct (sum_scaled p0 p1 Hv0 Hv1 Hn0 Hn1 Hlt) as (c & Hc & He0 & He1 & Hsum).
  apply (sum_rounds_within_scale p0 p1 c Hc He0 He1). exact Hsum.
Qed.

(** X8: the test of the sum is made on the rounded sum: two sizes that
    are valid non-negative floats are accepted exactly when their exact
    sum is at most [1 + 2^-53], and raise the [ValueError] of the sum
    otherwise. *)
Theorem sum_check_exact d0 d1 N p0 p1 :
  d0 !! "size" = Some (VFloat p0) -> d1 !! "size" = Some (VFloat p1) ->
  nonneg_float (VFloat p0) -> nonneg_float (VFloat p1) ->
  (__init__ (Some [d0; d1]) N = Ok {| variants := Some [d0; d1]; num_buckets := N |}
   <-> sum_rounds_within p0 p1 = true) /\
  (__init__ (Some [d0; d1]) N =
     Raise (ValueError "Sum of all variants must be between 0 and 1.")
   <-> sum_rounds_within p0 p1 = false).
Proof.
  intros H0 H1 [Hv0 Hn0] [Hv1 Hn1].
  rewrite (init_sizes d0 d1 N _ _ H0 H1) by discriminate.
  cbv beta iota delta [bind py_add py_or py_lt_float py_gt_float].
  rewrite (add_nonneg_not_lt p0 p1 Hn0 Hn1).
  destruct (Float.ltb Float.one (Float.add p0 p1)) eqn:Hlt.
  - assert (sum_rounds_within p0 p1 = false) as ->.
    { destruct (sum_rounds_within p0 p1) eqn:Hw; [|reflexivity].
      rewrite (sum_rounds_within_accepts p0 p1 Hv0 Hv1 Hn0 Hn1 Hw) in Hlt.
      discriminate. }
    repeat split; intros; try reflexivity; discriminate.
  - rewrite (accepts_sum_rounds_within p0 p1 Hv0 Hv1 Hn0 Hn1 Hlt).
    repeat split; intros; try reflexivity; discriminate.
Qed.

(** ** The regions of the two outcomes *)


(** X9: the indices of each outcome form a ray, out-of-range indices
    included: with two distinct names and the widths [w0] and [w1], the
    first name is returned exactly below [w0], the second exactly from
    [max w0 (N - w1)] on. *)
Theorem regions_are_rays v N vp d0 d1 n0 n1 w0 w1 b :
  __init__ v N = Ok vp -> v = Some [d0; d1] ->
  d0 !! "name" = Some (VStr n0) -> d1 !! "name" = Some (VStr n1) -> n0 <> n1 ->
  width vp 0 = Ok w0 -> width vp 1 = Ok w1 ->
  (choose_variant vp b = Ok (VStr n0) <-> b < w0) /\
  (choose_variant vp b = Ok (VStr n1) <-> Z.max w0 (N - w1) <= b) /\
  (forall b', b' <= b -> choose_variant vp b = Ok (VStr n0) ->
              choose_variant vp b' = Ok (VStr n0)) /\
  (forall b', b <= b' -> choose_variant vp b = Ok (VStr n1) ->
              choose_variant vp b' = Ok (VStr n1)).
Proof.
  intros Hinit -> Hn0 Hn1 Hne. apply init_Ok_iff in Hinit as [-> _].
  intros Hw0 Hw1.
  pose proof (fun b => choose_named d0 d1 N _ _ w0 w1 b Hn0 Hn1 Hw0 Hw1) as Hc.
  simpl in Hc. rewrite Hc.
  assert (VStr n0 <> VStr n1) as Hne' by congruence.
  repeat split.
  - destruct (Z.ltb_spec b w0); [lia|].
    destruct (Z.geb_spec b (N - w1)); congruence.
  - intros Hb. destruct (Z.ltb_spec b w0); [reflexivity|lia].
  - destruct (Z.ltb_spec b w0); [congruence|].
    destruct (Z.geb_spec b (N - w1)); [lia|discriminate].
  - intros Hb. destruct (Z.ltb_spec b w0); [lia|].
    destruct (Z.geb_spec b (N - w1)); [reflexivity|lia].
  - intros b' Hb'. rewrite (Hc b').
    destruct (Z.ltb_spec b w0).
    + intros _. destruct (Z.ltb_spec b' w0); [reflexivity|lia].
    + destruct (Z.geb_spec b (N - w1)); congruence.
  - intros b' Hb'. rewrite (Hc b').
    destruct (Z.ltb_spec b w0); [congruence|].
    destruct (Z.geb_spec b (N - w1)); [|discriminate]. intros _.
    destruct (Z.ltb_spec b' w0); [lia|].
    destruct (Z.geb_spec b' (N - w1)); [reflexivity|lia].
Qed.

(** X10: [choose_variant] checks no range: for sizes that are valid
    non-negative floats and a bucket count that is at least 1 and below
    [2^52], every negative index gets the name of the first variant and
    every index from the bucket count on the name of the second, whatever
    the sizes, also zero. *)
Theorem out_of_range_indices v N vp d0 d1 s0 s1 b :
  __init__ v N = Ok vp -> v = Some [d0; d1] ->
  d0 !! "size" = Some s0 -> d1 !! "size" = Some s1 ->
  nonneg_float s0 -> nonneg_float s1 -> 1 <= N < 2 ^ 52 ->
  (b < 0 -> choose_variant vp b = dict_getitem d0 "name") /\
  (N <= b -> choose_variant vp b = dict_getitem d1 "name").
Proof.
  intros Hinit -> H0 H1 Hf0 Hf1 HN. apply init_Ok_iff in Hinit as [-> Hacc].
  destruct s0 as [| |p0|]; simpl in Hf0; try tauto.
  destruct s1 as [| |p1|]; simpl in Hf1; try tauto.
  destruct (accepted_widths d0 d1 N p0 p1 Hacc H0 H1 Hf0 Hf1 HN)
    as (w0 & w1 & Hw0 & Hw1 & Hp0 & Hp1 & Hsum).
  rewrite (choose_by_widths d0 d1 N w0 w1 b Hw0 Hw1). unfold name. split; intros Hb.
  - destruct (Z.ltb_spec b w0); [reflexivity|lia].
  - destruct (Z.ltb_spec b w0); [lia|].
    destruct (Z.geb_spec b (N - w1)); [reflexivity|lia].
Qed.

(** X11: the number of buckets of each outcome: for sizes that are valid
    non-negative floats, two distinct names and a bucket count [N] that is
    at least 1 and below [2^52], exactly [int(size0 * N)] of the indices
    [0 <= b < N] get the first name, exactly [int(size1 * N)] the second,
    and the others get [None]. *)
Theorem buckets_per_outcome v N vp d0 d1 n0 n1 s0 s1 :
  __init__ v N = Ok vp -> v = Some [d0; d1] ->
  d0 !! "name" = Some (VStr n0) -> d1 !! "name" = Some (VStr n1) -> n0 <> n1 ->
  d0 !! "size" = Some s0 -> d1 !! "size" = Some s1 ->
  nonneg_float s0 -> nonneg_float s1 -> 1 <= N < 2 ^ 52 ->
  exists w0 w1,
    width vp 0 = Ok w0 /\ width vp 1 = Ok w1 /\
    count_buckets (fun b => is_name (choose_variant vp b) n0) N = w0 /\
    count_buckets (fun b => is_name (choose_variant vp b) n1) N = w1 /\
    count_buckets (fun b => is_unassigned (choose_variant vp b)) N = N - w0 - w1.
Proof.
  intros Hinit -> Hn0 Hn1 Hne H0 H1 Hf0 Hf1 HN.
  apply init_Ok_iff in Hinit as [-> Hacc].
  destruct s0 as [| |p0|]; simpl in Hf0; try tauto.
  destruct s1 as [| |p1|]; simpl in Hf1; try tauto.
  destruct (accepted_widths d0 d1 N p0 p1 Hacc H0 H1 Hf0 Hf1 HN)
    as (w0 & w1 & Hw0 & Hw1 & Hp0 & Hp1 & Hsum).
  exists w0, w1. split; [exact Hw0|]. split; [exact Hw1|].
  pose proof (fun b => choose_named d0 d1 N _ _ w0 w1 b Hn0 Hn1 Hw0 Hw1) as Hc.
  simpl in Hc.
  assert (String.eqb n0 n1 = false) as E01 by (apply String.eqb_neq; exact Hne).
  assert (String.eqb n1 n0 = false) as E10
    by (apply String.eqb_neq; congruence).
  split; [|split].
  - rewrite (count_buckets_ext _ (fun b => (0 <=? b) && (b <? w0))).
    { rewrite count_buckets_range; lia. }
    intros b Hb. rewrite Hc.
    destruct (Z.leb_spec 0 b); [|lia]. simpl.
    destruct (Z.ltb_spec b w0); simpl; [apply String.eqb_refl|].
    destruct (Z.geb_spec b (N - w1)); simpl; [exact E10|reflexivity].
  - rewrite (count_buckets_ext _ (fun b => (N - w1 <=? b) && (b <? N))).
    { rewrite count_buckets_range; lia. }
    intros b Hb. rewrite Hc.
    destruct (Z.ltb_spec b N); [|lia]. rewrite andb_true_r.
    destruct (Z.ltb_spec b w0); simpl.
    + rewrite E01. destruct (Z.leb_spec (N - w1) b); [lia|reflexivity].
    + destruct (Z.geb_spec b (N - w1)); simpl.
      * rewrite String.eqb_refl. destruct (Z.leb_spec (N - w1) b); [reflexivity|lia].
      * destruct (Z.leb_spec (N - w1) b); [lia|reflexivity].
  - rewrite (count_buckets_ext _ (fun b => (w0 <=? b) && (b <? N - w1))).
    { rewrite count_buckets_range; lia. }
    intros b Hb. rewrite Hc.
    destruct (Z.ltb_spec b w0); simpl.
    + destruct (Z.leb_spec w0 b); [lia|reflexivity].
    + destruct (Z.leb_spec w0 b); [|lia]. simpl.
      destruct (Z.geb_spec b (N - w1)); simpl;
        destruct (Z.ltb_spec b (N - w1)); try reflexivity; lia.
Qed.

(** X12: the two ends mirror each other: for sizes that are valid
    non-negative floats and a bucket count [N] that is at least 1 and
    below [2^52], the variants in the other order are accepted as well,
    and give the index [N - 1 - b] the answer that the index [b] had. *)
Theorem mirror_symmetry v N vp d0 d1 s0 s1 :
  __init__ v N = Ok vp -> v = Some [d0; d1] ->
  d0 !! "size" = Some s0 -> d1 !! "size" = Some s1 ->
  nonneg_float s0 -> nonneg_float s1 -> 1 <= N < 2 ^ 52 ->
  exists vp',
    __init__ (Some [d1; d0]) N = Ok vp' /\
    forall b, choose_variant vp' (N - 1 - b) = choose_variant vp b.
Proof.
  intros Hinit -> H0 H1 Hf0 Hf1 HN. apply init_Ok_iff in Hinit as [-> Hacc].
  pose proof (accepted_swap d0 d1 Hacc) as Hacc'.
  eexists. split; [apply init_Ok_iff; split; [reflexivity | exact Hacc']|].
  destruct s0 as [| |p0|]; simpl in Hf0; try tauto.
  destruct s1 as [| |p1|]; simpl in Hf1; try tauto.
  destruct (accepted_widths d0 d1 N p0 p1 Hacc H0 H1 Hf0 Hf1 HN)
    as (w0 & w1 & Hw0 & Hw1 & Hp0 & Hp1 & Hsum).
  assert (width {| variants := Some [d1; d0]; num_buckets := N |} 0 = Ok w1) as Hw0'.
  { rewrite (width_float [d1; d0] N 0 d1 p1 eq_refl H1).
    rewrite <- (width_float [d0; d1] N 1 d1 p1 eq_refl H1). exact Hw1. }
  assert (width {| variants := Some [d1; d0]; num_buckets := N |} 1 = Ok w0) as Hw1'.
  { rewrite (width_float [d1; d0] N 1 d0 p0 eq_refl H0).
    rewrite <- (width_float [d0; d1] N 0 d0 p0 eq_refl H0). exact Hw0. }
  intros b.
  rewrite (choose_by_widths d0 d1 N w0 w1 b Hw0 Hw1).
  rewrite (choose_by_widths d1 d0 N w1 w0 (N - 1 - b) Hw0' Hw1').
  destruct (Z.ltb_spec b w0); destruct (Z.geb_spec b (N - w1));
    destruct (Z.ltb_spec (N - 1 - b) w1); destruct (Z.geb_spec (N - 1 - b) (N - w0));
    try reflexivity; lia.
Qed.

(** X13: what a change of the sizes moves: take two constructed
    partitions with the same names and the same bucket count, at least 1
    and below [2^52], all sizes being valid non-negative floats.  An index
    whose answer differs lies between the two low widths or between the
    two starts of the high region.  From 60/40 to 40/60 with 1000 buckets
    the answer changes for no index outside [400 <= b < 600]. *)
Theorem resize_bands N d0 d1 d0' d1' s0 s1 s0' s1' vp vp' :
  __init__ (Some [d0; d1]) N = Ok vp ->
  __init__ (Some [d0'; d1']) N = Ok vp' ->
  d0' !! "name" = d0 !! "name" -> d1' !! "name" = d1 !! "name" ->
  d0 !! "size" = Some s0 -> d1 !! "size" = Some s1 ->
  d0' !! "size" = Some s0' -> d1' !! "size" = Some s1' ->
  nonneg_float s0 -> nonneg_float s1 -> nonneg_float s0' -> nonneg_float s1' ->
  1 <= N < 2 ^ 52 ->
  (exists w0 w1 w0' w1',
     width vp 0 = Ok w0 /\ width vp 1 = Ok w1 /\
     width vp' 0 = Ok w0' /\ width vp' 1 = Ok w1' /\
     forall b, choose_variant vp' b <> choose_variant vp b ->
       Z.min w0 w0' <= b < Z.max w0 w0' \/
       N - Z.max w1 w1' <= b < N - Z.min w1 w1') /\
  (forall b,
     choose_variant {| variants := Some [variant "control" (VFloat Float.f0_4);
                                         variant "treatment" (VFloat Float.f0_6)];
                       num_buckets := 1000 |} b <>
     choose_variant {| variants := Some [variant "control" (VFloat Float.f0_6);
                                         variant "treatment" (VFloat Float.f0_4)];
                       num_buckets := 1000 |} b ->
     400 <= b < 600).
Proof.
  intros Hinit Hinit' Hn0 Hn1 H0 H1 H0' H1' Hf0 Hf1 Hf0' Hf1' HN.
  apply init_Ok_iff in Hinit as [-> Hacc].
  apply init_Ok_iff in Hinit' as [-> Hacc'].
  split.
  - destruct s0 as [| |p0|]; simpl in Hf0; try tauto.
    destruct s1 as [| |p1|]; simpl in Hf1; try tauto.
    destruct s0' as [| |p0'|]; simpl in Hf0'; try tauto.
    destruct s1' as [| |p1'|]; simpl in Hf1'; try tauto.
    destruct (accepted_widths d0 d1 N p0 p1 Hacc H0 H1 Hf0 Hf1 HN)
      as (w0 & w1 & Hw0 & Hw1 & Hp0 & Hp1 & Hsum).
    destruct (accepted_widths d0' d1' N p0' p1' Hacc' H0' H1' Hf0' Hf1' HN)
      as (w0' & w1' & Hw0' & Hw1' & Hp0' & Hp1' & Hsum').
    exists w0, w1, w0', w1'. do 4 (split; [assumption|]). intros b.
    rewrite (choose_by_widths d0 d1 N w0 w1 b Hw0 Hw1).
    rewrite (choose_by_widths d0' d1' N w0' w1' b Hw0' Hw1').
    unfold name, dict_getitem. rewrite Hn0, Hn1.
    destruct (Z.ltb_spec b w0); destruct (Z.ltb_spec b w0');
      destruct (Z.geb_spec b (N - w1)); destruct (Z.geb_spec b (N - w1'));
      intros Hdiff; try congruence; lia.
  - intros b.
    rewrite (choose_by_widths _ _ 1000 400 600) by (vm_compute; reflexivity).
    rewrite (choose_by_widths _ _ 1000 600 400) by (vm_compute; reflexivity).
    rewrite !name_variant.
    destruct (Z.ltb_spec b 400); destruct (Z.ltb_spec b 600);
      destruct (Z.geb_spec b (1000 - 600)); destruct (Z.geb_spec b (1000 - 400));
      intros Hdiff; try congruence; lia.
Qed.

(** X14: each width is within one bucket of the exact product of the size
    and the bucket count, up to the rounding of the product: for sizes
    that are valid non-negative floats [p], integers [p * 2^c] at a scale
    [c], and a bucket count [N] that is at least 1 and below [2^52], the
    width [w] has [w <= p * N * (1 + 2^-53)] and
    [p * N * (1 - 2^-53) < w + 1]. *)
Theorem width_accuracy v N vp d0 d1 p0 p1 :
  __init__ v N = Ok vp -> v = Some [d0; d1] ->
  d0 !! "size" = Some (VFloat p0) -> d1 !! "size" = Some (VFloat p1) ->
  nonneg_float (VFloat p0) -> nonneg_float (VFloat p1) -> 1 <= N < 2 ^ 52 ->
  exists c w0 w1,
    0 <= c /\ 0 <= Float.expo p0 + c /\ 0 <= Float.expo p1 + c /\
    width vp 0 = Ok w0 /\ width vp 1 = Ok w1 /\
    w0 * 2 ^ c * 2 ^ 53 <= Float.scaled p0 c * N * (2 ^ 53 + 1) /\
    Float.scaled p0 c * N * (2 ^ 53 - 1) < (w0 + 1) * 2 ^ c * 2 ^ 53 /\
    w1 * 2 ^ c * 2 ^ 53 <= Float.scaled p1 c * N * (2 ^ 53 + 1) /\
    Float.scaled p1 c * N * (2 ^ 53 - 1) < (w1 + 1) * 2 ^ c * 2 ^ 53.
Proof.
  intros Hinit -> H0 H1 [Hv0 Hn0] [Hv1 Hn1] HN.
  apply init_Ok_iff in Hinit as [-> Hacc].
  pose proof (accepted_floats d0 d1 p0 p1 Hacc H0 H1) as Hlt.
  destruct (sum_scaled p0 p1 Hv0 Hv1 Hn0 Hn1 Hlt) as (c & Hc & He0 & He1 & Hsum).
  pose proof (pow2_pos c Hc) as HP.
  assert (0 <= Float.scaled p0 c) as Hs0.
  { destruct p0; simpl; try lia.
    all: apply Z.mul_nonneg_nonneg; [lia | apply Z.pow_nonneg; lia]. }
  assert (0 <= Float.scaled p1 c) as Hs1.
  { destruct p1; simpl; try lia.
    all: apply Z.mul_nonneg_nonneg; [lia | apply Z.pow_nonneg; lia]. }
  destruct (mul_int_bound p0 N c Hv0 Hn0 ltac:(lia) Hc He0 ltac:(lia))
    as (w0 & Hw0 & _ & Hb0).
  destruct (mul_int_bound p1 N c Hv1 Hn1 ltac:(lia) Hc He1 ltac:(lia))
    as (w1 & Hw1 & _ & Hb1).
  pose proof (mul_int_lower p0 N c w0 Hv0 Hn0 ltac:(lia) Hc He0 ltac:(lia) Hw0).
  pose proof (mul_int_lower p1 N c w1 Hv1 Hn1 ltac:(lia) Hc He1 ltac:(lia) Hw1).
  exists c, w0, w1.
  rewrite (width_float [d0; d1] N 0 d0 p0 eq_refl H0).
  rewrite (width_float [d0; d1] N 1 d1 p1 eq_refl H1).
  repeat split; assumption.
Qed.

(** ** The default bucket count *)


(** X15: the default granularity: with the default of 1000 buckets, two
    sizes of [a] and [b] thousandths, [a + b <= 1000], are accepted, and
    the widths are exactly [a] and [b]: the indices below [a] get the
    first variant and those from [1000 - b] on the second. *)
Theorem default_granularity d0 d1 a b :
  d0 !! "size" = Some (VFloat (thousandths a)) ->
  d1 !! "size" = Some (VFloat (thousandths b)) ->
  0 <= a -> 0 <= b -> a + b <= 1000 ->
  let vp := {| variants := Some [d0; d1]; num_buckets := default_num_buckets |} in
  __init__ (Some [d0; d1]) default_num_buckets = Ok vp /\
  width vp 0 = Ok a /\ width vp 1 = Ok b /\
  forall i, choose_variant vp i =
    if i <? a then dict_getitem d0 "name"
    else if i >=? 1000 - b then dict_getitem d1 "name" else Ok VNone.
Proof.
  intros H0 H1 Ha Hb Hab vp.
  destruct (thousandths_facts a ltac:(lia)) as (Hva & Hna & Hea & Hwa & _ & Hsa).
  destruct (thousandths_facts b ltac:(lia)) as (Hvb & Hnb & Heb & Hwb & _ & _).
  pose proof (thousandths_mono b (1000 - a) Hb ltac:(lia) ltac:(lia)) as Hm.
  assert (sum_rounds_within (thousandths a) (thousandths b) = true) as Hw.
  { apply (sum_rounds_within_scale _ _ 62); try assumption; lia. }
  pose proof (sum_rounds_within_accepts _ _ Hva Hvb Hna Hnb Hw) as Hone.
  assert (width vp 0 = Ok a) as Hw0.
  { unfold vp. rewrite (width_float [d0; d1] _ 0 d0 _ eq_refl H0). exact Hwa. }
  assert (width vp 1 = Ok b) as Hw1.
  { unfold vp. rewrite (width_float [d0; d1] _ 1 d1 _ eq_refl H1). exact Hwb. }
  split; [|split; [exact Hw0|split; [exact Hw1|]]].
  - rewrite (init_sizes d0 d1 _ _ _ H0 H1) by discriminate.
    cbv beta iota delta [bind py_add py_or py_lt_float py_gt_float].
    rewrite (add_nonneg_not_lt _ _ Hna Hnb), Hone. reflexivity.
  - intros i. exact (choose_by_widths d0 d1 1000 a b i Hw0 Hw1).
Qed.

End Further.

(** * Instances of the further properties *)

(** The sizes in thousandths are the literals used above. *)
Lemma thousandths_literals :
  thousandths 0 = Float.zero /\ thousandths 300 = Float.f0_3 /\
  thousandths 400 = Float.f0_4 /\ thousandths 500 = Float.half /\
  thousandths 600 = Float.f0_6 /\ thousandths 1000 = Float.one.
Proof. repeat split; vm_compute; reflexivity. Qed.

Lemma choose_variant_errors_witness :
  let vp := {| variants := Some [ {[ "size" := VFloat Float.half ]};
                                  {[ "size" := VFloat Float.half ]} ];
               num_buckets := 1000 |} in
  @choose_variant no_int_of_str vp 0 = Raise (KeyError "name") /\
  (KeyError "name" = KeyError "name" \/ KeyError "name" = OverflowError \/
   KeyError "name" = ValueError "cannot convert float NaN to integer").
Proof.
  split; [vm_compute; reflexivity|].
  apply (@choose_variant_errors no_int_of_str
           (Some [ {[ "size" := VFloat Float.half ]};
                   {[ "size" := VFloat Float.half ]} ]) 1000
           {| variants := Some [ {[ "size" := VFloat Float.half ]};
                                 {[ "size" := VFloat Float.half ]} ];
              num_buckets := 1000 |} 0);
    vm_compute; reflexivity.
Defined.

Lemma answer_is_member_witness :
  __contains__
    {| variants := Some [variant "A" (VFloat Float.f0_4);
                         variant "B" (VFloat Float.f0_3)];
       num_buckets := 1000 |} "B" = Ok true.
Proof.
  apply (@answer_is_member no_int_of_str
           (Some [variant "A" (VFloat Float.f0_4);
                  variant "B" (VFloat Float.f0_3)]) 1000 _ 700);
    vm_compute; reflexivity.
Defined.

Lemma str_size_TypeError_witness :
  __init__ (Some [variant "A" (VStr "0.5"); variant "B" (VFloat Float.half)])
    1000 = Raise TypeError.
Proof.
  apply (str_size_TypeError _ _ 1000 (VStr "0.5") (VFloat Float.half));
    try reflexivity; try discriminate.
  exists "0.5"%string. left. reflexivity.
Defined.

Lemma int_sizes_exact_witness :
  let vp := {| variants := Some [variant "A" (VInt 0); variant "B" (VInt 1)];
               num_buckets := 2 ^ 1024 |} in
  Float.of_int (2 ^ 1024) = Raise OverflowError /\
  (__init__ (Some [variant "A" (VInt 0); variant "B" (VInt 1)]) (2 ^ 1024)
     = Ok vp <-> 0 <= 0 + 1 <= 1) /\
  @width no_int_of_str vp 0 = Ok (0 * 2 ^ 1024) /\
  @width no_int_of_str vp 1 = Ok (1 * 2 ^ 1024).
Proof.
  split; [vm_compute; reflexivity|].
  pose proof (@int_sizes_exact no_int_of_str
                (variant "A" (VInt 0)) (variant "B" (VInt 1)) 0 1 (2 ^ 1024)
                eq_refl eq_refl) as (Hi & _ & Hw0 & Hw1).
  split; [exact Hi|]. split; [exact Hw0 | exact Hw1].
Defined.

Lemma nan_size_breaks_queries_witness :
  let vp := {| variants := Some [variant "A" (VFloat Float.nan);
                                 variant "B" (VFloat Float.half)];
               num_buckets := 1000 |} in
  __init__ (Some [variant "A" (VFloat Float.nan);
                  variant "B" (VFloat Float.half)]) 1000 = Ok vp /\
  @choose_variant no_int_of_str vp 5 =
    Raise (ValueError "cannot convert float NaN to integer").
Proof.
  destruct (@nan_size_breaks_queries no_int_of_str
              (variant "A" (VFloat Float.nan)) (variant "B" (VFloat Float.half))
              1000 _ Float.half 5 eq_refl eq_refl
              ltac:(vm_compute; reflexivity)) as (Hi & _ & Hc).
  split; [exact Hi | exact Hc].
Defined.

Lemma sum_check_exact_witness :
  __init__ (Some [variant "A" (VFloat Float.half);
                  variant "B" (VFloat Float.half)]) 1000 =
    Ok {| variants := Some [variant "A" (VFloat Float.half);
                            variant "B" (VFloat Float.half)];
          num_buckets := 1000 |}
  <-> sum_rounds_within Float.half Float.half = true.
Proof.
  apply (sum_check_exact (variant "A" (VFloat Float.half))
           (variant "B" (VFloat Float.half)) 1000 Float.half Float.half);
    try reflexivity; split; reflexivity.
Defined.

Lemma regions_are_rays_witness :
  let vp := {| variants := Some [variant "A" (VFloat Float.f0_4);
                                 variant "B" (VFloat Float.f0_3)];
               num_buckets := 1000 |} in
  (@choose_variant no_int_of_str vp (-7) = Ok (VStr "A") <-> -7 < 400) /\
  (@choose_variant no_int_of_str vp (-7) = Ok (VStr "B")
   <-> Z.max 400 (1000 - 300) <= -7).
Proof.
  destruct (@regions_are_rays no_int_of_str
              (Some [variant "A" (VFloat Float.f0_4);
                     variant "B" (VFloat Float.f0_3)]) 1000
              {| variants := Some [variant "A" (VFloat Float.f0_4);
                                   variant "B" (VFloat Float.f0_3)];
                 num_buckets := 1000 |}
              (variant "A" (VFloat Float.f0_4)) (variant "B" (VFloat Float.f0_3))
              "A" "B" 400 300 (-7)
              ltac:(vm_compute; reflexivity) eq_refl eq_refl eq_refl
              ltac:(discriminate)
              ltac:(vm_compute; reflexivity) ltac:(vm_compute; reflexivity))
    as (H0 & H1 & _).
  split; [exact H0 | exact H1].
Defined.

Lemma out_of_range_indices_witness :
  let vp := {| variants := Some [variant "A" (VFloat Float.zero);
                                 variant "B" (VFloat Float.one)];
               num_buckets := 10 |} in
  (-1 < 0 -> @choose_variant no_int_of_str vp (-1)
             = dict_getitem (variant "A" (VFloat Float.zero)) "name") /\
  (10 <= -1 -> @choose_variant no_int_of_str vp (-1)
               = dict_getitem (variant "B" (VFloat Float.one)) "name").
Proof.
  apply (@out_of_range_indices no_int_of_str
           (Some [variant "A" (VFloat Float.zero);
                  variant "B" (VFloat Float.one)]) 10 _
           (variant "A" (VFloat Float.zero)) (variant "B" (VFloat Float.one))
           (VFloat Float.zero) (VFloat Float.one) (-1));
    try (vm_compute; reflexivity); try (split; reflexivity); lia.
Defined.

Lemma buckets_per_outcome_witness :
  exists w0 w1,
    let vp := {| variants := Some [variant "A" (VFloat Float.f0_4);
                                   variant "B" (VFloat Float.f0_3)];
                 num_buckets := 1000 |} in
    @width no_int_of_str vp 0 = Ok w0 /\ @width no_int_of_str vp 1 = Ok w1 /\
    count_buckets
      (fun b => is_name (@choose_variant no_int_of_str vp b) "A") 1000 = w0 /\
    count_buckets
      (fun b => is_name (@choose_variant no_int_of_str vp b) "B") 1000 = w1 /\
    count_buckets
      (fun b => is_unassigned (@choose_variant no_int_of_str vp b)) 1000
      = 1000 - w0 - w1.
Proof.
  apply (@buckets_per_outcome no_int_of_str
           (Some [variant "A" (VFloat Float.f0_4);
                  variant "B" (VFloat Float.f0_3)]) 1000 _
           (variant "A" (VFloat Float.f0_4)) (variant "B" (VFloat Float.f0_3))
           "A" "B" (VFloat Float.f0_4) (VFloat Float.f0_3));
    try (vm_compute; reflexivity); try (split; reflexivity);
    try discriminate; lia.
Defined.

Lemma mirror_symmetry_witness :
  exists vp',
    __init__ (Some [variant "B" (VFloat Float.f0_3);
                    variant "A" (VFloat Float.f0_4)]) 1000 = Ok vp' /\
    forall b,
      @choose_variant no_int_of_str vp' (1000 - 1 - b) =
      @choose_variant no_int_of_str
        {| variants := Some [variant "A" (VFloat Float.f0_4);
                             variant "B" (VFloat Float.f0_3)];
           num_buckets := 1000 |} b.
Proof.
  apply (@mirror_symmetry no_int_of_str
           (Some [variant "A" (VFloat Float.f0_4);
                  variant "B" (VFloat Float.f0_3)]) 1000 _
           (variant "A" (VFloat Float.f0_4)) (variant "B" (VFloat Float.f0_3))
           (VFloat Float.f0_4) (VFloat Float.f0_3));
    try (vm_compute; reflexivity); try (split; reflexivity); lia.
Defined.

Lemma resize_bands_witness :
  exists w0 w1 w0' w1',
    let vp := {| variants := Some [variant "control" (VFloat Float.f0_6);
                                   variant "treatment" (VFloat Float.f0_4)];
                 num_buckets := 1000 |} in
    let vp' := {| variants := Some [variant "control" (VFloat Float.f0_4);
                                    variant "treatment" (VFloat Float.f0_6)];
                  num_buckets := 1000 |} in
    @width no_int_of_str vp 0 = Ok w0 /\ @width no_int_of_str vp 1 = Ok w1 /\
    @width no_int_of_str vp' 0 = Ok w0' /\ @width no_int_of_str vp' 1 = Ok w1' /\
    forall b,
      @choose_variant no_int_of_str vp' b <> @choose_variant no_int_of_str vp b ->
      Z.min w0 w0' <= b < Z.max w0 w0' \/
      1000 - Z.max w1 w1' <= b < 1000 - Z.min w1 w1'.
Proof.
  apply (@resize_bands no_int_of_str 1000
           (variant "control" (VFloat Float.f0_6))
           (variant "treatment" (VFloat Float.f0_4))
           (variant "control" (VFloat Float.f0_4))
           (variant "treatment" (VFloat Float.f0_6))
           (VFloat Float.f0_6) (VFloat Float.f0_4)
           (VFloat Float.f0_4) (VFloat Float.f0_6));
    try (vm_compute; reflexivity); try (split; reflexivity); lia.
Defined.

Lemma width_accuracy_witness :
  exists c w0 w1,
    let vp := {| variants := Some [variant "A" (VFloat Float.f0_4);
                                   variant "B" (VFloat Float.f0_3)];
                 num_buckets := 1000 |} in
    0 <= c /\ 0 <= Float.expo Float.f0_4 + c /\ 0 <= Float.expo Float.f0_3 + c /\
    @width no_int_of_str vp 0 = Ok w0 /\ @width no_int_of_str vp 1 = Ok w1 /\
    w0 * 2 ^ c * 2 ^ 53 <= Float.scaled Float.f0_4 c * 1000 * (2 ^ 53 + 1) /\
    Float.scaled Float.f0_4 c * 1000 * (2 ^ 53 - 1) < (w0 + 1) * 2 ^ c * 2 ^ 53 /\
    w1 * 2 ^ c * 2 ^ 53 <= Float.scaled Float.f0_3 c * 1000 * (2 ^ 53 + 1) /\
    Float.scaled Float.f0_3 c * 1000 * (2 ^ 53 - 1) < (w1 + 1) * 2 ^ c * 2 ^ 53.
Proof.
  apply (@width_accuracy no_int_of_str
           (Some [variant "A" (VFloat Float.f0_4);
                  variant "B" (VFloat Float.f0_3)]) 1000 _
           (variant "A" (VFloat Float.f0_4)) (variant "B" (VFloat Float.f0_3))
           Float.f0_4 Float.f0_3);
    try (vm_compute; reflexivity); try (split; reflexivity); lia.
Defined.

Lemma default_granularity_witness :
  let d0 := variant "control" (VFloat (thousandths 943)) in
  let d1 := variant "treatment" (VFloat (thousandths 57)) in
  let vp := {| variants := Some [d0; d1]; num_buckets := 1000 |} in
  __init__ (Some [d0; d1]) 1000 = Ok vp /\
  @width no_int_of_str vp 0 = Ok 943 /\ @width no_int_of_str vp 1 = Ok 57 /\
  forall i, @choose_variant no_int_of_str vp i =
    if i <? 943 then dict_getitem d0 "name"
    else if i >=? 1000 - 57 then dict_getitem d1 "name" else Ok VNone.
Proof.
  apply (@default_granularity no_int_of_str
           (variant "control" (VFloat (thousandths 943)))
           (variant "treatment" (VFloat (thousandths 57))) 943 57);
    try reflexivity; lia.
Defined.
